(** * LenseForge storefront: cart ledger and catalog queries

    A shallow embedding of the pricing, cart and catalog logic of
    [cart.js], [detail.js] and [script.js], followed by the properties
    stated about it.

    Modelling conventions.
    - A JavaScript string is a [string] of bytes; [toLowerCase] and [trim]
      act on the ASCII letters and the ASCII white space.
    - A number read from JSON is a finite decimal [mant / 10 ^ fdigits],
      kept exactly: rounding to IEEE doubles and signed zero are not
      represented.  Results of [parseFloat] and of [+] live in [number],
      which adds [NaN] and the two infinities.
    - Objects used as records ([Product], cart line items) are records; the
      JSON text kept under the storage key is a [string], and the value it
      denotes is a [json] tree. *)

From Stdlib Require Import ZArith NArith Ascii String Bool Lia.
From stdpp Require Import base option list strings.

Local Open Scope Z_scope.

(* ================================================================== *)
(** * Part I: the program *)
(* ================================================================== *)

(** ** JavaScript string primitives *)

Module JsString.

Definition code (c : ascii) : N := N_of_ascii c.

(** White space removed by [String.prototype.trim] and skipped by
    [parseInt] / [parseFloat]: TAB, LF, VT, FF, CR and SPACE. *)
Definition is_ws (c : ascii) : bool :=
  let n := code c in
  ((9 <=? n) && (n <=? 13) || (n =? 32))%N.

Definition is_digit (c : ascii) : bool :=
  let n := code c in ((48 <=? n) && (n <=? 57))%N.

Definition is_upper (c : ascii) : bool :=
  let n := code c in ((65 <=? n) && (n <=? 90))%N.

Definition lower_char (c : ascii) : ascii :=
  if is_upper c then ascii_of_N (code c + 32) else c.

Fixpoint toLowerCase (s : string) : string :=
  match s with
  | EmptyString => EmptyString
  | String c r => String (lower_char c) (toLowerCase r)
  end.

Fixpoint trimStart (s : string) : string :=
  match s with
  | String c r => if is_ws c then trimStart r else s
  | EmptyString => EmptyString
  end.

Fixpoint trimEnd (s : string) : string :=
  match s with
  | EmptyString => EmptyString
  | String c r =>
      match trimEnd r with
      | EmptyString => if is_ws c then EmptyString else String c EmptyString
      | t => String c t
      end
  end.

Definition trim (s : string) : string := trimEnd (trimStart s).

(** [startsWith s p]: [p] is a prefix of [s]. *)
Fixpoint startsWith (s p : string) {struct p} : bool :=
  match p, s with
  | EmptyString, _ => true
  | String a p', String b s' => Ascii.eqb a b && startsWith s' p'
  | String _ _, EmptyString => false
  end.

(** [s.includes(q)] *)
Fixpoint includes (s q : string) : bool :=
  startsWith s q ||
  match s with
  | EmptyString => false
  | String _ r => includes r q
  end.

(** The text without its first [n] characters, and its first [n]
    characters. *)
Fixpoint str_drop (n : nat) (s : string) : string :=
  match n, s with
  | O, _ => s
  | S n', String _ r => str_drop n' r
  | S _, EmptyString => EmptyString
  end.

Fixpoint str_take (n : nat) (s : string) : string :=
  match n, s with
  | S n', String c r => String c (str_take n' r)
  | _, _ => EmptyString
  end.

(** [s.replace(pat, rep)] with a string pattern: only the first
    occurrence is replaced.  [rep] is inserted literally (the program
    only ever passes the empty string). *)
Fixpoint replace (s pat rep : string) : string :=
  if startsWith s pat then rep +:+ str_drop (String.length pat) s
  else match s with
       | EmptyString => EmptyString
       | String c r => String c (replace r pat rep)
       end.

(** What follows the character [c] when the text starts with it. *)
Definition next_is (c : ascii) (s : string) : option string :=
  match s with
  | String c' r => if Ascii.eqb c' c then Some r else None
  | EmptyString => None
  end.

(** Truthiness of a string: only the empty string is falsy. *)
Definition truthy (s : string) : bool :=
  match s with EmptyString => false | _ => true end.

End JsString.

(** ** JavaScript numbers *)

Module JsNumber.
Import JsString.

(** A finite decimal: [mant / 10 ^ fdigits]. *)
Record decimal := Dec { mant : Z; fdigits : nat }.

(** One representation per value: no trailing zero after the point. *)
Definition canonical (d : decimal) : bool :=
  match fdigits d with
  | O => true
  | S _ => negb (mant d mod 10 =? 0)
  end.

Fixpoint normalize (m : Z) (k : nat) : decimal :=
  match k with
  | O => Dec m 0
  | S k' => if m mod 10 =? 0 then normalize (m / 10) k' else Dec m k
  end.

Definition of_Z (z : Z) : decimal := Dec z 0.

Definition dec_add (a b : decimal) : decimal :=
  let k := Nat.max (fdigits a) (fdigits b) in
  normalize (mant a * 10 ^ Z.of_nat (k - fdigits a)
             + mant b * 10 ^ Z.of_nat (k - fdigits b)) k.

(** Number values: what [parseFloat] and [+] can yield. *)
Inductive number :=
| NaN
| PosInf
| NegInf
| Num (d : decimal).

Definition zero : number := Num (of_Z 0).

(** [x + y] on numbers. *)
Definition add (x y : number) : number :=
  match x, y with
  | NaN, _ | _, NaN => NaN
  | PosInf, NegInf | NegInf, PosInf => NaN
  | PosInf, _ | _, PosInf => PosInf
  | NegInf, _ | _, NegInf => NegInf
  | Num a, Num b => Num (dec_add a b)
  end.

(** Truthiness of a number: [NaN] and zero are falsy. *)
Definition truthy (x : number) : bool :=
  match x with
  | NaN => false
  | Num d => negb (mant d =? 0)
  | _ => true
  end.

(** [x || y] *)
Definition or_else (x y : number) : number := if truthy x then x else y.

(** *** Digits *)

Definition digit_char (d : N) : ascii := ascii_of_N (48 + d).
Definition digit_val (c : ascii) : N := (code c - 48)%N.

Fixpoint digits_aux (fuel : nat) (n : N) (acc : string) : string :=
  match fuel with
  | O => acc
  | S f =>
      let acc' := String (digit_char (n mod 10)) acc in
      if (n <? 10)%N then acc' else digits_aux f (n / 10) acc'
  end.

(** Decimal numeral of a natural number, without leading zeros. *)
Definition digits (n : N) : string :=
  digits_aux (S (N.to_nat (N.log2 n))) n EmptyString.

Fixpoint digits_value (acc : N) (ds : string) : N :=
  match ds with
  | EmptyString => acc
  | String c r => digits_value (acc * 10 + digit_val c) r
  end.

(** Longest prefix of decimal digits, and what follows it. *)
Fixpoint span_digits (s : string) : string * string :=
  match s with
  | String c r =>
      if is_digit c then
        let (ds, rest) := span_digits r in (String c ds, rest)
      else (EmptyString, s)
  | EmptyString => (EmptyString, EmptyString)
  end.

Fixpoint all_digits (s : string) : bool :=
  match s with
  | EmptyString => true
  | String c r => is_digit c && all_digits r
  end.

Fixpoint no_digit (s : string) : bool :=
  match s with
  | EmptyString => true
  | String c r => negb (is_digit c) && no_digit r
  end.

Fixpoint zeros (n : nat) : string :=
  match n with O => EmptyString | S n' => String "0" (zeros n') end.

(** The digits without their trailing zeros. *)
Fixpoint strip_zeros_end (s : string) : string :=
  match s with
  | EmptyString => EmptyString
  | String c r =>
      match strip_zeros_end r with
      | EmptyString => if Ascii.eqb c "0" then EmptyString else String c EmptyString
      | t => String c t
      end
  end.

(** [Number::toString] of a finite number with decimal digits [ds], the
    last [k] of them after the point: positional notation ... *)
Definition print_positional (ds : string) (k : nat) : string :=
  let len := String.length ds in
  match k with
  | O => ds
  | S _ =>
      if (k <? len)%nat
      then str_take (len - k) ds +:+ "." +:+ str_drop (len - k) ds
      else "0." +:+ zeros (k - len) +:+ ds
  end.

Definition exponent_sign (e : Z) : ascii :=
  if e <? 0 then "-"%char else "+"%char.

(** ... and exponent notation, [pos] being the number of digits before
    the point (negative when the number starts with zeros after it). *)
Definition print_exponent (ds : string) (pos : Z) : string :=
  let e := pos - 1 in
  match strip_zeros_end ds with
  | EmptyString => "0"
  | String c r =>
      String c (match r with
                | EmptyString => EmptyString
                | _ => String "." r
                end)
      +:+ String "e" (String (exponent_sign e) (digits (Z.abs_N e)))
  end.

(** Positional notation is used from [1e-6] up to, but excluding,
    [1e21]. *)
Definition print_unsigned (n : N) (k : nat) : string :=
  let ds := digits n in
  let pos := Z.of_nat (String.length ds) - Z.of_nat k in
  if (pos <=? -6) || (21 <? pos) then print_exponent ds pos
  else print_positional ds k.

Definition print_canonical (d : decimal) : string :=
  let body := print_unsigned (Z.abs_N (mant d)) (fdigits d) in
  if mant d <? 0 then String "-" body else body.

(** The text of a number is that of its canonical representation. *)
Definition print_decimal (d : decimal) : string :=
  print_canonical (normalize (mant d) (fdigits d)).

Definition to_string (x : number) : string :=
  match x with
  | NaN => "NaN"
  | PosInf => "Infinity"
  | NegInf => "-Infinity"
  | Num d => print_decimal d
  end.

(** *** Reading numerals *)

(** The decimal written [ip "." fp "e" e], negated when [neg]. *)
Definition decimal_of_parts (neg : bool) (ip fp : string) (e : Z) : decimal :=
  let m := Z.of_N (digits_value 0 (ip +:+ fp)) in
  let m := if neg then - m else m in
  let sh := e - Z.of_nat (String.length fp) in
  if 0 <=? sh then Dec (m * 10 ^ sh) 0 else normalize m (Z.to_nat (- sh)).

(** An optional sign: whether it is a minus, and what follows it. *)
Definition take_sign (s : string) : bool * string :=
  match next_is "-" s with
  | Some r => (true, r)
  | None =>
      match next_is "+" s with
      | Some r => (false, r)
      | None => (false, s)
      end
  end.

Definition is_exp_char (c : ascii) : bool :=
  (Ascii.eqb c "e" || Ascii.eqb c "E")%bool.

(** An exponent part [e], [e+] or [e-] followed by at least one digit. *)
Definition parse_exponent (s : string) : option (Z * string) :=
  match s with
  | String c r =>
      if is_exp_char c then
        let '(neg, r1) := take_sign r in
        let (ds, r2) := span_digits r1 in
        match ds with
        | EmptyString => None
        | _ =>
            let e := Z.of_N (digits_value 0 ds) in
            Some (if neg then - e else e, r2)
        end
      else None
  | EmptyString => None
  end.

(** [parseFloat(s)]: the longest prefix of the trimmed input that is a
    decimal literal; [NaN] when there is none. *)
Definition parseFloat (s : string) : number :=
  let '(neg, s1) := take_sign (trimStart s) in
  if startsWith s1 "Infinity" then (if neg then NegInf else PosInf)
  else
    let (ip, s2) := span_digits s1 in
    let '(fp, s3) :=
      match next_is "." s2 with
      | Some r => span_digits r
      | None => (EmptyString, s2)
      end in
    match ip, fp with
    | EmptyString, EmptyString => NaN
    | _, _ =>
        let e := match parse_exponent s3 with
                 | Some (e, _) => e
                 | None => 0
                 end in
        Num (decimal_of_parts neg ip fp e)
    end.

(** Value of a digit in the given radix, if it is one. *)
Definition radix_digit (radix : N) (c : ascii) : option N :=
  let n := code c in
  let v := (if (48 <=? n) && (n <=? 57) then Some (n - 48)
            else if (97 <=? n) && (n <=? 122) then Some (n - 87)
            else if (65 <=? n) && (n <=? 90) then Some (n - 55)
            else None)%N in
  match v with
  | Some d => if (d <? radix)%N then Some d else None
  | None => None
  end.

(** Value of the longest prefix of radix digits; [acc] is [None] until
    a first digit has been read. *)
Fixpoint parse_radix (radix : N) (s : string) (acc : option N) : option N :=
  match s with
  | String c r =>
      match radix_digit radix c with
      | Some d =>
          parse_radix radix r
            (Some (match acc with Some a => a * radix + d | None => d end)%N)
      | None => acc
      end
  | EmptyString => acc
  end.

(** [parseInt(s)] without a radix argument; [None] stands for [NaN]. *)
Definition parseInt (s : string) : option Z :=
  let '(neg, s1) := take_sign (trimStart s) in
  let '(radix, s2) :=
    if startsWith s1 "0x" || startsWith s1 "0X"
    then (16%N, str_drop 2 s1) else (10%N, s1) in
  match parse_radix radix s2 None with
  | Some n => Some (if neg then - Z.of_N n else Z.of_N n)
  | None => None
  end.

End JsNumber.

(** ** JSON values, [JSON.stringify] and [JSON.parse] *)

Module Json.
Import JsString JsNumber.

#[warnings="-register-all"]
Inductive json :=
| JNull
| JBool (b : bool)
| JNum (d : decimal)
| JStr (s : string)
| JArr (items : list json)
| JObj (members : list (string * json)).

Definition dquote : ascii := "034"%char.
Definition backslash : ascii := "092"%char.

(** *** Objects: own properties in enumeration order *)

(** An array-index key: the canonical numeral of an integer below
    [2^32 - 1].  Such keys are enumerated first, in ascending order. *)
Definition array_index (k : string) : option N :=
  let n := digits_value 0 k in
  if String.eqb (digits n) k && (n <? 4294967295)%N then Some n else None.

Fixpoint obj_get (k : string) (o : list (string * json)) : option json :=
  match o with
  | [] => None
  | (k', v) :: r => if String.eqb k k' then Some v else obj_get k r
  end.

Fixpoint obj_replace (k : string) (v : json) (o : list (string * json))
  : list (string * json) :=
  match o with
  | [] => []
  | (k', v') :: r =>
      if String.eqb k k' then (k', v) :: r else (k', v') :: obj_replace k v r
  end.

Fixpoint obj_insert_index (n : N) (k : string) (v : json)
  (o : list (string * json)) : list (string * json) :=
  match o with
  | [] => [(k, v)]
  | (k', v') :: r =>
      match array_index k' with
      | Some n' =>
          if (n' <? n)%N then (k', v') :: obj_insert_index n k v r
          else (k, v) :: o
      | None => (k, v) :: o
      end
  end.

(** Define or overwrite the own property [k]. *)
Definition obj_set (o : list (string * json)) (k : string) (v : json)
  : list (string * json) :=
  match obj_get k o with
  | Some _ => obj_replace k v o
  | None =>
      match array_index k with
      | Some n => obj_insert_index n k v o
      | None => o ++ [(k, v)]
      end
  end.

(** The object built from members in source order (a later duplicate
    overwrites the value of an earlier one). *)
Definition build_object (raw : list (string * json)) : list (string * json) :=
  fold_left (fun o kv => obj_set o (fst kv) (snd kv)) raw [].

(** *** Serialisation *)

Definition hex_char (n : N) : ascii :=
  if (n <? 10)%N then ascii_of_N (48 + n) else ascii_of_N (87 + n).

Definition escape_char (c : ascii) : string :=
  let n := code c in
  if (n =? 34)%N then String backslash (String dquote EmptyString)
  else if (n =? 92)%N then String backslash (String backslash EmptyString)
  else if (n =? 8)%N then String backslash "b"
  else if (n =? 9)%N then String backslash "t"
  else if (n =? 10)%N then String backslash "n"
  else if (n =? 12)%N then String backslash "f"
  else if (n =? 13)%N then String backslash "r"
  else if (n <? 32)%N then
    String backslash
      (String "u" (String "0" (String "0"
        (String (hex_char (n / 16)) (String (hex_char (n mod 16)) EmptyString)))))
  else String c EmptyString.

Fixpoint escape (s : string) : string :=
  match s with
  | EmptyString => EmptyString
  | String c r => escape_char c +:+ escape r
  end.

Definition quote (s : string) : string :=
  String dquote (escape s +:+ String dquote EmptyString).

(** What follows the first element of an array, and the first member of
    an object, given the serialisation of a value. *)
Definition elems_tail (str : json -> string) : list json -> string :=
  fix tail (l : list json) : string :=
    match l with
    | [] => "]"
    | y :: ys => "," +:+ str y +:+ tail ys
    end.

Definition members_tail (str : json -> string) : list (string * json) -> string :=
  fix tail (l : list (string * json)) : string :=
    match l with
    | [] => "}"
    | (k, y) :: ys => "," +:+ quote k +:+ ":" +:+ str y +:+ tail ys
    end.

(** [JSON.stringify(v)] without indentation. *)
Fixpoint stringify (v : json) : string :=
  match v with
  | JNull => "null"
  | JBool true => "true"
  | JBool false => "false"
  | JNum d => print_decimal d
  | JStr s => quote s
  | JArr [] => "[]"
  | JArr (x :: xs) => "[" +:+ stringify x +:+ elems_tail stringify xs
  | JObj [] => "{}"
  | JObj ((k, x) :: ms) =>
      "{" +:+ quote k +:+ ":" +:+ stringify x +:+ members_tail stringify ms
  end.

(** *** Parsing *)

Definition is_json_ws (c : ascii) : bool :=
  let n := code c in ((n =? 32) || (n =? 9) || (n =? 10) || (n =? 13))%N.

Fixpoint skip_ws (s : string) : string :=
  match s with
  | String c r => if is_json_ws c then skip_ws r else s
  | EmptyString => EmptyString
  end.

(** UTF-8 bytes of the code unit [n] named by a [\uXXXX] escape. *)
Definition utf8 (n : N) : string :=
  if (n <? 128)%N then String (ascii_of_N n) EmptyString
  else if (n <? 2048)%N then
    String (ascii_of_N (192 + n / 64))
      (String (ascii_of_N (128 + n mod 64)) EmptyString)
  else
    String (ascii_of_N (224 + n / 4096))
      (String (ascii_of_N (128 + (n / 64) mod 64))
        (String (ascii_of_N (128 + n mod 64)) EmptyString)).

Definition hex4 (a b c d : ascii) : option N :=
  match radix_digit 16 a, radix_digit 16 b, radix_digit 16 c, radix_digit 16 d with
  | Some x, Some y, Some z, Some w => Some (((x * 16 + y) * 16 + z) * 16 + w)%N
  | _, _, _, _ => None
  end.

Definition simple_escape (e : ascii) : option ascii :=
  let n := code e in
  if (n =? 34)%N then Some dquote
  else if (n =? 92)%N then Some backslash
  else if (n =? 47)%N then Some "/"%char
  else if (n =? 98)%N then Some "008"%char
  else if (n =? 102)%N then Some "012"%char
  else if (n =? 110)%N then Some "010"%char
  else if (n =? 114)%N then Some "013"%char
  else if (n =? 116)%N then Some "009"%char
  else None.

(** The characters of a string literal, read after its opening quote,
    up to and including the closing quote. *)
Fixpoint parse_string_body (s : string) : option (string * string) :=
  match s with
  | EmptyString => None
  | String c r =>
      if (code c =? 34)%N then Some (EmptyString, r)
      else if (code c =? 92)%N then
        match r with
        | String e r' =>
            match simple_escape e with
            | Some x =>
                match parse_string_body r' with
                | Some (t, rest) => Some (String x t, rest)
                | None => None
                end
            | None =>
                if Ascii.eqb e "u" then
                  match r' with
                  | String h1 (String h2 (String h3 (String h4 r''))) =>
                      match hex4 h1 h2 h3 h4 with
                      | Some n =>
                          match parse_string_body r'' with
                          | Some (t, rest) => Some (utf8 n +:+ t, rest)
                          | None => None
                          end
                      | None => None
                      end
                  | _ => None
                  end
                else None
            end
        | EmptyString => None
        end
      else if (code c <? 32)%N then None
      else
        match parse_string_body r with
        | Some (t, rest) => Some (String c t, rest)
        | None => None
        end
  end.

(** A JSON number: an optional minus sign, an integer part without a
    superfluous leading zero, an optional fraction of at least one digit
    and an optional exponent. *)
Definition parse_unsigned (neg : bool) (s1 : string) : option (decimal * string) :=
  let (ip, s2) := span_digits s1 in
  match ip with
  | EmptyString => None
  | String d0 ip' =>
      if Ascii.eqb d0 "0" && JsString.truthy ip' then None
      else
        let frac :=
          match next_is "." s2 with
          | Some r =>
              let (fp, s3) := span_digits r in
              match fp with
              | EmptyString => None
              | _ => Some (fp, s3)
              end
          | None => Some (EmptyString, s2)
          end in
        match frac with
        | None => None
        | Some (fp, s3) =>
            match s3 with
            | String c _ =>
                if is_exp_char c then
                  match parse_exponent s3 with
                  | Some (e, s4) => Some (decimal_of_parts neg ip fp e, s4)
                  | None => None
                  end
                else Some (decimal_of_parts neg ip fp 0, s3)
            | EmptyString => Some (decimal_of_parts neg ip fp 0, s3)
            end
        end
  end.

Definition parse_number (s : string) : option (decimal * string) :=
  match next_is "-" s with
  | Some r => parse_unsigned true r
  | None => parse_unsigned false s
  end.

(** One object member ["key" : value], given the value parser. *)
Definition parse_member (pv : string -> option (json * string)) (s : string)
  : option ((string * json) * string) :=
  match skip_ws s with
  | String c r =>
      if Ascii.eqb c dquote then
        match parse_string_body r with
        | Some (k, r1) =>
            match next_is ":" (skip_ws r1) with
            | Some r2 =>
                match pv r2 with
                | Some (v, r3) => Some ((k, v), r3)
                | None => None
                end
            | None => None
            end
        | None => None
        end
      else None
  | EmptyString => None
  end.

(** Recursive descent; [fuel] bounds the nesting of the calls and is
    never the limiting factor when it exceeds the length of the text.
    [parse_elems] and [parse_members] read what follows an element of an
    array or a member of an object: a closing bracket, or a comma and
    the next one. *)
Fixpoint parse_value (fuel : nat) (s : string) : option (json * string) :=
  match fuel with
  | O => None
  | S f =>
      match skip_ws s with
      | EmptyString => None
      | String c r as s' =>
          if Ascii.eqb c dquote then
            match parse_string_body r with
            | Some (str, r1) => Some (JStr str, r1)
            | None => None
            end
          else if Ascii.eqb c "[" then
            match next_is "]" (skip_ws r) with
            | Some r1 => Some (JArr [], r1)
            | None =>
                match parse_value f r with
                | Some (v, r1) =>
                    match parse_elems f r1 with
                    | Some (vs, r2) => Some (JArr (v :: vs), r2)
                    | None => None
                    end
                | None => None
                end
            end
          else if Ascii.eqb c "{" then
            match next_is "}" (skip_ws r) with
            | Some r1 => Some (JObj [], r1)
            | None =>
                match parse_member (parse_value f) r with
                | Some (m, r1) =>
                    match parse_members f r1 with
                    | Some (ms, r2) => Some (JObj (build_object (m :: ms)), r2)
                    | None => None
                    end
                | None => None
                end
            end
          else if startsWith s' "true" then Some (JBool true, str_drop 4 s')
          else if startsWith s' "false" then Some (JBool false, str_drop 5 s')
          else if startsWith s' "null" then Some (JNull, str_drop 4 s')
          else
            match parse_number s' with
            | Some (d, r1) => Some (JNum d, r1)
            | None => None
            end
      end
  end
with parse_elems (fuel : nat) (s : string) : option (list json * string) :=
  match fuel with
  | O => None
  | S f =>
      match next_is "]" (skip_ws s) with
      | Some r => Some ([], r)
      | None =>
          match next_is "," (skip_ws s) with
          | Some r =>
              match parse_value f r with
              | Some (v, r1) =>
                  match parse_elems f r1 with
                  | Some (vs, r2) => Some (v :: vs, r2)
                  | None => None
                  end
              | None => None
              end
          | None => None
          end
      end
  end
with parse_members (fuel : nat) (s : string)
  : option (list (string * json) * string) :=
  match fuel with
  | O => None
  | S f =>
      match next_is "}" (skip_ws s) with
      | Some r => Some ([], r)
      | None =>
          match next_is "," (skip_ws s) with
          | Some r =>
              match parse_member (parse_value f) r with
              | Some (m, r1) =>
                  match parse_members f r1 with
                  | Some (ms, r2) => Some (m :: ms, r2)
                  | None => None
                  end
              | None => None
              end
          | None => None
          end
      end
  end.

(** [JSON.parse(text)]; [None] stands for the [SyntaxError] it throws. *)
Definition parse (text : string) : option json :=
  match parse_value (S (String.length text)) text with
  | Some (v, rest) =>
      match skip_ws rest with
      | EmptyString => Some v
      | _ => None
      end
  | None => None
  end.

(** Truthiness of a value: [null], [false], zero and the empty string
    are falsy; arrays and objects are truthy. *)
Definition truthy (v : json) : bool :=
  match v with
  | JNull => false
  | JBool b => b
  | JNum d => negb (mant d =? 0)
  | JStr s => JsString.truthy s
  | JArr _ | JObj _ => true
  end.

(** *** Values in normal form *)

(** A value as the program holds it: every number in its canonical
    representation, and the members of every object in enumeration
    order (rebuilding the object from them changes nothing). *)
Fixpoint well_formed (v : json) : Prop :=
  match v with
  | JNum d => canonical d = true
  | JArr l =>
      (fix all (l : list json) : Prop :=
         match l with
         | [] => True
         | x :: r => well_formed x /\ all r
         end) l
  | JObj ms =>
      build_object ms = ms
      /\ (fix all (l : list (string * json)) : Prop :=
            match l with
            | [] => True
            | (_, x) :: r => well_formed x /\ all r
            end) ms
  | _ => True
  end.

(** Fuel that [parse_value] needs to read back the text of a value. *)
Fixpoint parse_fuel (v : json) : nat :=
  match v with
  | JArr l =>
      S ((fix go (l : list json) : nat :=
            match l with
            | [] => O
            | x :: r => S (parse_fuel x + go r)
            end) l)
  | JObj ms =>
      S ((fix go (l : list (string * json)) : nat :=
            match l with
            | [] => O
            | (_, x) :: r => S (parse_fuel x + go r)
            end) ms)
  | _ => 1%nat
  end.

(** A character that can start the text of a value. *)
Definition value_start (c : ascii) : bool :=
  Ascii.eqb c dquote || Ascii.eqb c "[" || Ascii.eqb c "{" || Ascii.eqb c "t"
  || Ascii.eqb c "f" || Ascii.eqb c "n" || Ascii.eqb c "-" || is_digit c.

(** A text after which a number ends: it does not go on with a digit, a
    point or an exponent mark. *)
Definition ends_number (rest : string) : bool :=
  match rest with
  | String c _ => negb (is_digit c || Ascii.eqb c "." || is_exp_char c)
  | EmptyString => true
  end.

(** Enumeration order of two keys of an object: array indices first, in
    ascending order, then the other keys. *)
Definition key_before (k1 k2 : string) : Prop :=
  match array_index k1, array_index k2 with
  | Some a, Some b => (a < b)%N
  | Some _, None => True
  | None, Some _ => False
  | None, None => True
  end.

(** The own keys of an object: distinct, and in enumeration order. *)
Inductive ordered_keys : list string -> Prop :=
| ordered_nil : ordered_keys []
| ordered_cons k ks :
    k ∉ ks -> Forall (key_before k) ks -> ordered_keys ks -> ordered_keys (k :: ks).

Definition values_well_formed (o : list (string * json)) : Prop :=
  Forall (fun kv => well_formed (snd kv)) o.

(** A parser that consumes input and that fuel [g] serves as well on
    every text shorter than [g]. *)
Definition adequate {A : Type} (p : nat -> string -> option (A * string)) (f : nat) : Prop :=
  forall s x r,
    p f s = Some (x, r) ->
    (String.length r < String.length s)%nat
    /\ forall g, (String.length s < g)%nat -> p g s = Some (x, r).

(** [parse_value] reads the text of [v] back, whatever follows it. *)
Definition reads_back (v : json) : Prop :=
  well_formed v ->
  forall (fuel : nat) (rest : string),
    (parse_fuel v <= fuel)%nat ->
    ends_number rest = true ->
    parse_value fuel (stringify v +:+ rest) = Some (v, rest).

End Json.

Import JsString JsNumber Json.

(** ** Data model *)

(** The [price] property of a record: a number, a string, or nothing
    ([undefined]). *)
Inductive Price :=
| PNum (d : decimal)
| PStr (s : string)
| PMissing.

Module Product.
Record t := mk {
  id : Z;
  name : string;
  brand : string;
  category : string;
  summary : option string;
  details : string;
  price : Price;
  displayPrice : option string;
  images : list string
}.
End Product.

(** The object literal [cartProduct] of [addToCart]: a product without
    its [details], with [displayPrice] always set. *)
Module CartLineItem.
Record t := mk {
  id : Z;
  name : string;
  brand : string;
  summary : option string;
  price : Price;
  displayPrice : string;
  images : list string;
  category : string
}.

Definition opt_member (k : string) (o : option json) : list (string * json) :=
  match o with
  | Some v => [(k, v)]
  | None => []
  end.

(** A number is the JavaScript value of its canonical representation. *)
Definition price_json (p : Price) : option json :=
  match p with
  | PNum d => Some (JNum (normalize (mant d) (fdigits d)))
  | PStr s => Some (JStr s)
  | PMissing => None
  end.

(** The line item as a JavaScript object, properties in the order of the
    literal; a property holding [undefined] is left out, as
    [JSON.stringify] does. *)
Definition to_json (i : t) : json :=
  JObj ([("id", JNum (of_Z (id i)));
         ("name", JStr (name i));
         ("brand", JStr (brand i))]
        ++ opt_member "summary" (option_map JStr (summary i))
        ++ opt_member "price" (price_json (price i))
        ++ [("displayPrice", JStr (displayPrice i));
            ("images", JArr (map JStr (images i)));
            ("category", JStr (category i))]).
End CartLineItem.

Definition cart_to_json (cart : list CartLineItem.t) : json :=
  JArr (map CartLineItem.to_json cart).

(** ** Catalog queries ([script.js]) *)

Module Catalog.
Import Product.

(** [category === 'All' ? allProducts
      : allProducts.filter(p => p.category === category)],
    as written in [handleCategoryFilter] and in [setupCategories]. *)
Definition filterByCategory (allProducts : list Product.t) (category : string)
  : list Product.t :=
  if String.eqb category "All" then allProducts
  else List.filter (fun p => String.eqb (Product.category p) category) allProducts.

(** The predicate of [filterProducts]. *)
Definition matches (query : string) (product : Product.t) : bool :=
  includes (toLowerCase (name product)) query
  || includes (toLowerCase (brand product)) query
  || includes (toLowerCase (Product.category product)) query
  || match summary product with
     | Some s => JsString.truthy s && includes (toLowerCase s) query
     | None => false
     end.

(** [filterProducts(query)]: the list handed to [showProducts]. *)
Definition filterProducts (allProducts : list Product.t) (query : string)
  : list Product.t :=
  if negb (JsString.truthy query) then allProducts
  else List.filter (matches query) allProducts.

(** The debounced body of [handleSearch], on the text of the input. *)
Definition handleSearch (allProducts : list Product.t) (value : string)
  : list Product.t :=
  filterProducts allProducts (trim (toLowerCase value)).

End Catalog.

(** ** Cart ledger ([cart.js], [detail.js], [script.js]) *)

Module Cart.
Import CartLineItem.

Module SHIPPING_RATES.
Definition BASE : Z := 0.
Definition ONE_ITEM : Z := 170.
Definition TWO_ITEMS : Z := 220.
Definition THREE_TO_FIVE : Z := 270.
Definition SIX_PLUS : Z := 350.
End SHIPPING_RATES.

Definition calculateShipping (itemCount : Z) : Z :=
  if itemCount =? 0 then SHIPPING_RATES.BASE
  else if itemCount =? 1 then SHIPPING_RATES.ONE_ITEM
  else if itemCount =? 2 then SHIPPING_RATES.TWO_ITEMS
  else if (3 <=? itemCount) && (itemCount <=? 5) then SHIPPING_RATES.THREE_TO_FIVE
  else if 6 <=? itemCount then SHIPPING_RATES.SIX_PLUS
  else SHIPPING_RATES.BASE.

(** [typeof item.price === 'number' ? item.price
      : parseFloat((item.price || '0').toString().replace('$', '')) || 0] *)
Definition price_of (item : CartLineItem.t) : number :=
  match price item with
  | PNum d => Num d
  | PStr s =>
      or_else
        (parseFloat (replace (if JsString.truthy s then s else "0") "$" EmptyString))
        zero
  | PMissing => or_else (parseFloat (replace "0" "$" EmptyString)) zero
  end.

Record Totals := mkTotals {
  subtotal : number;
  shipping : Z;
  total : number
}.

(** [calculateCart()]: the three globals it assigns. *)
Definition calculateCart (cart : list CartLineItem.t) : Totals :=
  let subtotal := fold_left (fun acc item => add acc (price_of item)) cart zero in
  let shipping := calculateShipping (Z.of_nat (length cart)) in
  mkTotals subtotal shipping (add subtotal (Num (of_Z shipping))).

(** *** Storage: the text kept under the key ['cart'], if any *)

Definition storage := option string.

(** [localStorage.setItem('cart', JSON.stringify(cart))] *)
Definition persist (cart : json) : storage := Some (stringify cart).

(** [loadCartFromStorage()] of [cart.js]: the value assigned to [cart]. *)
Definition loadCartFromStorage (st : storage) : json :=
  match st with
  | Some cartData =>
      if JsString.truthy cartData then
        match parse cartData with
        | Some v => v
        | None => JArr []
        end
      else JArr []
  | None => JArr []
  end.

Inductive completion (A : Type) :=
| Return (a : A)
| ThrowSyntaxError.
Arguments Return {A} a.
Arguments ThrowSyntaxError {A}.

(** [JSON.parse(localStorage.getItem('cart')) || []]; [getItem] yields
    [null] for a missing key, which [JSON.parse] reads as the text
    ["null"]. *)
Definition parse_or_empty (st : storage) : completion json :=
  match parse (match st with Some s => s | None => "null" end) with
  | Some v => Return (if Json.truthy v then v else JArr [])
  | None => ThrowSyntaxError
  end.

(** [window.getCart] of [script.js]. *)
Definition getCart (st : storage) : completion json := parse_or_empty st.

(** *** Removing ([cart.js]) *)

Inductive RemoveOutcome :=
| IndexOutOfRange
| Removed (itemName : string).

(** [removeItemFromCart(index)] on an integer index: the cart after the
    call (which is the one persisted) and what the user is told.  The last
    branch is not reached: past the guard the index is a valid
    position. *)
Definition removeItemFromCart (cart : list CartLineItem.t) (index : Z)
  : list CartLineItem.t * RemoveOutcome :=
  if (index <? 0) || (Z.of_nat (length cart) <=? index) then (cart, IndexOutOfRange)
  else
    match cart !! Z.to_nat index with
    | Some item => (delete (Z.to_nat index) cart, Removed (name item))
    | None => (cart, IndexOutOfRange)
    end.

(** *** Adding ([detail.js]) *)

Inductive AddOutcome :=
| Added
| AlreadyPresent.

(** [array.findIndex(f)]: [-1] when no element satisfies [f]. *)
Fixpoint findIndex {A : Type} (f : A -> bool) (l : list A) : Z :=
  match l with
  | [] => -1
  | x :: r =>
      if f x then 0
      else let i := findIndex f r in if i =? -1 then -1 else i + 1
  end.

(** The text of [product.price] inside a template literal. *)
Definition price_text (p : Price) : string :=
  match p with
  | PNum d => print_decimal d
  | PStr s => s
  | PMissing => "undefined"
  end.

Definition cartProduct (product : Product.t) : CartLineItem.t :=
  CartLineItem.mk
    (Product.id product)
    (Product.name product)
    (Product.brand product)
    (Product.summary product)
    (Product.price product)
    (match Product.displayPrice product with
     | Some s => if JsString.truthy s then s
                 else String "$" (price_text (Product.price product))
     | None => String "$" (price_text (Product.price product))
     end)
    (Product.images product)
    (Product.category product).

(** [addToCart(product)], on the cart it has read from the storage:
    the cart after the call and what the user is told.  Only an [Added]
    cart is written back. *)
Definition addToCart (cart : list CartLineItem.t) (product : Product.t)
  : list CartLineItem.t * AddOutcome :=
  let existingIndex := findIndex (fun item => id item =? Product.id product) cart in
  if negb (existingIndex =? -1) then (cart, AlreadyPresent)
  else (cart ++ [cartProduct product], Added).

(** Carts that [addToCart] and [removeItemFromCart] can produce from the
    empty cart. *)
Inductive reachable : list CartLineItem.t -> Prop :=
| reachable_empty : reachable []
| reachable_add cart product :
    reachable cart -> reachable (fst (addToCart cart product))
| reachable_remove cart index :
    reachable cart -> reachable (fst (removeItemFromCart cart index)).

End Cart.

(** ** Detail page ([detail.js]) *)

Module Detail.

(** [getProductIdFromURL()], on the value of [urlParams.get('id')]
    ([None] when the parameter is absent); [None] stands for the [null]
    it returns. *)
Definition getProductIdFromURL (param : option string) : option Z :=
  match param with
  | None => None
  | Some productId =>
      if negb (JsString.truthy productId) then None
      else
        match parseInt productId with
        | None => None
        | Some id => if id <=? 0 then None else Some id
        end
  end.

Inductive Presentation :=
| NotFound
| DetailView (product : Product.t).

(** [loadProductDetails(productId)], on the outcome of fetching the
    catalog ([None] when the fetch or its decoding fails, which the
    [catch] turns into the not-found state). *)
Definition loadProductDetails (fetched : option (list Product.t)) (productId : Z)
  : Presentation :=
  match fetched with
  | Some products =>
      match List.find (fun p => Product.id p =? productId) products with
      | Some product => DetailView product
      | None => NotFound
      end
  | None => NotFound
  end.

(** The [DOMContentLoaded] handler of the detail page. *)
Definition detailPage (param : option string) (fetched : option (list Product.t))
  : Presentation :=
  match getProductIdFromURL param with
  | None => NotFound
  | Some productId => loadProductDetails fetched productId
  end.

End Detail.

(** ** Exceptions *)

Inductive exn :=
| SyntaxError
| TypeError.

(** How an operation that may throw completes. *)
Inductive result (A : Type) :=
| Ok (a : A)
| Throw (e : exn).
Arguments Ok {A} a.
Arguments Throw {A} e.

(** ** Regular expressions of literal characters *)

(** [s.replace(/pat/g, rep)] for a non-empty pattern [pat] of literal
    characters: every occurrence met when scanning from the left is
    replaced, and the scan resumes after it.  [skip] counts the characters
    of an occurrence still to be passed over. *)
Fixpoint replace_all_from (skip : nat) (s pat rep : string) : string :=
  match s with
  | EmptyString => EmptyString
  | String c r =>
      match skip with
      | S k => replace_all_from k r pat rep
      | O =>
          if startsWith s pat
          then rep +:+ replace_all_from (String.length pat - 1) r pat rep
          else String c (replace_all_from 0 r pat rep)
      end
  end.

Definition replace_all (s pat rep : string) : string := replace_all_from 0 s pat rep.

(** ** Amounts with two decimals *)

(** [x.toFixed(2)]: the sign, then the integer [n] nearest to a hundred
    times the absolute value (the larger one of two equally near), with a
    point before its last two digits; [Number::toString] from [1e21] on
    and for the values that are not finite. *)
Definition toFixed2 (x : number) : string :=
  match x with
  | Num d =>
      let m := Z.abs (mant d) in
      let p := 10 ^ Z.of_nat (fdigits d) in
      let body :=
        if 10 ^ 21 * p <=? m then print_decimal (Dec m (fdigits d))
        else print_positional (digits (Z.to_N ((200 * m + p) / (2 * p)))) 2 in
      if mant d <? 0 then String "-" body else body
  | _ => to_string x
  end.

(** ** Product cards and category counts ([script.js]) *)

Module Listing.

(** [product.displayPrice || `$${product.price}`]: the price text of
    [createProductCard], of the related cards and of the detail view. *)
Definition priceLabel (product : Product.t) : string :=
  match Product.displayPrice product with
  | Some s =>
      if JsString.truthy s then s
      else String "$" (Cart.price_text (Product.price product))
  | None => String "$" (Cart.price_text (Product.price product))
  end.

(** The text of [${product.id}] in the link [detail.html?id=${product.id}]
    of a card; the browser hands it to the detail page as the value of
    the [id] parameter. *)
Definition id_text (product : Product.t) : string :=
  print_decimal (of_Z (Product.id product)).

(** [allProducts.filter(p => p.category === category).length] *)
Definition countOf (allProducts : list Product.t) (category : string) : Z :=
  Z.of_nat (length (List.filter (fun p => String.eqb (Product.category p) category)
                                allProducts)).

(** The object [counts] of [updateCategoryCounts], keys in the order of
    the literal. *)
Definition counts (allProducts : list Product.t) : list (string * Z) :=
  [("All"%string, Z.of_nat (length allProducts));
   ("Cameras"%string, countOf allProducts "Cameras");
   ("Camera Lenses"%string, countOf allProducts "Camera Lenses");
   ("Lighting & Studio"%string, countOf allProducts "Lighting & Studio");
   ("Tripods & Supports"%string, countOf allProducts "Tripods & Supports");
   ("Accessories"%string, countOf allProducts "Accessories")].

(** [category.toLowerCase().replace(/ & /g, '').replace(/ /g, '') + 'Count'] *)
Definition elementId (category : string) : string :=
  replace_all (replace_all (toLowerCase category) " & " EmptyString) " " EmptyString
  +:+ "Count".

(** [updateCategoryCounts()]: the elements written, with the number
    assigned to their text; [present] tells which element ids the page
    has. *)
Definition updateCategoryCounts (present : string -> bool) (allProducts : list Product.t)
  : list (string * Z) :=
  List.filter (fun w => present (fst w))
    (map (fun kv => (elementId (fst kv), snd kv)) (counts allProducts)).

End Listing.

(** ** Related products ([detail.js]) *)

Module Related.

(** [products.filter(p => p.category === category && p.id !== currentProductId)
      .slice(0, 4)] *)
Definition related (products : list Product.t) (category : string) (currentProductId : Z)
  : list Product.t :=
  take 4 (List.filter
            (fun p => String.eqb (Product.category p) category
                      && negb (Product.id p =? currentProductId))
            products).

(** The elements of the page that [loadRelatedProducts] looks up. *)
Record Containers := mkContainers {
  relatedProducts : bool;
  relatedProductsLoading : bool;
  noRelatedProducts : bool
}.

(** What the call leaves on the page. *)
Inductive View :=
| Untouched
| LoadingHidden
| NoRelatedNotice
| Cards (cards : list Product.t).

(** [loadRelatedProducts(category, currentProductId)], on the outcome of
    its own fetch of the catalog ([None] when the fetch or its decoding
    fails). *)
Definition loadRelatedProducts (dom : Containers) (fetched : option (list Product.t))
  (category : string) (currentProductId : Z) : View :=
  match fetched with
  | None => if relatedProductsLoading dom then LoadingHidden else Untouched
  | Some products =>
      let related := related products category currentProductId in
      if negb (relatedProducts dom) || negb (relatedProductsLoading dom) then Untouched
      else
        match related with
        | [] => if noRelatedProducts dom then NoRelatedNotice else LoadingHidden
        | _ => Cards related
        end
  end.

(** [loadProductDetails] calls it with the category and the id of the
    product it displays. *)
Definition ofProduct (dom : Containers) (fetched : option (list Product.t))
  (product : Product.t) : View :=
  loadRelatedProducts dom fetched (Product.category product) (Product.id product).

End Related.

(** ** The cart page ([cart.js]) *)

Module CartPage.

(** [item.displayPrice || `$${item.price}`] of [createCartItemElement]. *)
Definition priceLabel (item : CartLineItem.t) : string :=
  if JsString.truthy (CartLineItem.displayPrice item) then CartLineItem.displayPrice item
  else String "$" (Cart.price_text (CartLineItem.price item)).

(** [updateSummary()]: the texts of the sub-total, of the shipping charge
    and of the total. *)
Record SummaryText := mkSummaryText {
  subTotalText : string;
  shippingText : string;
  totalText : string
}.

Definition updateSummary (totals : Cart.Totals) : SummaryText :=
  mkSummaryText
    (String "$" (toFixed2 (Cart.subtotal totals)))
    (String "$" (toFixed2 (Num (of_Z (Cart.shipping totals)))))
    (String "$" (toFixed2 (Cart.total totals))).

(** The text of [data-index="${index}"] on the remove button of the item
    at position [index]. *)
Definition data_index (index : nat) : string :=
  print_decimal (of_Z (Z.of_nat index)).

(** The click listener of a remove button, on the value of
    [button.getAttribute('data-index')] ([None] for the [null] of a
    missing attribute, which [parseInt] reads as the text ["null"]).
    [NaN] passes the guard of [removeItemFromCart], both comparisons being
    false; [cart[NaN]] is [undefined] and reading its [name] throws. *)
Definition removeClick (cart : list CartLineItem.t) (attr : option string)
  : result (list CartLineItem.t * Cart.RemoveOutcome) :=
  match parseInt (match attr with Some s => s | None => "null" end) with
  | Some index => Ok (Cart.removeItemFromCart cart index)
  | None => Throw TypeError
  end.

End CartPage.

(** ** What the cart page displays ([cart.js]) *)

Module CartView.

(** The elements that [cacheElements] finds: [cartItems], the three
    elements of the summary, and the checkout button. *)
Record Elements := mkElements {
  cartItems : bool;
  summaryElements : bool;
  checkoutBtn : bool
}.

(** What the element [cartItems] holds: the markup of the page, one card
    per item with the text of its [data-index], or the message of the
    empty cart. *)
Inductive ItemsArea :=
| AsLoaded
| ItemCards (cards : list (string * CartLineItem.t))
| EmptyCartMessage.

(** The globals [cart], [subtotal], [shipping] and [total], the storage,
    and what the page shows; [None] for a text or a button state that was
    never set. *)
Record t := mk {
  cart : list CartLineItem.t;
  totals : Cart.Totals;
  storage : Cart.storage;
  items : ItemsArea;
  summary : option CartPage.SummaryText;
  checkoutDisabled : option bool
}.

Definition calculateCart (s : t) : t :=
  mk (cart s) (Cart.calculateCart (cart s)) (storage s) (items s) (summary s)
     (checkoutDisabled s).

Definition displayCartItems (dom : Elements) (s : t) : t :=
  if negb (cartItems dom) || (Z.of_nat (length (cart s)) =? 0) then s
  else
    mk (cart s) (totals s) (storage s)
       (ItemCards (imap (fun index item => (CartPage.data_index index, item)) (cart s)))
       (summary s) (checkoutDisabled s).

Definition updateSummary (dom : Elements) (s : t) : t :=
  if negb (summaryElements dom) then s
  else
    mk (cart s) (totals s) (storage s) (items s)
       (Some (CartPage.updateSummary (totals s))) (checkoutDisabled s).

Definition toggleEmptyCartMessage (dom : Elements) (s : t) : t :=
  if negb (cartItems dom) then s
  else if Z.of_nat (length (cart s)) =? 0 then
    mk (cart s) (totals s) (storage s) EmptyCartMessage (summary s)
       (if checkoutBtn dom then Some true else checkoutDisabled s)
  else
    mk (cart s) (totals s) (storage s) (items s) (summary s)
       (if checkoutBtn dom then Some false else checkoutDisabled s).

(** [initializeCart()], on the cart of line items that
    [loadCartFromStorage] read. *)
Definition initializeCart (dom : Elements) (loaded : list CartLineItem.t)
  (st : Cart.storage) : t :=
  let zeros := Cart.mkTotals zero 0 zero in
  toggleEmptyCartMessage dom
    (updateSummary dom
       (displayCartItems dom
          (calculateCart (mk loaded zeros st AsLoaded None None)))).

(** [removeItemFromCart(index)] with all that follows the removal.  It
    works on the global [cart] that the page loaded when it opened and
    writes it to the storage; the storage is not read again. *)
Definition removeItemFromCart (dom : Elements) (s : t) (index : Z) : t :=
  match Cart.removeItemFromCart (cart s) index with
  | (cart', Cart.Removed _) =>
      toggleEmptyCartMessage dom
        (updateSummary dom
           (displayCartItems dom
              (calculateCart
                 (mk cart' (totals s) (Cart.persist (cart_to_json cart')) (items s)
                     (summary s) (checkoutDisabled s)))))
  | (_, Cart.IndexOutOfRange) => s
  end.

(** Another page writes the storage while the cart page is open. *)
Definition written_elsewhere (s : t) (st : Cart.storage) : t :=
  mk (cart s) (totals s) st (items s) (summary s) (checkoutDisabled s).

(** What [handleCheckout] does: the warning of the empty cart, or the
    question it asks. *)
Inductive Checkout :=
| EmptyCartWarning
| Confirm (question : string).

Definition handleCheckout (s : t) : Checkout :=
  if Z.of_nat (length (cart s)) =? 0 then EmptyCartWarning
  else Confirm ("Proceed to checkout? Total: $" +:+ toFixed2 (Cart.total (totals s))).

(** The page shows the cart: the totals are those of the cart, there is
    one card per item in cart order (the message of the empty cart when
    there is none), the summary gives the totals, and the checkout button
    is disabled exactly when the cart is empty. *)
Definition shows_cart (s : t) : Prop :=
  totals s = Cart.calculateCart (cart s)
  /\ items s = match cart s with
               | [] => EmptyCartMessage
               | _ => ItemCards (imap (fun index item => (CartPage.data_index index, item))
                                      (cart s))
               end
  /\ summary s = Some (CartPage.updateSummary (Cart.calculateCart (cart s)))
  /\ checkoutDisabled s = Some (match cart s with [] => true | _ => false end).

End CartView.

(** ** The stored cart as the pages share it *)

Module Store.

(** Equality of the numbers two decimals denote. *)
Definition dec_eqb (a b : decimal) : bool :=
  mant a * 10 ^ Z.of_nat (fdigits b) =? mant b * 10 ^ Z.of_nat (fdigits a).

(** [item.id] of a value read from the storage: [null] has no
    properties, an object has its own, anything else has no [id]. *)
Definition get_id (item : json) : result (option json) :=
  match item with
  | JNull => Throw TypeError
  | JObj members => Ok (obj_get "id" members)
  | _ => Ok None
  end.

(** [item.id === product.id], the id of the product being the number
    [pid]. *)
Definition id_is (pid : Z) (v : option json) : bool :=
  match v with
  | Some (JNum d) => dec_eqb d (of_Z pid)
  | _ => false
  end.

(** [cart.findIndex(item => item.id === product.id)] on an array. *)
Fixpoint findIndex_id (pid : Z) (items : list json) : result Z :=
  match items with
  | [] => Ok (-1)
  | item :: rest =>
      match get_id item with
      | Throw e => Throw e
      | Ok v =>
          if id_is pid v then Ok 0
          else
            match findIndex_id pid rest with
            | Ok i => Ok (if i =? -1 then -1 else i + 1)
            | Throw e => Throw e
            end
      end
  end.

(** [showSimpleNotification(message, type)] *)
Inductive Notification :=
| Notify (message : string) (type : string).

Definition failed : Notification := Notify "Failed to add product to cart" "error".

Definition already (product : Product.t) : Notification :=
  Notify (Product.name product +:+ " is already in your cart!") "warning".

Definition added (product : Product.t) : Notification :=
  Notify (Product.name product +:+ " added to cart!") "success".

(** [addToCart(product)] of [detail.js] on the storage: the storage after
    the call and the notification shown.  A value that is not an array has
    no [findIndex]; calling it throws, and every exception ends in the
    [catch]. *)
Definition addToCart (st : Cart.storage) (product : Product.t)
  : Cart.storage * Notification :=
  match Cart.parse_or_empty st with
  | Cart.ThrowSyntaxError => (st, failed)
  | Cart.Return (JArr items) =>
      match findIndex_id (Product.id product) items with
      | Throw _ => (st, failed)
      | Ok existingIndex =>
          if negb (existingIndex =? -1)
          then (st, already product)
          else (Cart.persist
                  (JArr (items ++ [CartLineItem.to_json (Cart.cartProduct product)])),
                added product)
      end
  | Cart.Return _ => (st, failed)
  end.

(** Number of UTF-16 code units of a text held as UTF-8 bytes. *)
Fixpoint utf16_length (s : string) : nat :=
  match s with
  | EmptyString => O
  | String c r =>
      let n := code c in
      ((if (128 <=? n)%N && (n <? 192)%N then 0
        else if (240 <=? n)%N then 2 else 1) + utf16_length r)%nat
  end.

(** [cart.length]; [None] stands for [undefined]. *)
Definition length_of (cart : json) : option json :=
  match cart with
  | JArr items => Some (JNum (of_Z (Z.of_nat (length items))))
  | JStr s => Some (JNum (of_Z (Z.of_nat (utf16_length s))))
  | JObj members => obj_get "length" members
  | _ => None
  end.

(** [count === 0] *)
Definition is_zero (count : option json) : bool :=
  match count with
  | Some (JNum d) => mant d =? 0
  | _ => false
  end.

(** The cart badges: left as they were, or given the count as text and
    hidden or shown. *)
Inductive Badges :=
| BadgesUntouched
| BadgesSet (count : option json) (hidden : bool).

(** [updateCartCount()] of [script.js]: the value returned and what
    happens to the badges. *)
Definition updateCartCount (st : Cart.storage) : option json * Badges :=
  match Cart.parse_or_empty st with
  | Cart.Return cart =>
      let count := length_of cart in
      (count, BadgesSet count (is_zero count))
  | Cart.ThrowSyntaxError => (Some (JNum (of_Z 0)), BadgesUntouched)
  end.

(** [window.clearCart()]: the storage and the badges after the call. *)
Definition clearCart (st : Cart.storage) : Cart.storage * Badges :=
  (None, snd (updateCartCount None)).

End Store.

(** ** The cart page on whatever the storage holds ([cart.js]) *)

Module CartJson.

(** [String(v)] for a value read from JSON.  An array is the texts of its
    elements joined by commas, [null] counting as the empty text; an
    object is ["[object Object]"], unless it has a property [toString] of
    its own, which is no function: the conversion then throws. *)
Fixpoint to_text (v : json) : result string :=
  match v with
  | JNull => Ok "null"%string
  | JBool true => Ok "true"%string
  | JBool false => Ok "false"%string
  | JNum d => Ok (print_decimal d)
  | JStr s => Ok s
  | JArr l =>
      (fix join (l : list json) : result string :=
         match l with
         | [] => Ok EmptyString
         | x :: r =>
             match (match x with JNull => Ok EmptyString | _ => to_text x end) with
             | Throw e => Throw e
             | Ok t =>
                 match r with
                 | [] => Ok t
                 | _ =>
                     match join r with
                     | Ok u => Ok (t +:+ "," +:+ u)
                     | Throw e => Throw e
                     end
                 end
             end
         end) l
  | JObj members =>
      match obj_get "toString" members with
      | Some _ => Throw TypeError
      | None => Ok "[object Object]"%string
      end
  end.

(** [item.price]: [null] has no properties. *)
Definition get_price (item : json) : result (option json) :=
  match item with
  | JNull => Throw TypeError
  | JObj members => Ok (obj_get "price" members)
  | _ => Ok None
  end.

(** [typeof item.price === 'number' ? item.price
      : parseFloat((item.price || '0').toString().replace('$', '')) || 0] *)
Definition price_of (item : json) : result number :=
  match get_price item with
  | Throw e => Throw e
  | Ok (Some (JNum d)) => Ok (Num d)
  | Ok price =>
      let v := match price with
               | Some p => if Json.truthy p then p else JStr "0"
               | None => JStr "0"
               end in
      match to_text v with
      | Ok s => Ok (or_else (parseFloat (replace s "$" EmptyString)) zero)
      | Throw e => Throw e
      end
  end.

(** The loop of [calculateCart] over the items, from the subtotal so
    far. *)
Fixpoint sum_prices (items : list json) (subtotal : number) : result number :=
  match items with
  | [] => Ok subtotal
  | item :: rest =>
      match price_of item with
      | Ok price => sum_prices rest (add subtotal price)
      | Throw e => Throw e
      end
  end.

(** [calculateCart()] on the global [cart]: only an array has a
    [forEach]. *)
Definition calculateCart (cart : json) : result Cart.Totals :=
  match cart with
  | JArr items =>
      match sum_prices items zero with
      | Ok subtotal =>
          let shipping := Cart.calculateShipping (Z.of_nat (length items)) in
          Ok (Cart.mkTotals subtotal shipping (add subtotal (Num (of_Z shipping))))
      | Throw e => Throw e
      end
  | _ => Throw TypeError
  end.

(** The first two steps of [initializeCart()]: [loadCartFromStorage()]
    and [calculateCart()].  What is thrown here is caught by the
    [DOMContentLoaded] handler only, which tells the user that the cart
    failed to load. *)
Definition loadAndCalculate (st : Cart.storage) : result Cart.Totals :=
  calculateCart (Cart.loadCartFromStorage st).

End CartJson.

(** ** The product grid ([script.js]) *)

Module Storefront.

Inductive View :=
| Blank
| Spinner
| Cards (products : list Product.t)
| NoProductsFound
| LoadFailed.

(** The globals [allProducts] and [currentProducts], the cached
    [domCache.productsContainer] (whether there is one) and what the
    container shows. *)
Record t := mk {
  allProducts : list Product.t;
  currentProducts : list Product.t;
  productsContainer : bool;
  view : View
}.

Definition showProducts (s : t) (products : list Product.t) : t :=
  if productsContainer s then
    mk (allProducts s) (currentProducts s) true
       (match products with [] => NoProductsFound | _ => Cards products end)
  else s.

Definition showProductsError (s : t) : t :=
  if productsContainer s then mk (allProducts s) (currentProducts s) true LoadFailed
  else s.

(** What the page is made of: whether [loadNavbar] gets as far as
    [cacheDOMElements], whether the document has the element [products],
    and the catalog that the fetch of [data.json] yields, if it does. *)
Record Page := mkPage {
  navbarLoaded : bool;
  productsElement : bool;
  data : option (list Product.t)
}.

(** [initializeApp()] up to [loadProducts()]. *)
Definition initializeApp (page : Page) : t :=
  let s0 := mk [] [] (navbarLoaded page && productsElement page) Blank in
  if negb (productsElement page) then s0
  else
    let s1 := mk [] [] (productsContainer s0) Spinner in
    match data page with
    | Some products =>
        showProducts (mk products products (productsContainer s1) (view s1)) products
    | None => showProductsError s1
    end.

Definition filterProducts (s : t) (query : string) : t :=
  if negb (JsString.truthy query) then
    showProducts (mk (allProducts s) (allProducts s) (productsContainer s) (view s))
                 (allProducts s)
  else
    let filtered := List.filter (Catalog.matches query) (allProducts s) in
    showProducts (mk (allProducts s) filtered (productsContainer s) (view s)) filtered.

Definition handleSearch (s : t) (value : string) : t :=
  filterProducts s (trim (toLowerCase value)).

(** The click listener of the navbar links that carry a [data-category]. *)
Definition handleCategoryFilter (s : t) (category : string) (isHomeLink : bool) : t :=
  if negb isHomeLink then s
  else
    let filtered := Catalog.filterByCategory (allProducts s) category in
    showProducts (mk (allProducts s) filtered (productsContainer s) (view s)) filtered.

(** The click listener of the dropdown items ([setupCategories]); the
    attribute may be missing, and no product has the category [null]. *)
Definition categoryDropdown (s : t) (category : option string) : t :=
  showProducts s
    (match category with
     | Some c => Catalog.filterByCategory (allProducts s) c
     | None => []
     end).

Inductive Event :=
| Search (value : string)
| NavCategory (category : string) (isHomeLink : bool)
| DropdownCategory (category : option string)
| ShowAll.

Definition step (s : t) (e : Event) : t :=
  match e with
  | Search value => handleSearch s value
  | NavCategory category isHomeLink => handleCategoryFilter s category isHomeLink
  | DropdownCategory category => categoryDropdown s category
  | ShowAll => showProducts s (allProducts s)
  end.

Definition run (s : t) (events : list Event) : t := fold_left step events s.

(** The list that an event hands to [showProducts], if it gets there. *)
Definition selection (all : list Product.t) (e : Event) : option (list Product.t) :=
  match e with
  | Search value => Some (Catalog.handleSearch all value)
  | NavCategory category true => Some (Catalog.filterByCategory all category)
  | NavCategory _ false => None
  | DropdownCategory (Some category) => Some (Catalog.filterByCategory all category)
  | DropdownCategory None => Some []
  | ShowAll => Some all
  end.

(** What the container shows for a list. *)
Definition grid (products : list Product.t) : View :=
  match products with
  | [] => NoProductsFound
  | _ => Cards products
  end.

End Storefront.

(** ** Reference definitions, in the words of the specification *)

Module Spec.

(** [q] occurs in [s] as a substring. *)
Definition occurs (q s : string) : Prop :=
  exists a b, s = a +:+ q +:+ b.



(** "Strip a leading [$]". *)
Definition strip_leading_dollar (s : string) : string :=
  match s with
  | String "$" r => r
  | _ => s
  end.

(** Remove the first [$], wherever it stands. *)
Fixpoint strip_first_dollar (s : string) : string :=
  match s with
  | EmptyString => EmptyString
  | String c r => if Ascii.eqb c "$" then r else String c (strip_first_dollar r)
  end.

(** No [$] in the text. *)
Fixpoint dollar_free (s : string) : bool :=
  match s with
  | EmptyString => true
  | String c r => negb (Ascii.eqb c "$") && dollar_free r
  end.

(** A parsed number, with what does not parse (and zero) counted as 0. *)
Definition parsed_or_zero (x : number) : number :=
  match x with
  | NaN => zero
  | Num d => if mant d =? 0 then zero else x
  | _ => x
  end.

(** The coerced price, as the specification words it: the number
    itself, or the decimal parse of the string with a leading [$]
    stripped, 0 when it does not parse. *)
Definition coerce_price (p : Price) : number :=
  match p with
  | PNum d => Num d
  | PStr s => parsed_or_zero (parseFloat (strip_leading_dollar s))
  | PMissing => zero
  end.

(** The same with the first [$] removed instead. *)
Definition coerce_price_first (p : Price) : number :=
  match p with
  | PNum d => Num d
  | PStr s => parsed_or_zero (parseFloat (strip_first_dollar s))
  | PMissing => zero
  end.



End Spec.

(** ** Sample data *)

Definition scenario_product (i : Z) (cat : string) : Product.t :=
  Product.mk i "n" "b" cat None "d" (PNum (of_Z 10)) None [].

Definition canon_r5 : Product.t :=
  Product.mk 1 "Canon EOS R5" "Canon" "Cameras" (Some "Full-frame mirrorless camera")
    "45 MP sensor" (PNum (Dec 389900 2)) None ["r5.jpg"%string].

Definition sony_a7 : Product.t :=
  Product.mk 2 "Sony A7 IV" "Sony" "Cameras" None
    "33 MP sensor" (PNum (of_Z 2499)) None ["a7.jpg"%string].

Definition lens_50mm : Product.t :=
  Product.mk 12 "RF 50mm F1.8" "Canon" "Camera Lenses" (Some "Compact prime lens")
    "STM focus motor" (PNum (of_Z 199)) (Some "$199"%string) ["rf50.jpg"%string].

Definition priced_item (p : Price) : CartLineItem.t :=
  CartLineItem.mk 1 "Canon EOS R5" "Canon" None p "$1" [] "Cameras".

(* ================================================================== *)
(** * Part II: properties *)
(* ================================================================== *)

#[local] Arguments String.append !_ _ / : simpl nomatch.

(** ** The primitives on sample inputs *)

Example parseFloat_prefix : parseFloat "  -12.50e1abc" = Num (Dec (-125) 0).
Proof. reflexivity. Qed.

Example parseFloat_fraction :
  parseFloat "1.25" = Num (Dec 125 2) /\ parseFloat ".5" = Num (Dec 5 1)
  /\ parseFloat "1.5e-3" = Num (Dec 15 4).
Proof. repeat split; reflexivity. Qed.

Example parseFloat_not_a_number :
  parseFloat "." = NaN /\ parseFloat "free" = NaN /\ parseFloat EmptyString = NaN.
Proof. repeat split; reflexivity. Qed.

Example parseFloat_stops :
  parseFloat "1e" = Num (Dec 1 0) /\ parseFloat "1,299.00" = Num (Dec 1 0).
Proof. repeat split; reflexivity. Qed.

Example parseInt_samples :
  parseInt "0x1f" = Some 31 /\ parseInt " 12abc" = Some 12 /\ parseInt "-7.9" = Some (-7)
  /\ parseInt "abc" = None /\ parseInt "0x" = None.
Proof. repeat split; reflexivity. Qed.

Example print_decimal_positional :
  print_decimal (Dec (-5) 3) = "-0.005"%string
  /\ print_decimal (Dec 129999 2) = "1299.99"%string
  /\ print_decimal (Dec 0 0) = "0"%string
  /\ print_decimal (Dec 389900 2) = "3899"%string
  /\ print_decimal (Dec 1 6) = "0.000001"%string
  /\ print_decimal (of_Z (10 ^ 20)) = "100000000000000000000"%string.
Proof. repeat split; reflexivity. Qed.

Example print_decimal_exponent :
  print_decimal (Dec 1 7) = "1e-7"%string
  /\ print_decimal (Dec (-15) 8) = "-1.5e-7"%string
  /\ print_decimal (of_Z (10 ^ 21)) = "1e+21"%string
  /\ print_decimal (of_Z (123 * 10 ^ 20)) = "1.23e+22"%string.
Proof. repeat split; reflexivity. Qed.

Example add_decimals : add (Num (Dec 129999 2)) (Num (Dec 1 2)) = Num (Dec 1300 0).
Proof. reflexivity. Qed.

Example replace_first_only : replace "1$2$3" "$" EmptyString = "12$3"%string.
Proof. reflexivity. Qed.

Example trim_both_ends : trim "  a b  " = "a b"%string.
Proof. reflexivity. Qed.

Example parse_array_reprinted :
  option_map stringify (parse " [1.50, true , null, -2e2, [ ], {}] ")
  = Some "[1.5,true,null,-200,[],{}]"%string.
Proof. reflexivity. Qed.

Example build_object_order :
  fst <$> build_object [("b"%string, JNull); ("10"%string, JNull); ("2"%string, JNull);
                        ("b"%string, JBool true); ("01"%string, JNull)]
  = ["2"%string; "10"%string; "b"%string; "01"%string].
Proof. reflexivity. Qed.

(** ** Lists *)

Section FilterFacts.
Context {A : Type} (f : A -> bool).

Lemma filter_is_sublist (l : list A) : sublist (List.filter f l) l.
Proof.
  induction l as [|x l IH]; simpl.
  - constructor.
  - destruct (f x); now constructor.
Qed.

Lemma filter_elem_of (l : list A) (x : A) :
  x ∈ List.filter f l <-> x ∈ l /\ f x = true.
Proof. rewrite !list_elem_of_In. apply filter_In. Qed.

Lemma filter_greatest (l k : list A) :
  sublist k l -> forallb f k = true -> sublist k (List.filter f l).
Proof.
  intros Hsub. induction Hsub as [|x k l _ IH|x k l _ IH]; simpl; intros Hall.
  - constructor.
  - apply andb_true_iff in Hall as [Hx Hk]. rewrite Hx.
    constructor. auto.
  - destruct (f x); [constructor|]; auto.
Qed.
End FilterFacts.

Lemma findIndex_none {A} (f : A -> bool) (l : list A) :
  Cart.findIndex f l = -1 <-> forallb (fun x => negb (f x)) l = true.
Proof.
  assert (Hnn : forall k, 0 <= Cart.findIndex f k \/ Cart.findIndex f k = -1).
  { induction k as [|x k IH]; simpl; [now right|].
    destruct (f x); [left; lia|].
    destruct (Z.eqb_spec (Cart.findIndex f k) (-1)); [now right | left; lia]. }
  induction l as [|x l IH]; simpl; [tauto|].
  destruct (f x); simpl.
  - split; [lia | discriminate].
  - destruct (Z.eqb_spec (Cart.findIndex f l) (-1)) as [E|E].
    + tauto.
    + rewrite <- IH. specialize (Hnn l). split; intros; lia.
Qed.

(** ** Strings *)


Lemma append_empty_r (s : string) : s +:+ EmptyString = s.
Proof. induction s; simpl; congruence. Qed.

Lemma append_assoc (a b c : string) : (a +:+ b) +:+ c = a +:+ b +:+ c.
Proof. induction a; simpl; congruence. Qed.

Lemma length_append (a b : string) :
  String.length (a +:+ b) = (String.length a + String.length b)%nat.
Proof. induction a; simpl; congruence. Qed.

Lemma startsWith_spec (s p : string) :
  startsWith s p = true <-> exists b, s = p +:+ b.
Proof.
  revert s. induction p as [|a p IH]; intros s; simpl.
  - split; [intros _; now exists s | reflexivity].
  - destruct s as [|c s].
    + split; [discriminate | intros [b Hb]; discriminate].
    + rewrite andb_true_iff, Ascii.eqb_eq, IH. split.
      * intros [-> [b ->]]. now exists b.
      * intros [b Hb]. injection Hb as -> ->. split; [reflexivity | now exists b].
Qed.

Lemma includes_spec (s q : string) :
  includes s q = true <-> Spec.occurs q s.
Proof.
  unfold Spec.occurs. induction s as [|c s IH].
  - cbn [includes]. rewrite orb_false_r, startsWith_spec. split.
    + intros [b Hb]. now exists EmptyString, b.
    + intros (a & b & H). destruct a; [now exists b | discriminate].
  - cbn [includes]. rewrite orb_true_iff, startsWith_spec, IH. split.
    + intros [[b Hb] | (a & b & ->)].
      * now exists EmptyString, b.
      * now exists (String c a), b.
    + intros (a & b & H). destruct a as [|c' a].
      * left. now exists b.
      * right. injection H as -> ->. now exists a, b.
Qed.








(** ** Decimal numerals *)

Lemma digit_char_val (d : N) : (d < 10)%N -> digit_val (digit_char d) = d.
Proof.
  intros H. unfold digit_val, digit_char, code.
  rewrite N_ascii_embedding; lia.
Qed.

Lemma digit_char_is_digit (d : N) : (d < 10)%N -> is_digit (digit_char d) = true.
Proof.
  intros H. unfold is_digit, digit_char, code.
  rewrite N_ascii_embedding by lia.
  apply andb_true_iff. split; apply N.leb_le; lia.
Qed.

Lemma digits_aux_acc (f : nat) (n : N) (acc : string) :
  digits_aux f n acc = digits_aux f n EmptyString +:+ acc.
Proof.
  revert n acc. induction f as [|f IH]; intros n acc; simpl; [reflexivity|].
  destruct (n <? 10)%N; [reflexivity|].
  rewrite IH, (IH _ (String _ EmptyString)), append_assoc. reflexivity.
Qed.

Lemma pow2_positive_fuel (f : nat) (n : N) :
  (1 <= n)%N -> (n < 2 ^ N.of_nat f)%N -> (0 < f)%nat.
Proof.
  intros H1 H2. destruct f; [|lia].
  change (2 ^ N.of_nat 0)%N with 1%N in H2. lia.
Qed.

Lemma div10_lt_pow2 (k : nat) (n : N) :
  (n < 2 ^ N.of_nat (S k))%N -> (n / 10 < 2 ^ N.of_nat k)%N.
Proof.
  intros Hk. rewrite Nat2N.inj_succ, N.pow_succ_r' in Hk.
  apply N.Div0.div_lt_upper_bound. lia.
Qed.

Lemma digits_aux_fuel (f g : nat) (n : N) (acc : string) :
  (0 < f)%nat -> (0 < g)%nat ->
  (n < 2 ^ N.of_nat f)%N -> (n < 2 ^ N.of_nat g)%N ->
  digits_aux f n acc = digits_aux g n acc.
Proof.
  revert g n acc. induction f as [|f IH]; intros g n acc Hf0 Hg0 Hf Hg; [lia|].
  destruct g as [|g]; [lia|].
  simpl. destruct (N.ltb_spec n 10); [reflexivity|].
  assert (1 <= n / 10)%N by (apply N.div_le_lower_bound; lia).
  apply div10_lt_pow2 in Hf, Hg.
  apply IH; try assumption; eapply pow2_positive_fuel; eassumption.
Qed.

Lemma digits_fuel_enough (n : N) : (n < 2 ^ N.of_nat (S (N.to_nat (N.log2 n))))%N.
Proof.
  rewrite Nat2N.inj_succ, N2Nat.id.
  destruct (N.eq_dec n 0%N) as [->|Hn]; [reflexivity|].
  apply N.log2_spec. lia.
Qed.

Lemma digits_small (n : N) :
  (n < 10)%N -> digits n = String (digit_char n) EmptyString.
Proof.
  intros H. unfold digits. simpl.
  rewrite N.mod_small by assumption.
  now apply N.ltb_lt in H as ->.
Qed.

Lemma digits_step (n : N) :
  (10 <= n)%N ->
  digits n = digits (n / 10) +:+ String (digit_char (n mod 10)) EmptyString.
Proof.
  intros H. unfold digits at 1. simpl.
  destruct (N.ltb_spec n 10); [lia|].
  rewrite digits_aux_acc. f_equal. unfold digits.
  pose proof (div10_lt_pow2 _ _ (digits_fuel_enough n)) as Hn.
  assert (1 <= n / 10)%N by (apply N.div_le_lower_bound; lia).
  apply digits_aux_fuel; try assumption.
  - eapply pow2_positive_fuel; eassumption.
  - lia.
  - apply digits_fuel_enough.
Qed.

Lemma digits_ind (P : N -> Prop) :
  (forall n, (n < 10)%N -> P n) ->
  (forall n, (10 <= n)%N -> P (n / 10)%N -> P n) ->
  forall n, P n.
Proof.
  intros Hsmall Hstep n.
  induction n as [n IH] using (well_founded_induction N.lt_wf_0).
  destruct (N.ltb_spec n 10); [now apply Hsmall|].
  apply Hstep; [assumption|]. apply IH.
  apply N.div_lt; lia.
Qed.

Lemma all_digits_app (a b : string) :
  all_digits (a +:+ b) = all_digits a && all_digits b.
Proof. induction a as [|c a IH]; simpl; [reflexivity|]. now rewrite IH, andb_assoc. Qed.

Lemma digits_all_digits (n : N) : all_digits (digits n) = true.
Proof.
  induction n as [n H|n H IH] using digits_ind.
  - rewrite digits_small by assumption. simpl.
    now rewrite digit_char_is_digit.
  - rewrite digits_step, all_digits_app, IH by assumption. simpl.
    rewrite digit_char_is_digit; [reflexivity|].
    apply N.mod_lt. lia.
Qed.

Lemma digits_value_app (acc : N) (a b : string) :
  digits_value acc (a +:+ b) = digits_value (digits_value acc a) b.
Proof. revert acc. induction a as [|c a IH]; intros acc; simpl; [reflexivity|]. apply IH. Qed.

Lemma digits_value_digits (n : N) : digits_value 0 (digits n) = n.
Proof.
  induction n as [n H|n H IH] using digits_ind.
  - rewrite digits_small by assumption. simpl. now rewrite digit_char_val.
  - rewrite digits_step, digits_value_app, IH by assumption. simpl.
    rewrite digit_char_val by (apply N.mod_lt; lia).
    pose proof (N.div_mod n 10). lia.
Qed.

(** No superfluous leading zero. *)
Lemma digits_head (n : N) :
  exists c r, digits n = String c r
              /\ is_digit c = true
              /\ (c = "0"%char -> n = 0%N /\ r = EmptyString).
Proof.
  induction n as [n H|n H IH] using digits_ind.
  - rewrite digits_small by assumption.
    exists (digit_char n), EmptyString.
    split; [reflexivity|]. split; [now apply digit_char_is_digit|].
    intros Hc. split; [|reflexivity].
    apply (f_equal digit_val) in Hc. rewrite digit_char_val in Hc by assumption.
    exact Hc.
  - destruct IH as (c & r & Hd & Hc & Hz).
    rewrite digits_step, Hd by assumption.
    eexists c, _. split; [reflexivity|]. split; [assumption|].
    intros Hc0. destruct (Hz Hc0) as [Hn _].
    assert (n / 10 <> 0)%N; [|contradiction].
    intros Hdiv. apply N.div_small_iff in Hdiv; lia.
Qed.

Lemma span_digits_app (ds rest : string) :
  all_digits ds = true ->
  match rest with String c _ => is_digit c = false | EmptyString => True end ->
  span_digits (ds +:+ rest) = (ds, rest).
Proof.
  intros Hds Hrest. induction ds as [|c ds IH]; simpl in *.
  - destruct rest as [|c r]; [reflexivity|]. simpl. now rewrite Hrest.
  - apply andb_true_iff in Hds as [Hc Hds]. now rewrite Hc, IH.
Qed.

Lemma digits_value_zeros (k : nat) (s : string) :
  digits_value 0 (zeros k +:+ s) = digits_value 0 s.
Proof. induction k as [|k IH]; simpl; [reflexivity | exact IH]. Qed.

Lemma all_digits_zeros (k : nat) : all_digits (zeros k) = true.
Proof. induction k; simpl; auto. Qed.

Lemma length_zeros (k : nat) : String.length (zeros k) = k.
Proof. induction k; simpl; auto. Qed.

Lemma str_take_drop (k : nat) (s : string) : str_take k s +:+ str_drop k s = s.
Proof.
  revert s. induction k as [|k IH]; intros s; [now destruct s|].
  destruct s as [|c s]; simpl; [reflexivity|]. now rewrite IH.
Qed.

Lemma length_str_drop (k : nat) (s : string) :
  String.length (str_drop k s) = (String.length s - k)%nat.
Proof.
  revert s. induction k as [|k IH]; intros s; simpl; [lia|].
  destruct s as [|c s]; simpl; [reflexivity | apply IH].
Qed.
(** ** Numbers: reading back what was printed *)

Lemma digit_not_special (c : ascii) :
  is_digit c = true ->
  Ascii.eqb c "-" = false /\ Ascii.eqb c "+" = false /\ Ascii.eqb c "." = false
  /\ is_exp_char c = false /\ is_json_ws c = false
  /\ Ascii.eqb c dquote = false /\ Ascii.eqb c "[" = false /\ Ascii.eqb c "{" = false
  /\ Ascii.eqb "t" c = false /\ Ascii.eqb "f" c = false /\ Ascii.eqb "n" c = false.
Proof.
  destruct c as [[] [] [] [] [] [] [] []]; intros H; try discriminate H;
    repeat split; reflexivity.
Qed.

Lemma next_is_same (c : ascii) (s : string) : next_is c (String c s) = Some s.
Proof. simpl. now rewrite Ascii.eqb_refl. Qed.

Lemma ends_number_spec (rest : string) :
  ends_number rest = true ->
  match rest with String c _ => is_digit c = false | EmptyString => True end
  /\ next_is "." rest = None
  /\ match rest with String c _ => is_exp_char c = false | EmptyString => True end.
Proof.
  destruct rest as [|c r]; simpl; [auto|].
  rewrite negb_true_iff, !orb_false_iff. intros [[H1 H2] H3].
  rewrite H2. auto.
Qed.

Lemma normalize_canonical (m : Z) (k : nat) :
  (k = 0%nat \/ m mod 10 <> 0) -> normalize m k = Dec m k.
Proof.
  destruct k as [|k]; [reflexivity|]. intros [H|H]; [discriminate|].
  simpl. now apply Z.eqb_neq in H as ->.
Qed.

Lemma normalize_is_canonical (m : Z) (k : nat) : canonical (normalize m k) = true.
Proof.
  revert m. induction k as [|k IH]; intros m; [reflexivity|].
  cbn [normalize]. destruct (Z.eqb_spec (m mod 10) 0) as [E|E]; [apply IH|].
  unfold canonical. cbn [fdigits mant]. now apply Z.eqb_neq in E as ->.
Qed.

Lemma all_digits_take_drop (k : nat) (s : string) :
  all_digits s = true ->
  all_digits (str_take k s) = true /\ all_digits (str_drop k s) = true.
Proof.
  intros H. rewrite <- (str_take_drop k s), all_digits_app in H.
  now apply andb_true_iff in H.
Qed.

Lemma signed_nonzero (neg : bool) (n : N) :
  (if neg then - Z.of_N n else Z.of_N n) mod 10 <> 0 -> n <> 0%N.
Proof. intros H ->. destruct neg; apply H; reflexivity. Qed.

Lemma parse_unsigned_positional (neg : bool) (n : N) (k : nat) (rest : string) :
  (k = 0%nat \/ (if neg then - Z.of_N n else Z.of_N n) mod 10 <> 0) ->
  ends_number rest = true ->
  parse_unsigned neg (print_positional (digits n) k +:+ rest)
  = Some (Dec (if neg then - Z.of_N n else Z.of_N n) k, rest).
Proof.
  intros Hcan Hrest.
  destruct (ends_number_spec rest Hrest) as (Hdig & Hdot & Hexp).
  pose proof (digits_all_digits n) as Hall.
  pose proof (digits_value_digits n) as Hval.
  destruct (digits_head n) as (c & r & Hds & Hc & Hzero).
  assert (Htail : forall ip fp,
             digits_value 0 (ip +:+ fp) = n -> String.length fp = k ->
             match rest with
             | String c _ =>
                 if is_exp_char c then
                   match parse_exponent rest with
                   | Some (e, s4) => Some (decimal_of_parts neg ip fp e, s4)
                   | None => None
                   end
                 else Some (decimal_of_parts neg ip fp 0, rest)
             | EmptyString => Some (decimal_of_parts neg ip fp 0, rest)
             end = Some (Dec (if neg then - Z.of_N n else Z.of_N n) k, rest)).
  { intros ip fp Hv Hlen.
    assert (Hd : decimal_of_parts neg ip fp 0
                 = Dec (if neg then - Z.of_N n else Z.of_N n) k).
    { unfold decimal_of_parts. rewrite Hv, Hlen.
      destruct k as [|k].
      - cbn. f_equal. lia.
      - destruct (Z.leb_spec 0 (0 - Z.of_nat (S k))); [lia|].
        replace (Z.to_nat (- (0 - Z.of_nat (S k)))) with (S k) by lia.
        now apply normalize_canonical. }
    rewrite Hd. destruct rest as [|c' r']; [reflexivity|]. now rewrite Hexp. }
  unfold print_positional, parse_unsigned. destruct k as [|k].
  - (* an integer *)
    rewrite (span_digits_app _ _ Hall Hdig), Hds.
    assert (Hlead : Ascii.eqb c "0" && JsString.truthy r = false).
    { destruct (Ascii.eqb_spec c "0") as [E|E]; [|reflexivity].
      destruct (Hzero E) as [_ ->]. reflexivity. }
    rewrite Hlead, Hdot, <- Hds.
    apply Htail; [now rewrite append_empty_r | reflexivity].
  - destruct Hcan as [Hk|Hcan]; [discriminate|].
    pose proof (signed_nonzero _ _ Hcan) as Hn.
    assert (Hc0 : Ascii.eqb c "0" = false).
    { destruct (Ascii.eqb_spec c "0") as [E|E]; [|reflexivity].
      destruct (Hzero E) as [E' _]. contradiction. }
    set (len := String.length (digits n)).
    destruct (Nat.ltb_spec (S k) len) as [Hlt|Hge].
    + (* digits on both sides of the point *)
      destruct (all_digits_take_drop (len - S k) _ Hall) as [Hip Hfp].
      rewrite append_assoc.
      rewrite (span_digits_app _ _ Hip) by reflexivity.
      assert (Hipc : exists ip', str_take (len - S k) (digits n) = String c ip').
      { rewrite Hds. destruct (len - S k)%nat eqn:E; [lia|]. simpl. eauto. }
      destruct Hipc as (ip' & Hipc). rewrite Hipc, Hc0. cbn [andb append].
      rewrite next_is_same.
      rewrite (span_digits_app _ _ Hfp Hdig).
      assert (Hlen : String.length (str_drop (len - S k) (digits n)) = S k).
      { rewrite length_str_drop. fold len. lia. }
      destruct (str_drop (len - S k) (digits n)) as [|f0 fp] eqn:Efp; [discriminate|].
      rewrite <- Efp, <- Hipc. apply Htail; [|rewrite Efp; exact Hlen].
      now rewrite str_take_drop.
    + (* a value below one *)
      replace (("0." +:+ zeros (S k - len) +:+ digits n) +:+ rest)
        with ("0" +:+ String "." ((zeros (S k - len) +:+ digits n) +:+ rest))
        by (cbn [append]; now rewrite append_assoc).
      rewrite (span_digits_app "0") by reflexivity.
      change (Ascii.eqb "0" "0" && JsString.truthy EmptyString) with false.
      cbv iota. rewrite next_is_same.
      rewrite (span_digits_app (zeros (S k - len) +:+ digits n) rest); [| |exact Hdig].
      2: { now rewrite all_digits_app, all_digits_zeros, Hall. }
      assert (Hlen : String.length (zeros (S k - len) +:+ digits n) = S k).
      { rewrite length_append, length_zeros. fold len. lia. }
      destruct (zeros (S k - len) +:+ digits n) as [|f0 fp] eqn:Efp; [discriminate|].
      rewrite <- Efp. apply (Htail "0"%string); [|rewrite Efp; exact Hlen].
      change ("0" +:+ zeros (S k - len) +:+ digits n)%string
        with (zeros (S (S k - len)) +:+ digits n).
      now rewrite digits_value_zeros.
Qed.

Lemma digits_value_zeros_end (acc : N) (z : nat) :
  digits_value acc (zeros z) = (acc * 10 ^ N.of_nat z)%N.
Proof.
  revert acc. induction z as [|z IH]; intros acc.
  - cbn. lia.
  - cbn [zeros digits_value]. rewrite IH. change (digit_val "0") with 0%N.
    rewrite Nat2N.inj_succ, N.pow_succ_r'. lia.
Qed.

(** The digits are the stripped digits followed by zeros. *)
Lemma strip_zeros_end_zeros (s : string) :
  exists z, s = strip_zeros_end s +:+ zeros z.
Proof.
  induction s as [|c s (z & Hs)]; [now exists 0%nat|].
  cbn [strip_zeros_end]. destruct (strip_zeros_end s) as [|c' t] eqn:E.
  - destruct (Ascii.eqb_spec c "0") as [->|Hc].
    + exists (S z). cbn. now rewrite Hs at 1.
    + exists z. cbn. now rewrite Hs at 1.
  - exists z. cbn. now rewrite Hs at 1.
Qed.

Lemma strip_zeros_end_head (c : ascii) (r : string) :
  Ascii.eqb c "0" = false ->
  exists t, strip_zeros_end (String c r) = String c t.
Proof.
  intros Hc. cbn [strip_zeros_end].
  destruct (strip_zeros_end r); [rewrite Hc|]; eauto.
Qed.

Lemma all_digits_strip (s : string) :
  all_digits s = true -> all_digits (strip_zeros_end s) = true.
Proof.
  intros H. destruct (strip_zeros_end_zeros s) as [z Hz].
  rewrite Hz, all_digits_app in H. now apply andb_true_iff in H.
Qed.

(** Digits whose value is not a multiple of ten have no trailing zero. *)
Lemma strip_zeros_end_id (s : string) :
  (digits_value 0 s mod 10 <> 0)%N -> strip_zeros_end s = s.
Proof.
  intros H. destruct (strip_zeros_end_zeros s) as [[|z] Hz].
  - cbn in Hz. now rewrite append_empty_r in Hz.
  - exfalso. apply H. rewrite Hz, digits_value_app, digits_value_zeros_end.
    rewrite Nat2N.inj_succ, N.pow_succ_r'.
    replace (digits_value 0 (strip_zeros_end s) * (10 * 10 ^ N.of_nat z))%N
      with (digits_value 0 (strip_zeros_end s) * 10 ^ N.of_nat z * 10)%N by lia.
    apply N.Div0.mod_mul.
Qed.

Lemma parse_exponent_print (e : Z) (rest : string) :
  match rest with String c _ => is_digit c = false | EmptyString => True end ->
  parse_exponent
    (String "e" (String (exponent_sign e) (digits (Z.abs_N e))) +:+ rest)
  = Some (e, rest).
Proof.
  intros Hrest. cbn [append]. unfold parse_exponent.
  change (is_exp_char "e") with true. cbv iota.
  assert (Hsign : take_sign (String (exponent_sign e)
                                    (digits (Z.abs_N e) +:+ rest))
                  = (e <? 0, digits (Z.abs_N e) +:+ rest)).
  { unfold exponent_sign. now destruct (e <? 0). }
  rewrite Hsign, (span_digits_app _ _ (digits_all_digits _) Hrest).
  rewrite digits_value_digits.
  destruct (digits_head (Z.abs_N e)) as (c & r & -> & _).
  f_equal. f_equal. destruct (Z.ltb_spec e 0); lia.
Qed.

Lemma parse_unsigned_exponent (neg : bool) (n : N) (k : nat) (rest : string) :
  n <> 0%N ->
  (k = 0%nat \/ (if neg then - Z.of_N n else Z.of_N n) mod 10 <> 0) ->
  ends_number rest = true ->
  parse_unsigned neg
    (print_exponent (digits n) (Z.of_nat (String.length (digits n)) - Z.of_nat k) +:+ rest)
  = Some (Dec (if neg then - Z.of_N n else Z.of_N n) k, rest).
Proof.
  intros Hn Hcan Hrest.
  destruct (ends_number_spec rest Hrest) as (Hdig & _ & _).
  pose proof (digits_all_digits n) as Hall.
  pose proof (digits_value_digits n) as Hval.
  destruct (digits_head n) as (c & r & Hds & Hc & Hzero).
  assert (Hc0 : Ascii.eqb c "0" = false).
  { destruct (Ascii.eqb_spec c "0") as [E|E]; [|reflexivity].
    destruct (Hzero E) as [E' _]. contradiction. }
  destruct (strip_zeros_end_zeros (digits n)) as [z Hz].
  pose proof (all_digits_strip _ Hall) as Hsd.
  assert (Hlen : String.length (digits n)
                 = (String.length (strip_zeros_end (digits n)) + z)%nat).
  { rewrite Hz at 1. now rewrite length_append, length_zeros. }
  assert (Hvalue : n = (digits_value 0 (strip_zeros_end (digits n)) * 10 ^ N.of_nat z)%N).
  { rewrite <- Hval at 1. rewrite Hz at 1.
    now rewrite digits_value_app, digits_value_zeros_end. }
  assert (Hz0 : k <> 0%nat -> z = 0%nat).
  { intros Hk. destruct Hcan as [Hk0|Hcan]; [contradiction|].
    destruct z as [|z]; [reflexivity|]. exfalso. apply Hcan.
    rewrite Hvalue, Nat2N.inj_succ, N.pow_succ_r'.
    set (q := (digits_value 0 (strip_zeros_end (digits n)) * 10 ^ N.of_nat z)%N).
    replace (digits_value 0 (strip_zeros_end (digits n)) * (10 * 10 ^ N.of_nat z))%N
      with (q * 10)%N by (unfold q; lia).
    destruct neg; rewrite N2Z.inj_mul.
    - rewrite <- Z.mul_opp_l. apply Z.mod_mul. lia.
    - apply Z.mod_mul. lia. }
  unfold print_exponent.
  set (pos := Z.of_nat (String.length (digits n)) - Z.of_nat k) in *.
  destruct (strip_zeros_end_head c r Hc0) as [t Ht]. rewrite <- Hds in Ht.
  rewrite Ht in *. cbn [String.length] in Hlen.
  apply andb_true_iff in Hsd as [_ Ht_digits].
  assert (Hresult : forall fp,
             digits_value 0 (String c EmptyString +:+ fp) = digits_value 0 (String c t) ->
             String.length fp = String.length t ->
             decimal_of_parts neg (String c EmptyString) fp (pos - 1)
             = Dec (if neg then - Z.of_N n else Z.of_N n) k).
  { intros fp Hv Hl. unfold decimal_of_parts. rewrite Hv, Hl.
    destruct k as [|k].
    - assert (Hsh : pos - 1 - Z.of_nat (String.length t) = Z.of_nat z) by lia.
      rewrite Hsh. destruct (Z.leb_spec 0 (Z.of_nat z)); [|lia]. f_equal.
      rewrite Hvalue, N2Z.inj_mul, N2Z.inj_pow, nat_N_Z.
      change (Z.of_N 10) with 10. destruct neg; lia.
    - rewrite (Hz0 ltac:(discriminate)) in *.
      assert (Hsh : pos - 1 - Z.of_nat (String.length t) = - Z.of_nat (S k)) by lia.
      rewrite Hsh. destruct (Z.leb_spec 0 (- Z.of_nat (S k))); [lia|].
      replace (Z.to_nat (- - Z.of_nat (S k))) with (S k) by lia.
      replace (digits_value 0 (String c t)) with n
        by (rewrite Hvalue; cbn [N.of_nat]; rewrite N.pow_0_r; lia).
      apply normalize_canonical. destruct Hcan; [discriminate | now right]. }
  assert (Hone : forall tl,
             match tl with String c' _ => is_digit c' = false | EmptyString => True end ->
             span_digits (String c tl) = (String c EmptyString, tl)).
  { intros tl Htl.
    pose proof (span_digits_app (String c EmptyString) tl) as Hsp.
    cbn [append all_digits] in Hsp. apply Hsp; [now rewrite Hc | exact Htl]. }
  unfold parse_unsigned.
  destruct t as [|t0 t'].
  - (* a single digit *)
    cbn [append]. rewrite Hone by reflexivity.
    rewrite Hc0. cbn [andb next_is].
    change (Ascii.eqb "e" ".") with false. cbv iota.
    change (is_exp_char "e") with true. cbv iota.
    change (String "e" (String (exponent_sign (pos - 1))
                          (digits (Z.abs_N (pos - 1)) +:+ rest)))
      with (String "e" (String (exponent_sign (pos - 1))
                          (digits (Z.abs_N (pos - 1)))) +:+ rest).
    rewrite (parse_exponent_print _ _ Hdig). now rewrite Hresult.
  - (* several digits *)
    cbn [append]. rewrite Hone by reflexivity.
    rewrite Hc0. cbn [andb]. rewrite next_is_same.
    set (E := String "e" (String (exponent_sign (pos - 1)) (digits (Z.abs_N (pos - 1))))).
    replace (String t0 ((t' +:+ E) +:+ rest)) with (String t0 t' +:+ (E +:+ rest))
      by (cbn [append]; now rewrite append_assoc).
    rewrite (span_digits_app (String t0 t')); [| exact Ht_digits | reflexivity].
    unfold E at 1. cbn [append]. change (is_exp_char "e") with true. cbv iota.
    fold E. change (String "e" (String (exponent_sign (pos - 1)) (digits (Z.abs_N (pos - 1)) +:+ rest)))
      with (E +:+ rest).
    unfold E. rewrite (parse_exponent_print _ _ Hdig). now rewrite Hresult.
Qed.


Lemma parse_unsigned_print (neg : bool) (n : N) (k : nat) (rest : string) :
  (k = 0%nat \/ (if neg then - Z.of_N n else Z.of_N n) mod 10 <> 0) ->
  ends_number rest = true ->
  parse_unsigned neg (print_unsigned n k +:+ rest)
  = Some (Dec (if neg then - Z.of_N n else Z.of_N n) k, rest).
Proof.
  intros Hcan Hrest. unfold print_unsigned.
  destruct (_ || _) eqn:Hexp; [|now apply parse_unsigned_positional].
  apply parse_unsigned_exponent; try assumption.
  intros ->. rewrite digits_small in Hexp by reflexivity. cbn [String.length] in Hexp.
  destruct Hcan as [-> | Hcan]; [discriminate Hexp|].
  apply Hcan. now destruct neg.
Qed.

Lemma print_unsigned_head (n : N) (k : nat) :
  exists c r, print_unsigned n k = String c r /\ is_digit c = true.
Proof.
  destruct (digits_head n) as (c & r & Hds & Hc & _).
  unfold print_unsigned. destruct (_ || _).
  - unfold print_exponent.
    pose proof (all_digits_strip _ (digits_all_digits n)) as Hsd.
    destruct (strip_zeros_end (digits n)) as [|c' t]; [now eexists _, _|].
    apply andb_true_iff in Hsd as [Hc' _]. cbn [append]. eauto.
  - unfold print_positional. destruct k as [|k]; [eauto|].
    destruct (Nat.ltb_spec (S k) (String.length (digits n))) as [Hlt|Hge].
    + rewrite Hds in *. cbn [String.length] in *.
      destruct (S (String.length r) - S k)%nat eqn:E; [lia|]. simpl. eauto.
    + eexists "0"%char, _. split; reflexivity.
Qed.

Lemma canonical_spec (d : decimal) :
  canonical d = true <-> fdigits d = 0%nat \/ mant d mod 10 <> 0.
Proof.
  unfold canonical. destruct (fdigits d); [intuition|].
  rewrite negb_true_iff, Z.eqb_neq. intuition discriminate.
Qed.

Lemma parse_number_print (d : decimal) (rest : string) :
  canonical d = true ->
  ends_number rest = true ->
  parse_number (print_decimal d +:+ rest) = Some (d, rest).
Proof.
  intros Hcan Hrest. apply canonical_spec in Hcan.
  unfold print_decimal. rewrite (normalize_canonical _ _ Hcan).
  unfold print_canonical, parse_number. destruct d as [m k]; cbn [mant fdigits] in *.
  destruct (Z.ltb_spec m 0) as [Hneg|Hpos].
  - assert (Hm : - Z.of_N (Z.abs_N m) = m) by lia.
    cbn [append]. rewrite next_is_same.
    rewrite parse_unsigned_print; [now rewrite Hm | now rewrite Hm | exact Hrest].
  - assert (Hm : Z.of_N (Z.abs_N m) = m) by lia.
    assert (Hnext : next_is "-" (print_unsigned (Z.abs_N m) k +:+ rest) = None).
    { destruct (print_unsigned_head (Z.abs_N m) k) as (c & r & -> & Hc).
      cbn [append next_is]. now destruct (digit_not_special c Hc) as (-> & _). }
    rewrite Hnext, parse_unsigned_print; [now rewrite Hm | now rewrite Hm | exact Hrest].
Qed.
(** [parseFloat] reads what [JSON.parse] reads as a number. *)
Lemma parseFloat_parse_number (s r : string) (d : decimal) :
  parse_number s = Some (d, r) -> parseFloat s = Num d.
Proof.
  assert (Hcore : forall neg s1,
             parse_unsigned neg s1 = Some (d, r) ->
             (let (ip, s2) := span_digits s1 in
              let '(fp, s3) :=
                match next_is "." s2 with
                | Some r => span_digits r
                | None => (EmptyString, s2)
                end in
              match ip, fp with
              | EmptyString, EmptyString => NaN
              | _, _ =>
                  let e := match parse_exponent s3 with
                           | Some (e, _) => e
                           | None => 0
                           end in
                  Num (decimal_of_parts neg ip fp e)
              end) = Num d).
  { intros neg s1. unfold parse_unsigned.
    destruct (span_digits s1) as [ip s2].
    destruct ip as [|d0 ip']; [discriminate|].
    destruct (_ && _); [discriminate|].
    destruct (next_is "." s2) as [r0|].
    - destruct (span_digits r0) as [fp s3].
      destruct fp as [|f0 fp']; [discriminate|].
      destruct s3 as [|c s3']; [now intros [= <- _]|].
      destruct (is_exp_char c) eqn:Ec.
      + destruct (parse_exponent (String c s3')) as [[e s4]|]; [|discriminate].
        now intros [= <- _].
      + unfold parse_exponent. rewrite Ec. now intros [= <- _].
    - destruct s2 as [|c s2']; [now intros [= <- _]|].
      destruct (is_exp_char c) eqn:Ec.
      + destruct (parse_exponent (String c s2')) as [[e s4]|]; [|discriminate].
        now intros [= <- _].
      + unfold parse_exponent. rewrite Ec. now intros [= <- _]. }
  assert (Hstart : forall neg s1,
             parse_unsigned neg s1 = Some (d, r) ->
             exists c t, s1 = String c t /\ is_digit c = true).
  { intros neg s1. unfold parse_unsigned.
    destruct s1 as [|c t]; [discriminate|]. cbn [span_digits].
    destruct (is_digit c) eqn:Hc; [intros _; now exists c, t | discriminate]. }
  unfold parse_number, parseFloat. intros H.
  destruct (next_is "-" s) as [s1|] eqn:Es.
  - destruct s as [|c0 s0]; [discriminate|]. cbn [next_is] in Es.
    destruct (Ascii.eqb_spec c0 "-") as [->|]; [|discriminate]. injection Es as ->.
    change (trimStart (String "-" s1)) with (String "-" s1).
    change (take_sign (String "-" s1)) with (true, s1).
    destruct (Hstart _ _ H) as (c & t & -> & Hc).
    destruct (digit_not_special c Hc) as (_ & _ & _ & _ & _ & _ & _ & _ & _ & _ & _).
    assert (HI : startsWith (String c t) "Infinity" = false).
    { cbn [startsWith]. destruct (Ascii.eqb_spec "I" c) as [<-|]; [discriminate Hc | reflexivity]. }
    rewrite HI. exact (Hcore _ _ H).
  - destruct (Hstart _ _ H) as (c & t & -> & Hc).
    destruct (digit_not_special c Hc) as (Hm & Hp & _).
    assert (Hws : is_ws c = false).
    { clear -Hc. destruct c as [[] [] [] [] [] [] [] []]; try discriminate Hc; reflexivity. }
    cbn [trimStart]. rewrite Hws. unfold take_sign. cbn [next_is]. rewrite Hm, Hp.
    assert (HI : startsWith (String c t) "Infinity" = false).
    { cbn [startsWith]. destruct (Ascii.eqb_spec "I" c) as [<-|]; [discriminate Hc | reflexivity]. }
    rewrite HI. exact (Hcore _ _ H).
Qed.

(** [parseFloat] reads the text of a number as that number. *)
Lemma parseFloat_print_decimal (d : decimal) :
  parseFloat (print_decimal d) = Num (normalize (mant d) (fdigits d)).
Proof.
  apply (parseFloat_parse_number _ EmptyString).
  pose proof (parse_number_print (normalize (mant d) (fdigits d)) EmptyString
                (normalize_is_canonical _ _) eq_refl) as H.
  rewrite append_empty_r in H. rewrite <- H. f_equal.
  unfold print_decimal.
  now rewrite (normalize_canonical _ _
                 (proj1 (canonical_spec _) (normalize_is_canonical (mant d) (fdigits d)))).
Qed.

(** ** JSON: reading back what was written *)

Lemma parse_escape_char (c : ascii) (tl : string) :
  parse_string_body (escape_char c +:+ tl)
  = match parse_string_body tl with
    | Some (t, rest) => Some (String c t, rest)
    | None => None
    end.
Proof.
  destruct c as [[] [] [] [] [] [] [] []]; reflexivity.
Qed.

Lemma parse_string_escape (s rest : string) :
  parse_string_body (escape s +:+ String dquote rest) = Some (s, rest).
Proof.
  induction s as [|c s IH]; [reflexivity|].
  cbn [escape]. now rewrite append_assoc, parse_escape_char, IH.
Qed.

Lemma quote_append (s rest : string) :
  quote s +:+ rest = String dquote (escape s +:+ String dquote rest).
Proof. unfold quote. cbn [append]. now rewrite append_assoc. Qed.

Lemma value_start_spec (c : ascii) :
  value_start c = true ->
  is_json_ws c = false /\ Ascii.eqb c "]" = false /\ Ascii.eqb c "}" = false.
Proof.
  destruct c as [[] [] [] [] [] [] [] []]; intros H; try discriminate H;
    repeat split; reflexivity.
Qed.

Lemma print_decimal_head (d : decimal) :
  exists c r, print_decimal d = String c r
              /\ (is_digit c = true \/ c = "-"%char).
Proof.
  unfold print_decimal. generalize (normalize (mant d) (fdigits d)). clear d. intros d.
  unfold print_canonical. destruct (mant d <? 0); [eauto|].
  destruct (print_unsigned_head (Z.abs_N (mant d)) (fdigits d)) as (c & r & -> & Hc).
  eauto.
Qed.

Lemma stringify_head (v : json) :
  exists c r, stringify v = String c r /\ value_start c = true.
Proof.
  destruct v as [|[]|d|s|[|x xs]|[|[k x] ms]]; try (eexists _, _; split; reflexivity).
  destruct (print_decimal_head d) as (c & r & Hd & [Hc | ->]).
  - exists c, r. split; [exact Hd|]. unfold value_start. rewrite Hc.
    now rewrite !orb_true_r.
  - eexists _, _. split; [exact Hd | reflexivity].
Qed.

Lemma skip_ws_start (c : ascii) (r : string) :
  is_json_ws c = false -> skip_ws (String c r) = String c r.
Proof. intros H. simpl. now rewrite H. Qed.

Lemma skip_ws_stringify (v : json) (rest : string) :
  skip_ws (stringify v +:+ rest) = stringify v +:+ rest.
Proof.
  destruct (stringify_head v) as (c & r & -> & Hc).
  apply skip_ws_start. now apply value_start_spec.
Qed.

Lemma next_is_stringify (v : json) (rest : string) :
  next_is "]" (stringify v +:+ rest) = None
  /\ next_is "}" (stringify v +:+ rest) = None.
Proof.
  destruct (stringify_head v) as (c & r & -> & Hc).
  apply value_start_spec in Hc as (_ & H1 & H2).
  cbn [append next_is]. now rewrite H1, H2.
Qed.

Lemma json_induction (P : json -> Prop) :
  P JNull ->
  (forall b, P (JBool b)) ->
  (forall d, P (JNum d)) ->
  (forall s, P (JStr s)) ->
  (forall l, Forall P l -> P (JArr l)) ->
  (forall ms, Forall (fun kv => P (snd kv)) ms -> P (JObj ms)) ->
  forall v, P v.
Proof.
  intros Hnull Hbool Hnum Hstr Harr Hobj.
  fix IH 1. intros [|b|d|s|l|ms].
  - exact Hnull.
  - apply Hbool.
  - apply Hnum.
  - apply Hstr.
  - apply Harr. induction l as [|x l IHl]; constructor; [apply IH | exact IHl].
  - apply Hobj. induction ms as [|[k x] ms IHms]; constructor; [apply IH | exact IHms].
Qed.

Lemma ends_number_elems_tail (xs : list json) (rest : string) :
  ends_number (elems_tail stringify xs +:+ rest) = true.
Proof. destruct xs; reflexivity. Qed.

Lemma ends_number_members_tail (ms : list (string * json)) (rest : string) :
  ends_number (members_tail stringify ms +:+ rest) = true.
Proof. destruct ms as [|[k x] ms]; reflexivity. Qed.

Lemma elems_tail_cons (y : json) (ys : list json) (rest : string) :
  elems_tail stringify (y :: ys) +:+ rest
  = String "," (stringify y +:+ elems_tail stringify ys +:+ rest).
Proof.
  cbn [elems_tail]. fold (elems_tail stringify ys).
  rewrite !append_assoc. reflexivity.
Qed.

Lemma parse_elems_tail (xs : list json) :
  Forall reads_back xs ->
  well_formed (JArr xs) ->
  forall (fuel : nat) (rest : string),
    (parse_fuel (JArr xs) <= fuel)%nat ->
    parse_elems fuel (elems_tail stringify xs +:+ rest) = Some (xs, rest).
Proof.
  induction 1 as [|y ys Hy _ IH]; intros Hwf fuel rest Hfuel.
  - destruct fuel as [|f]; [simpl in Hfuel; lia|]. reflexivity.
  - destruct Hwf as [Hwfy Hwfys].
    destruct fuel as [|f]; [simpl in Hfuel; lia|].
    rewrite elems_tail_cons.
    cbn [parse_elems].
    rewrite skip_ws_start by reflexivity.
    change (next_is "]" (String "," ?s)) with (@None string).
    rewrite next_is_same.
    cbn [parse_fuel] in Hfuel.
    rewrite (Hy Hwfy); [| lia | apply ends_number_elems_tail].
    rewrite (IH Hwfys); [reflexivity|]. cbn [parse_fuel]. lia.
Qed.

Lemma parse_member_stringify (f : nat) (k : string) (x : json) (rest : string) :
  reads_back x -> well_formed x -> (parse_fuel x <= f)%nat ->
  ends_number rest = true ->
  parse_member (parse_value f) (quote k +:+ ":" +:+ stringify x +:+ rest)
  = Some ((k, x), rest).
Proof.
  intros Hx Hwf Hfuel Hrest. unfold parse_member.
  rewrite quote_append, skip_ws_start by reflexivity.
  change (Ascii.eqb dquote dquote) with true. cbv iota.
  rewrite parse_string_escape. cbn [append].
  rewrite skip_ws_start by reflexivity.
  rewrite next_is_same. now rewrite (Hx Hwf).
Qed.

Lemma members_tail_cons (k : string) (y : json) (ys : list (string * json)) (rest : string) :
  members_tail stringify ((k, y) :: ys) +:+ rest
  = String "," (quote k +:+ ":" +:+ stringify y +:+ members_tail stringify ys +:+ rest).
Proof.
  cbn [members_tail]. fold (members_tail stringify ys).
  rewrite !append_assoc. reflexivity.
Qed.

Lemma parse_members_tail (ms : list (string * json)) :
  Forall (fun kv => reads_back (snd kv)) ms ->
  (fix all (l : list (string * json)) : Prop :=
     match l with
     | [] => True
     | (_, x) :: r => well_formed x /\ all r
     end) ms ->
  forall (fuel : nat) (rest : string),
    (parse_fuel (JObj ms) <= fuel)%nat ->
    parse_members fuel (members_tail stringify ms +:+ rest) = Some (ms, rest).
Proof.
  induction 1 as [|[k y] ys Hy _ IH]; intros Hwf fuel rest Hfuel.
  - destruct fuel as [|f]; [simpl in Hfuel; lia|]. reflexivity.
  - destruct Hwf as [Hwfy Hwfys].
    destruct fuel as [|f]; [simpl in Hfuel; lia|].
    rewrite members_tail_cons.
    cbn [parse_members].
    rewrite skip_ws_start by reflexivity.
    change (next_is "}" (String "," ?s)) with (@None string).
    rewrite next_is_same.
    cbn [parse_fuel] in Hfuel. cbn [snd] in Hy.
    rewrite (parse_member_stringify f k y _ Hy Hwfy);
      [| lia | apply ends_number_members_tail].
    rewrite (IH Hwfys); [reflexivity|]. cbn [parse_fuel]. lia.
Qed.

Lemma parse_value_number (f : nat) (s : string) :
  match s with
  | String c _ => is_digit c = true \/ c = "-"%char
  | EmptyString => False
  end ->
  parse_value (S f) s
  = match parse_number s with
    | Some (d, r1) => Some (JNum d, r1)
    | None => None
    end.
Proof.
  destruct s as [|c r]; [contradiction|]. intros [Hc | ->]; [|reflexivity].
  destruct (digit_not_special c Hc) as (_ & _ & _ & _ & Hws & Hq & Hb & Hc' & Ht & Hf & Hn).
  cbn [parse_value]. rewrite skip_ws_start by exact Hws.
  rewrite Hq, Hb, Hc'. cbn [startsWith]. now rewrite Ht, Hf, Hn.
Qed.

Lemma stringify_cons_array (x : json) (xs : list json) (rest : string) :
  stringify (JArr (x :: xs)) +:+ rest
  = String "[" (stringify x +:+ elems_tail stringify xs +:+ rest).
Proof. cbn [stringify]. rewrite !append_assoc. reflexivity. Qed.

Lemma stringify_cons_object (k : string) (x : json) (ms : list (string * json)) (rest : string) :
  stringify (JObj ((k, x) :: ms)) +:+ rest
  = String "{" (quote k +:+ ":" +:+ stringify x +:+ members_tail stringify ms +:+ rest).
Proof. cbn [stringify]. rewrite !append_assoc. reflexivity. Qed.

Lemma stringify_reads_back (v : json) : reads_back v.
Proof.
  induction v as [|b|d|s|l IH|ms IH] using json_induction;
    intros Hwf fuel rest Hfuel Hrest;
    (destruct fuel as [|f]; [cbn in Hfuel; lia|]).
  - reflexivity.
  - destruct b; reflexivity.
  - rewrite parse_value_number.
    + cbn [stringify]. now rewrite parse_number_print.
    + cbn [stringify]. destruct (print_decimal_head d) as (c & r & -> & Hc). exact Hc.
  - cbn [stringify]. rewrite quote_append. cbn [parse_value].
    rewrite skip_ws_start by reflexivity.
    change (Ascii.eqb dquote dquote) with true. cbv iota.
    now rewrite parse_string_escape.
  - destruct IH as [|x xs Hx Hxs]; [reflexivity|].
    destruct Hwf as [Hwfx Hwfxs]. cbn [parse_fuel] in Hfuel.
    rewrite stringify_cons_array. cbn [parse_value].
    rewrite skip_ws_start by reflexivity.
    change (Ascii.eqb "[" dquote) with false.
    change (Ascii.eqb "[" "[") with true. cbv iota.
    rewrite skip_ws_stringify.
    destruct (next_is_stringify x (elems_tail stringify xs +:+ rest)) as [-> _].
    rewrite (Hx Hwfx); [| lia | apply ends_number_elems_tail].
    rewrite (parse_elems_tail xs Hxs Hwfxs); [reflexivity|].
    cbn [parse_fuel]. lia.
  - destruct IH as [|[k x] xs Hx Hxs]; [reflexivity|].
    destruct Hwf as [Hbuild [Hwfx Hwfxs]]. cbn [parse_fuel] in Hfuel. cbn [snd] in Hx.
    rewrite stringify_cons_object. cbn [parse_value].
    rewrite skip_ws_start by reflexivity.
    change (Ascii.eqb "{" dquote) with false.
    change (Ascii.eqb "{" "[") with false.
    change (Ascii.eqb "{" "{") with true. cbv iota.
    assert (Hnext : next_is "}" (skip_ws (quote k +:+ ":" +:+ stringify x
                                           +:+ members_tail stringify xs +:+ rest)) = None).
    { rewrite quote_append. now rewrite skip_ws_start by reflexivity. }
    rewrite Hnext.
    rewrite (parse_member_stringify f k x _ Hx Hwfx);
      [| lia | apply ends_number_members_tail].
    rewrite (parse_members_tail xs Hxs Hwfxs); [now rewrite Hbuild|].
    cbn [parse_fuel]. lia.
Qed.

Ltac length_norm :=
  repeat first [rewrite length_append | progress cbn [String.length append]].

Lemma length_quote (s : string) : (2 <= String.length (quote s))%nat.
Proof. unfold quote. cbn [String.length]. rewrite length_append. cbn. lia. Qed.

Lemma parse_fuel_length (v : json) :
  (parse_fuel v <= String.length (stringify v))%nat.
Proof.
  induction v as [|b|d|s|l IH|ms IH] using json_induction.
  - cbn. lia.
  - destruct b; cbn; lia.
  - cbn [stringify parse_fuel].
    destruct (print_decimal_head d) as (c & r & -> & _). cbn. lia.
  - cbn [stringify parse_fuel]. pose proof (length_quote s). lia.
  - destruct IH as [|x xs Hx Hxs]; [cbn; lia|].
    cbn [stringify parse_fuel String.length append].
    rewrite length_append.
    enough (S ((fix go (l : list json) : nat :=
                  match l with
                  | [] => 0
                  | x :: r => S (parse_fuel x + go r)
                  end) xs)
            <= String.length (elems_tail stringify xs))%nat by lia.
    clear Hx. induction Hxs as [|y ys Hy _ IHys]; [cbn; lia|].
    cbn [elems_tail]. fold (elems_tail stringify ys).
    cbn [String.length append]. rewrite length_append. lia.
  - destruct IH as [|[k x] xs Hx Hxs]; [cbn; lia|].
    cbn [stringify parse_fuel snd] in *.
    length_norm.
    enough (S ((fix go (l : list (string * json)) : nat :=
                  match l with
                  | [] => 0
                  | (_, x) :: r => S (parse_fuel x + go r)
                  end) xs)
            <= String.length (members_tail stringify xs))%nat by lia.
    clear Hx. induction Hxs as [|[k' y] ys Hy _ IHys]; [cbn; lia|].
    cbn [members_tail]. fold (members_tail stringify ys).
    cbn [snd] in *.
    length_norm. lia.
Qed.

(** [JSON.parse(JSON.stringify(v))] is [v]. *)
Lemma parse_stringify (v : json) :
  well_formed v -> parse (stringify v) = Some v.
Proof.
  intros Hwf. unfold parse.
  rewrite <- (append_empty_r (stringify v)) at 2.
  rewrite (stringify_reads_back v Hwf); [reflexivity | | reflexivity].
  pose proof (parse_fuel_length v). lia.
Qed.

Lemma stringify_truthy (v : json) : JsString.truthy (stringify v) = true.
Proof. now destruct (stringify_head v) as (c & r & -> & _). Qed.

(** ** JSON: the fuel of the parser is never the limiting factor *)

Lemma skip_ws_length (s : string) : (String.length (skip_ws s) <= String.length s)%nat.
Proof.
  induction s as [|c s IH]; [reflexivity|]. cbn [skip_ws].
  destruct (is_json_ws c); cbn [String.length]; lia.
Qed.

Lemma next_is_length (c : ascii) (s r : string) :
  next_is c s = Some r -> String.length s = S (String.length r).
Proof.
  destruct s as [|c' s]; [discriminate|]. cbn [next_is].
  destruct (Ascii.eqb c' c); [|discriminate]. now intros [= ->].
Qed.

Lemma span_digits_length (s ds r : string) :
  span_digits s = (ds, r) ->
  String.length s = (String.length ds + String.length r)%nat.
Proof.
  revert ds r. induction s as [|c s IH]; intros ds r; cbn [span_digits].
  - now intros [= <- <-].
  - destruct (is_digit c).
    + destruct (span_digits s) as [ds' r'] eqn:E. intros [= <- <-].
      cbn [String.length]. now rewrite (IH _ _ eq_refl).
    + now intros [= <- <-].
Qed.

Lemma take_sign_length (s : string) :
  (String.length (snd (take_sign s)) <= String.length s)%nat.
Proof.
  unfold take_sign.
  destruct (next_is "-" s) as [r|] eqn:E1; [apply next_is_length in E1; cbn; lia|].
  destruct (next_is "+" s) as [r|] eqn:E2; [apply next_is_length in E2; cbn; lia|].
  reflexivity.
Qed.

Lemma parse_exponent_length (s r : string) (e : Z) :
  parse_exponent s = Some (e, r) -> (String.length r < String.length s)%nat.
Proof.
  unfold parse_exponent. destruct s as [|c s]; [discriminate|].
  destruct (is_exp_char c); [|discriminate].
  pose proof (take_sign_length s) as Hs.
  destruct (take_sign s) as [neg r1]. cbn [snd] in Hs.
  destruct (span_digits r1) as [ds r2] eqn:E. apply span_digits_length in E.
  destruct ds; [discriminate|]. intros [= _ <-]. cbn [String.length] in *. lia.
Qed.

Lemma parse_unsigned_length (neg : bool) (s r : string) (d : decimal) :
  parse_unsigned neg s = Some (d, r) -> (String.length r < String.length s)%nat.
Proof.
  unfold parse_unsigned.
  destruct (span_digits s) as [ip s2] eqn:E. apply span_digits_length in E.
  destruct ip as [|d0 ip']; [discriminate|].
  destruct (_ && _); [discriminate|].
  assert (Hfrac : forall fp s3,
             match next_is "." s2 with
             | Some r =>
                 let (fp, s3) := span_digits r in
                 match fp with
                 | EmptyString => None
                 | _ => Some (fp, s3)
                 end
             | None => Some (EmptyString, s2)
             end = Some (fp, s3) ->
             (String.length s3 <= String.length s2)%nat).
  { intros fp s3. destruct (next_is "." s2) as [r0|] eqn:E1.
    - apply next_is_length in E1.
      destruct (span_digits r0) as [fp' s3'] eqn:E2. apply span_digits_length in E2.
      destruct fp'; [discriminate|]. intros [= _ <-]. lia.
    - now intros [= _ <-]. }
  destruct (match next_is "." s2 with Some _ => _ | None => _ end) as [[fp s3]|];
    [|discriminate].
  specialize (Hfrac fp s3 eq_refl). cbn [String.length] in E.
  destruct s3 as [|c s3'].
  - intros [= _ <-]. cbn [String.length]. lia.
  - destruct (is_exp_char c).
    + destruct (parse_exponent (String c s3')) as [[e s4]|] eqn:E3; [|discriminate].
      apply parse_exponent_length in E3. intros [= _ <-]. lia.
    + intros [= _ <-]. lia.
Qed.

Lemma parse_number_length (s r : string) (d : decimal) :
  parse_number s = Some (d, r) -> (String.length r < String.length s)%nat.
Proof.
  unfold parse_number. destruct (next_is "-" s) as [r0|] eqn:E.
  - apply next_is_length in E. intros H. apply parse_unsigned_length in H. lia.
  - apply parse_unsigned_length.
Qed.

Lemma parse_string_body_length (s t r : string) :
  parse_string_body s = Some (t, r) -> (String.length r < String.length s)%nat.
Proof.
  remember (String.length s) as n eqn:Hn.
  assert (Hle : (String.length s <= n)%nat) by lia. clear Hn.
  revert s t r Hle. induction n as [|n IH]; intros s t r Hle;
    (destruct s as [|c s]; [discriminate|]); cbn [String.length] in Hle; [lia|].
  cbn [parse_string_body].
  destruct (_ =? 34)%N; [intros [= _ <-]; cbn; lia|].
  destruct (_ =? 92)%N.
  - destruct s as [|e s']; [discriminate|].
    destruct (simple_escape e).
    + destruct (parse_string_body s') as [[t' r']|] eqn:E; [|discriminate].
      apply IH in E; [|cbn in Hle; lia]. intros [= _ <-]. cbn [String.length]. lia.
    + destruct (Ascii.eqb e "u"); [|discriminate].
      destruct s' as [|h1 [|h2 [|h3 [|h4 s'']]]]; try discriminate.
      destruct (hex4 h1 h2 h3 h4); [|discriminate].
      destruct (parse_string_body s'') as [[t' r']|] eqn:E; [|discriminate].
      apply IH in E; [|cbn in Hle; lia]. intros [= _ <-]. cbn [String.length]. lia.
  - destruct (_ <? 32)%N; [discriminate|].
    destruct (parse_string_body s) as [[t' r']|] eqn:E; [|discriminate].
    apply IH in E; [|lia]. intros [= _ <-]. cbn [String.length]. lia.
Qed.

Lemma startsWith_length (s p : string) :
  startsWith s p = true -> (String.length p <= String.length s)%nat.
Proof.
  intros H. apply startsWith_spec in H as [b ->]. rewrite length_append. lia.
Qed.

(** The equations of the parser. *)

Lemma parse_value_unfold (g : nat) (s : string) :
  parse_value (S g) s
  = match skip_ws s with
    | EmptyString => None
    | String c r0 =>
        if Ascii.eqb c dquote then
          match parse_string_body r0 with
          | Some (str, r1) => Some (JStr str, r1)
          | None => None
          end
        else if Ascii.eqb c "[" then
          match next_is "]" (skip_ws r0) with
          | Some r1 => Some (JArr [], r1)
          | None =>
              match parse_value g r0 with
              | Some (v, r1) =>
                  match parse_elems g r1 with
                  | Some (vs, r2) => Some (JArr (v :: vs), r2)
                  | None => None
                  end
              | None => None
              end
          end
        else if Ascii.eqb c "{" then
          match next_is "}" (skip_ws r0) with
          | Some r1 => Some (JObj [], r1)
          | None =>
              match parse_member (parse_value g) r0 with
              | Some (m, r1) =>
                  match parse_members g r1 with
                  | Some (ms, r2) => Some (JObj (build_object (m :: ms)), r2)
                  | None => None
                  end
              | None => None
              end
          end
        else if startsWith (String c r0) "true" then
          Some (JBool true, str_drop 4 (String c r0))
        else if startsWith (String c r0) "false" then
          Some (JBool false, str_drop 5 (String c r0))
        else if startsWith (String c r0) "null" then
          Some (JNull, str_drop 4 (String c r0))
        else
          match parse_number (String c r0) with
          | Some (d, r1) => Some (JNum d, r1)
          | None => None
          end
    end.
Proof. cbn [parse_value]. now destruct (skip_ws s). Qed.

Lemma parse_elems_unfold (g : nat) (s : string) :
  parse_elems (S g) s
  = match next_is "]" (skip_ws s) with
    | Some r => Some ([], r)
    | None =>
        match next_is "," (skip_ws s) with
        | Some r =>
            match parse_value g r with
            | Some (v, r1) =>
                match parse_elems g r1 with
                | Some (vs, r2) => Some (v :: vs, r2)
                | None => None
                end
            | None => None
            end
        | None => None
        end
    end.
Proof. reflexivity. Qed.

Lemma parse_members_unfold (g : nat) (s : string) :
  parse_members (S g) s
  = match next_is "}" (skip_ws s) with
    | Some r => Some ([], r)
    | None =>
        match next_is "," (skip_ws s) with
        | Some r =>
            match parse_member (parse_value g) r with
            | Some (m, r1) =>
                match parse_members g r1 with
                | Some (ms, r2) => Some (m :: ms, r2)
                | None => None
                end
            | None => None
            end
        | None => None
        end
    end.
Proof. reflexivity. Qed.

Lemma parse_member_adequate (f g : nat) (s r : string) (m : string * json) :
  adequate parse_value f ->
  parse_member (parse_value f) s = Some (m, r) ->
  (String.length r < String.length s)%nat
  /\ ((String.length s <= g)%nat -> parse_member (parse_value g) s = Some (m, r)).
Proof.
  intros Hf. unfold parse_member.
  pose proof (skip_ws_length s) as Hs.
  destruct (skip_ws s) as [|c r0]; [discriminate|]. cbn [String.length] in Hs.
  destruct (Ascii.eqb c dquote); [|discriminate].
  destruct (parse_string_body r0) as [[k r1]|] eqn:E1; [|discriminate].
  apply parse_string_body_length in E1.
  pose proof (skip_ws_length r1) as Hr1.
  destruct (next_is ":" (skip_ws r1)) as [r2|] eqn:E2; [|discriminate].
  apply next_is_length in E2.
  destruct (parse_value f r2) as [[v r3]|] eqn:E3; [|discriminate].
  destruct (Hf _ _ _ E3) as [Hlen Hg]. intros [= <- <-].
  split; [lia|]. intros Hle. rewrite Hg by lia. reflexivity.
Qed.

Lemma parse_fuel_adequate (f : nat) :
  adequate parse_value f /\ adequate parse_elems f /\ adequate parse_members f.
Proof.
  induction f as [|f (IHv & IHe & IHm)].
  { split; [|split]; intros s x r H; discriminate H. }
  split; [|split]; intros s x r H.
  - (* parse_value *)
    pose proof (skip_ws_length s) as Hs.
    rewrite parse_value_unfold in H.
    enough (Hmain : (String.length r < String.length (skip_ws s))%nat
                    /\ forall g, (String.length (skip_ws s) <= g)%nat ->
                                 parse_value (S g) s = Some (x, r)).
    { destruct Hmain as [H1 H2]. split; [lia|].
      intros [|g] Hg; [lia|]. apply H2. lia. }
    setoid_rewrite parse_value_unfold.
    destruct (skip_ws s) as [|c r0]; [discriminate|]. cbn [String.length] in *.
    destruct (Ascii.eqb c dquote).
    { destruct (parse_string_body r0) as [[str r1]|] eqn:E; [|discriminate].
      apply parse_string_body_length in E. injection H as <- <-.
      split; [lia | reflexivity]. }
    destruct (Ascii.eqb c "[").
    { pose proof (skip_ws_length r0) as Hr0.
      destruct (next_is "]" (skip_ws r0)) as [r1|] eqn:E.
      - apply next_is_length in E. injection H as <- <-. split; [lia | reflexivity].
      - destruct (parse_value f r0) as [[v r1]|] eqn:E1; [|discriminate].
        destruct (IHv _ _ _ E1) as [Hl1 Hg1].
        destruct (parse_elems f r1) as [[vs r2]|] eqn:E2; [|discriminate].
        destruct (IHe _ _ _ E2) as [Hl2 Hg2].
        injection H as <- <-. split; [lia|]. intros g Hg.
        rewrite Hg1, Hg2 by lia. reflexivity. }
    destruct (Ascii.eqb c "{").
    { pose proof (skip_ws_length r0) as Hr0.
      destruct (next_is "}" (skip_ws r0)) as [r1|] eqn:E.
      - apply next_is_length in E. injection H as <- <-. split; [lia | reflexivity].
      - destruct (parse_member (parse_value f) r0) as [[m r1]|] eqn:E1; [|discriminate].
        destruct (parse_members f r1) as [[ms r2]|] eqn:E2; [|discriminate].
        destruct (IHm _ _ _ E2) as [Hl2 Hg2].
        injection H as <- <-.
        pose proof (fun g => parse_member_adequate f g _ _ _ IHv E1) as Hm.
        destruct (Hm 0%nat) as [Hl1 _]. split; [lia|]. intros g Hg.
        destruct (Hm g) as [_ Hg1]. rewrite Hg1, Hg2 by lia. reflexivity. }
    destruct (startsWith (String c r0) "true") eqn:Et.
    { injection H as <- <-. split; [|reflexivity]. clear.
      repeat match goal with
             | |- context [match ?t with EmptyString => _ | String _ _ => _ end] =>
                 destruct t
             end; cbn [String.length]; lia. }
    destruct (startsWith (String c r0) "false") eqn:Ef.
    { injection H as <- <-. split; [|reflexivity]. clear.
      repeat match goal with
             | |- context [match ?t with EmptyString => _ | String _ _ => _ end] =>
                 destruct t
             end; cbn [String.length]; lia. }
    destruct (startsWith (String c r0) "null") eqn:En.
    { injection H as <- <-. split; [|reflexivity]. clear.
      repeat match goal with
             | |- context [match ?t with EmptyString => _ | String _ _ => _ end] =>
                 destruct t
             end; cbn [String.length]; lia. }
    destruct (parse_number (String c r0)) as [[d r1]|] eqn:E; [|discriminate].
    apply parse_number_length in E. injection H as <- <-.
    split; [cbn [String.length] in E; lia | reflexivity].
  - (* parse_elems *)
    pose proof (skip_ws_length s) as Hs.
    rewrite parse_elems_unfold in H.
    enough (Hmain : (String.length r < String.length s)%nat
                    /\ forall g, (String.length s <= g)%nat ->
                                 parse_elems (S g) s = Some (x, r)).
    { destruct Hmain as [H1 H2]. split; [exact H1|].
      intros [|g] Hg; [lia|]. apply H2. lia. }
    setoid_rewrite parse_elems_unfold.
    destruct (next_is "]" (skip_ws s)) as [r1|] eqn:E.
    { apply next_is_length in E. injection H as <- <-. split; [lia | reflexivity]. }
    destruct (next_is "," (skip_ws s)) as [r1|] eqn:E0; [|discriminate].
    apply next_is_length in E0.
    destruct (parse_value f r1) as [[v r2]|] eqn:E1; [|discriminate].
    destruct (IHv _ _ _ E1) as [Hl1 Hg1].
    destruct (parse_elems f r2) as [[vs r3]|] eqn:E2; [|discriminate].
    destruct (IHe _ _ _ E2) as [Hl2 Hg2].
    injection H as <- <-. split; [lia|]. intros g Hg.
    rewrite Hg1, Hg2 by lia. reflexivity.
  - (* parse_members *)
    pose proof (skip_ws_length s) as Hs.
    rewrite parse_members_unfold in H.
    enough (Hmain : (String.length r < String.length s)%nat
                    /\ forall g, (String.length s <= g)%nat ->
                                 parse_members (S g) s = Some (x, r)).
    { destruct Hmain as [H1 H2]. split; [exact H1|].
      intros [|g] Hg; [lia|]. apply H2. lia. }
    setoid_rewrite parse_members_unfold.
    destruct (next_is "}" (skip_ws s)) as [r1|] eqn:E.
    { apply next_is_length in E. injection H as <- <-. split; [lia | reflexivity]. }
    destruct (next_is "," (skip_ws s)) as [r1|] eqn:E0; [|discriminate].
    apply next_is_length in E0.
    destruct (parse_member (parse_value f) r1) as [[m r2]|] eqn:E1; [|discriminate].
    destruct (parse_members f r2) as [[ms r3]|] eqn:E2; [|discriminate].
    destruct (IHm _ _ _ E2) as [Hl2 Hg2].
    injection H as <- <-.
    pose proof (fun g => parse_member_adequate f g _ _ _ IHv E1) as Hm.
    destruct (Hm 0%nat) as [Hl1 _]. split; [lia|]. intros g Hg.
    destruct (Hm g) as [_ Hg1]. rewrite Hg1, Hg2 by lia. reflexivity.
Qed.

(** A text that [parse_value] reads with some fuel, up to trailing white
    space, is one that [parse] accepts: [parse] fails on malformed texts
    only. *)
Lemma parse_complete (f : nat) (s : string) (v : json) (r : string) :
  parse_value f s = Some (v, r) -> skip_ws r = EmptyString -> parse s = Some v.
Proof.
  intros H Hr. unfold parse.
  destruct (parse_fuel_adequate f) as (Hv & _ & _).
  destruct (Hv _ _ _ H) as [_ Hg]. rewrite Hg by lia. now rewrite Hr.
Qed.

(** ** JSON: objects in enumeration order *)

Lemma array_index_digits (k : string) (n : N) :
  array_index k = Some n -> digits n = k.
Proof.
  unfold array_index. destruct (String.eqb_spec (digits (digits_value 0 k)) k) as [E|E];
    [|discriminate].
  destruct (_ <? _)%N; [|discriminate]. now intros [= <-].
Qed.

Lemma array_index_inj (k k' : string) (n : N) :
  array_index k = Some n -> array_index k' = Some n -> k = k'.
Proof. intros H H'. apply array_index_digits in H, H'. congruence. Qed.

Lemma obj_get_none (k : string) (o : list (string * json)) :
  obj_get k o = None <-> k ∉ (fst <$> o).
Proof.
  induction o as [|[k' v'] o IH]; cbn [obj_get fmap list_fmap fst].
  - split; [intros _; apply not_elem_of_nil | reflexivity].
  - rewrite not_elem_of_cons. destruct (String.eqb_spec k k') as [->|Hne].
    + split; [discriminate | intros [H _]; contradiction].
    + rewrite IH. tauto.
Qed.

Lemma obj_replace_keys (k : string) (v : json) (o : list (string * json)) :
  (fst <$> (obj_replace k v o)) = (fst <$> o).
Proof.
  induction o as [|[k' v'] o IH]; [reflexivity|]. cbn [obj_replace].
  destruct (String.eqb k k'); cbn [fmap list_fmap fst]; [reflexivity|].
  f_equal. exact IH.
Qed.

Lemma ordered_keys_app_inv (ks ks' : list string) :
  ordered_keys (ks ++ ks') -> ordered_keys ks.
Proof.
  induction ks as [|k ks IH]; [constructor|]. cbn [app].
  intros H. inversion H as [|? ? Hnin Hall Hord]; subst.
  constructor.
  - rewrite elem_of_app in Hnin. tauto.
  - now apply Forall_app in Hall as [? _].
  - auto.
Qed.

Lemma ordered_keys_snoc (ks : list string) (k : string) :
  ordered_keys (ks ++ [k]) -> (k ∉ ks) /\ Forall (fun k' => key_before k' k) ks.
Proof.
  induction ks as [|k' ks IH]; cbn [app].
  - intros _. split; [apply not_elem_of_nil | constructor].
  - intros H. inversion H as [|? ? Hnin' Hall' Hord]; subst.
    destruct (IH Hord) as [Hnin Hall].
    rewrite elem_of_app, list_elem_of_singleton in Hnin'.
    apply Forall_app in Hall' as [_ Hk]. apply Forall_inv in Hk.
    split.
    + rewrite not_elem_of_cons. split; [|exact Hnin]. intros ->. tauto.
    + constructor; assumption.
Qed.

Lemma obj_insert_index_end (n : N) (k : string) (v : json) (o : list (string * json)) :
  array_index k = Some n ->
  Forall (fun k' => key_before k' k) (fst <$> o) ->
  obj_insert_index n k v o = o ++ [(k, v)].
Proof.
  intros Hk. induction o as [|[k' v'] o IH]; [reflexivity|].
  cbn [fmap list_fmap fst]. intros H. inversion H as [|? ? Hk' Hall]; subst.
  cbn [obj_insert_index app].
  unfold key_before in Hk'. rewrite Hk in Hk'.
  destruct (array_index k') as [n'|]; [|contradiction].
  apply N.ltb_lt in Hk'. rewrite Hk'. f_equal. auto.
Qed.

Lemma obj_set_end (o : list (string * json)) (k : string) (v : json) :
  ordered_keys (fst <$> (o ++ [(k, v)])) -> obj_set o k v = o ++ [(k, v)].
Proof.
  rewrite fmap_app. cbn [fmap list_fmap fst]. intros H.
  apply ordered_keys_snoc in H as [Hnin Hall].
  unfold obj_set. apply obj_get_none in Hnin. rewrite Hnin.
  destruct (array_index k) as [n|] eqn:Hk; [|reflexivity].
  now apply obj_insert_index_end.
Qed.

Lemma build_object_ordered_go (l acc : list (string * json)) :
  ordered_keys (fst <$> (acc ++ l)) ->
  fold_left (fun o kv => obj_set o (fst kv) (snd kv)) l acc = acc ++ l.
Proof.
  revert acc. induction l as [|[k v] l IH]; intros acc H; cbn [fold_left fst snd].
  - now rewrite app_nil_r.
  - replace (acc ++ (k, v) :: l) with ((acc ++ [(k, v)]) ++ l) in *
      by now rewrite <- app_assoc.
    rewrite obj_set_end; [now apply IH|].
    rewrite fmap_app in H. now apply ordered_keys_app_inv in H.
Qed.

(** An object whose keys are in enumeration order is rebuilt as it is. *)
Lemma build_object_ordered (o : list (string * json)) :
  ordered_keys (fst <$> o) -> build_object o = o.
Proof. intros H. unfold build_object. now rewrite build_object_ordered_go. Qed.

Lemma key_before_trans_index (k k' k'' : string) (n n' : N) :
  array_index k = Some n -> array_index k' = Some n' -> (n < n')%N ->
  key_before k' k'' -> key_before k k''.
Proof.
  unfold key_before. intros -> -> Hlt.
  destruct (array_index k''); [lia | auto].
Qed.

Lemma obj_insert_index_keys (n : N) (k : string) (v : json) (o : list (string * json)) (x : string) :
  x ∈ (fst <$> (obj_insert_index n k v o)) <-> x = k \/ x ∈ (fst <$> o).
Proof.
  induction o as [|[k' v'] o IH]; cbn [obj_insert_index fmap list_fmap fst].
  - rewrite list_elem_of_singleton, elem_of_nil. tauto.
  - destruct (array_index k') as [n'|]; [destruct (n' <? n)%N|];
      cbn [fmap list_fmap fst]; rewrite !elem_of_cons; try rewrite IH; tauto.
Qed.

Lemma obj_insert_index_ordered (n : N) (k : string) (v : json) (o : list (string * json)) :
  array_index k = Some n -> k ∉ (fst <$> o) ->
  ordered_keys (fst <$> o) -> ordered_keys (fst <$> (obj_insert_index n k v o)).
Proof.
  intros Hk. induction o as [|[k' v'] o IH]; cbn [obj_insert_index fmap list_fmap fst];
    intros Hnin Hord.
  - constructor; [apply not_elem_of_nil | constructor | constructor].
  - apply not_elem_of_cons in Hnin as [Hne Hnin].
    inversion Hord as [|? ? Hk' Hall Hord']; subst.
    assert (Hfresh : ordered_keys (k :: k' :: (fst <$> o)) ->
                     ordered_keys (fst <$> ((k, v) :: (k', v') :: o))) by (intros H; exact H).
    destruct (array_index k') as [n'|] eqn:Hk'i.
    + destruct (N.ltb_spec n' n) as [Hlt|Hge]; cbn [fmap list_fmap fst].
      * constructor.
        -- rewrite obj_insert_index_keys. intros [-> | H]; [|contradiction].
           rewrite Hk in Hk'i. injection Hk'i as ->. lia.
        -- apply Forall_forall. intros x Hx.
           apply obj_insert_index_keys in Hx as [-> | Hx].
           ++ unfold key_before. now rewrite Hk'i, Hk.
           ++ rewrite Forall_forall in Hall. now apply Hall.
        -- now apply IH.
      * assert (Hlt : (n < n')%N).
        { assert (n <> n'); [|lia]. intros ->. apply Hne.
          eapply array_index_inj; eassumption. }
        constructor; [| |exact Hord].
        -- rewrite not_elem_of_cons. now split.
        -- constructor.
           ++ unfold key_before. now rewrite Hk, Hk'i.
           ++ eapply Forall_impl; [exact Hall|]. intros x.
              now apply (key_before_trans_index k k' x n n').
    + cbn [fmap list_fmap fst]. constructor; [| |exact Hord].
      * rewrite not_elem_of_cons. now split.
      * constructor.
        -- unfold key_before. now rewrite Hk, Hk'i.
        -- eapply Forall_impl; [exact Hall|]. intros x.
           unfold key_before. rewrite Hk, Hk'i. now destruct (array_index x).
Qed.

Lemma ordered_keys_snoc_other (ks : list string) (k : string) :
  array_index k = None -> k ∉ ks -> ordered_keys ks -> ordered_keys (ks ++ [k]).
Proof.
  intros Hk Hnin. induction 1 as [|k' ks Hk' Hall Hord IH]; cbn [app].
  - constructor; [apply not_elem_of_nil | constructor | constructor].
  - apply not_elem_of_cons in Hnin as [Hne Hnin]. constructor.
    + rewrite elem_of_app, list_elem_of_singleton. intros [H | ->]; auto.
    + apply Forall_app. split; [exact Hall|]. apply Forall_singleton.
      unfold key_before. rewrite Hk. now destruct (array_index k').
    + now apply IH.
Qed.

Lemma obj_set_ordered (o : list (string * json)) (k : string) (v : json) :
  ordered_keys (fst <$> o) -> ordered_keys (fst <$> (obj_set o k v)).
Proof.
  intros Hord. unfold obj_set.
  destruct (obj_get k o) as [v0|] eqn:Hget; [now rewrite obj_replace_keys|].
  apply obj_get_none in Hget.
  destruct (array_index k) as [n|] eqn:Hk.
  - now apply obj_insert_index_ordered.
  - rewrite fmap_app. now apply ordered_keys_snoc_other.
Qed.

Lemma build_object_keys_ordered (raw : list (string * json)) :
  ordered_keys (fst <$> (build_object raw)).
Proof.
  unfold build_object.
  assert (H : ordered_keys (fst <$> ([] : list (string * json)))) by constructor.
  revert H. generalize ([] : list (string * json)).
  induction raw as [|[k v] raw IH]; intros acc Hacc; cbn [fold_left fst snd];
    [exact Hacc|].
  apply IH. now apply obj_set_ordered.
Qed.

(** Rebuilding a parsed object changes nothing. *)
Lemma build_object_idempotent (raw : list (string * json)) :
  build_object (build_object raw) = build_object raw.
Proof. apply build_object_ordered, build_object_keys_ordered. Qed.

(** ** JSON: what [parse] returns is in normal form *)

Lemma well_formed_array (l : list json) :
  well_formed (JArr l) <-> Forall well_formed l.
Proof.
  induction l as [|x l IH]; cbn [well_formed].
  - split; [constructor | exact (fun _ => I)].
  - rewrite Forall_cons. cbn [well_formed] in IH. now rewrite IH.
Qed.

Lemma well_formed_object (ms : list (string * json)) :
  well_formed (JObj ms)
  <-> build_object ms = ms /\ Forall (fun kv => well_formed (snd kv)) ms.
Proof.
  cbn [well_formed].
  enough (H : (fix all (l : list (string * json)) : Prop :=
                 match l with
                 | [] => True
                 | (_, x) :: r => well_formed x /\ all r
                 end) ms <-> Forall (fun kv => well_formed (snd kv)) ms)
    by now rewrite H.
  induction ms as [|[k x] ms IH].
  - split; [constructor | exact (fun _ => I)].
  - rewrite Forall_cons. cbn [snd]. now rewrite IH.
Qed.

Lemma decimal_of_parts_canonical (neg : bool) (ip fp : string) (e : Z) :
  canonical (decimal_of_parts neg ip fp e) = true.
Proof.
  unfold decimal_of_parts. destruct (0 <=? _); [reflexivity|].
  apply normalize_is_canonical.
Qed.

Lemma parse_number_canonical (s r : string) (d : decimal) :
  parse_number s = Some (d, r) -> canonical d = true.
Proof.
  assert (H : forall neg s0, parse_unsigned neg s0 = Some (d, r) -> canonical d = true).
  { intros neg s0. unfold parse_unsigned.
    destruct (span_digits s0) as [ip s2].
    destruct ip as [|d0 ip']; [discriminate|].
    destruct (_ && _); [discriminate|].
    destruct (match next_is "." s2 with Some _ => _ | None => _ end) as [[fp s3]|];
      [|discriminate].
    destruct s3 as [|c s3'].
    - intros [= <- _]. apply decimal_of_parts_canonical.
    - destruct (is_exp_char c).
      + destruct (parse_exponent _) as [[e s4]|]; [|discriminate].
        intros [= <- _]. apply decimal_of_parts_canonical.
      + intros [= <- _]. apply decimal_of_parts_canonical. }
  unfold parse_number. destruct (next_is "-" s); apply H.
Qed.

Lemma obj_set_values (o : list (string * json)) (k : string) (v : json) :
  values_well_formed o -> well_formed v -> values_well_formed (obj_set o k v).
Proof.
  unfold values_well_formed, obj_set. intros Ho Hv.
  destruct (obj_get k o).
  - clear -Ho Hv. induction Ho as [|[k' v'] o Hv' Ho IH]; cbn [obj_replace];
      [constructor|].
    destruct (String.eqb k k'); constructor; auto.
  - destruct (array_index k) as [n|].
    + clear -Ho Hv. induction Ho as [|[k' v'] o Hv' Ho IH]; cbn [obj_insert_index].
      * now constructor.
      * destruct (array_index k') as [n'|]; [destruct (n' <? n)%N|];
          repeat constructor; auto.
    + apply Forall_app. split; [exact Ho | now constructor].
Qed.

Lemma build_object_values (raw : list (string * json)) :
  values_well_formed raw -> values_well_formed (build_object raw).
Proof.
  unfold build_object.
  assert (H : values_well_formed []) by constructor.
  revert H. generalize ([] : list (string * json)).
  induction raw as [|[k v] raw IH]; intros acc Hacc Hraw; cbn [fold_left fst snd];
    [exact Hacc|].
  inversion Hraw as [|? ? Hv Hraw']; subst.
  apply IH; [|exact Hraw']. now apply obj_set_values.
Qed.

Lemma parse_member_well_formed (f : nat) (s r : string) (m : string * json) :
  (forall s v r, parse_value f s = Some (v, r) -> well_formed v) ->
  parse_member (parse_value f) s = Some (m, r) -> well_formed (snd m).
Proof.
  intros Hf. unfold parse_member.
  destruct (skip_ws s) as [|c r0]; [discriminate|].
  destruct (Ascii.eqb c dquote); [|discriminate].
  destruct (parse_string_body r0) as [[k r1]|]; [|discriminate].
  destruct (next_is ":" (skip_ws r1)) as [r2|]; [|discriminate].
  destruct (parse_value f r2) as [[v r3]|] eqn:E; [|discriminate].
  intros [= <- _]. exact (Hf _ _ _ E).
Qed.

Lemma parse_value_well_formed (f : nat) :
  (forall s v r, parse_value f s = Some (v, r) -> well_formed v)
  /\ (forall s vs r, parse_elems f s = Some (vs, r) -> Forall well_formed vs)
  /\ (forall s ms r, parse_members f s = Some (ms, r) -> values_well_formed ms).
Proof.
  induction f as [|f (IHv & IHe & IHm)].
  { split; [|split]; intros s x r H; discriminate H. }
  split; [|split]; intros s x r H.
  - rewrite parse_value_unfold in H.
    destruct (skip_ws s) as [|c r0]; [discriminate|].
    destruct (Ascii.eqb c dquote).
    { destruct (parse_string_body r0) as [[str r1]|]; [|discriminate].
      now injection H as <- _. }
    destruct (Ascii.eqb c "[").
    { destruct (next_is "]" (skip_ws r0)) as [r1|]; [now injection H as <- _|].
      destruct (parse_value f r0) as [[v r1]|] eqn:E1; [|discriminate].
      destruct (parse_elems f r1) as [[vs r2]|] eqn:E2; [|discriminate].
      injection H as <- _. apply well_formed_array. constructor; eauto. }
    destruct (Ascii.eqb c "{").
    { destruct (next_is "}" (skip_ws r0)) as [r1|]; [now injection H as <- _|].
      destruct (parse_member (parse_value f) r0) as [[m r1]|] eqn:E1; [|discriminate].
      destruct (parse_members f r1) as [[ms r2]|] eqn:E2; [|discriminate].
      injection H as <- _. apply well_formed_object. split.
      - apply build_object_idempotent.
      - apply build_object_values. constructor; [|exact (IHm _ _ _ E2)].
        eapply parse_member_well_formed; eassumption. }
    destruct (startsWith _ "true"); [now injection H as <- _|].
    destruct (startsWith _ "false"); [now injection H as <- _|].
    destruct (startsWith _ "null"); [now injection H as <- _|].
    destruct (parse_number (String c r0)) as [[d r1]|] eqn:E; [|discriminate].
    injection H as <- _. exact (parse_number_canonical _ _ _ E).
  - rewrite parse_elems_unfold in H.
    destruct (next_is "]" (skip_ws s)) as [r1|]; [injection H as <- _; constructor|].
    destruct (next_is "," (skip_ws s)) as [r1|]; [|discriminate].
    destruct (parse_value f r1) as [[v r2]|] eqn:E1; [|discriminate].
    destruct (parse_elems f r2) as [[vs r3]|] eqn:E2; [|discriminate].
    injection H as <- _. constructor; eauto.
  - rewrite parse_members_unfold in H.
    destruct (next_is "}" (skip_ws s)) as [r1|]; [injection H as <- _; constructor|].
    destruct (next_is "," (skip_ws s)) as [r1|]; [|discriminate].
    destruct (parse_member (parse_value f) r1) as [[m r2]|] eqn:E1; [|discriminate].
    destruct (parse_members f r2) as [[ms r3]|] eqn:E2; [|discriminate].
    injection H as <- _. constructor; [|exact (IHm _ _ _ E2)].
    eapply parse_member_well_formed; eassumption.
Qed.

(** Every value that [JSON.parse] returns is in normal form. *)
Lemma parse_well_formed (s : string) (v : json) :
  parse s = Some v -> well_formed v.
Proof.
  unfold parse.
  destruct (parse_value _ s) as [[v' r]|] eqn:E; [|discriminate].
  destruct (skip_ws r); [|discriminate]. intros [= <-].
  destruct (parse_value_well_formed (S (String.length s))) as (Hv & _ & _).
  exact (Hv _ _ _ E).
Qed.

(** [parse] fails exactly on the texts that no amount of fuel reads as
    one value followed by white space only. *)
Lemma parse_none_iff (s : string) :
  parse s = None
  <-> forall f v r, parse_value f s = Some (v, r) -> skip_ws r <> EmptyString.
Proof.
  split.
  - intros Hnone f v r H Hr. rewrite (parse_complete f s v r H Hr) in Hnone.
    discriminate.
  - intros H. unfold parse.
    destruct (parse_value _ s) as [[v r]|] eqn:E; [|reflexivity].
    specialize (H _ _ _ E). now destruct (skip_ws r).
Qed.

(** ** Shipping *)

Lemma calculateShipping_six_plus (n : Z) : 6 <= n -> Cart.calculateShipping n = 350.
Proof.
  intros H. unfold Cart.calculateShipping.
  destruct (Z.eqb_spec n 0); [lia|].
  destruct (Z.eqb_spec n 1); [lia|].
  destruct (Z.eqb_spec n 2); [lia|].
  destruct (Z.leb_spec 3 n); [|lia].
  destruct (Z.leb_spec n 5); [lia|]. simpl.
  destruct (Z.leb_spec 6 n); [reflexivity | lia].
Qed.

(** C1. The shipping charge of [calculateCart] depends on the number of
    line items only: 0 for an empty cart, 170 for one item, 220 for two,
    270 for three to five, 350 for six or more. *)
Theorem shipping_by_item_count (cart : list CartLineItem.t) :
  Cart.shipping (Cart.calculateCart cart) =
  match length cart with
  | 0%nat => 0
  | 1%nat => 170
  | 2%nat => 220
  | 3%nat | 4%nat | 5%nat => 270
  | _ => 350
  end.
Proof.
  unfold Cart.calculateCart. cbn [Cart.shipping].
  destruct cart as [|i1 [|i2 [|i3 [|i4 [|i5 [|i6 rest]]]]]]; try reflexivity.
  apply calculateShipping_six_plus. cbn [length]. lia.
Qed.

(** ** Adding *)

Lemma addToCart_present cart product :
  Product.id product ∈ fmap CartLineItem.id cart ->
  Cart.addToCart cart product = (cart, Cart.AlreadyPresent).
Proof.
  intros Hin. unfold Cart.addToCart.
  destruct (Z.eqb_spec (Cart.findIndex (fun item => CartLineItem.id item =? Product.id product) cart) (-1)) as [E|E];
    [|reflexivity].
  exfalso. apply findIndex_none in E. rewrite forallb_forall in E.
  apply list_elem_of_fmap in Hin as (item & Hid & Hitem).
  apply list_elem_of_In in Hitem. specialize (E item Hitem).
  rewrite Hid, Z.eqb_refl in E. discriminate.
Qed.

Lemma addToCart_absent cart product :
  Product.id product ∉ fmap CartLineItem.id cart ->
  Cart.addToCart cart product = (cart ++ [Cart.cartProduct product], Cart.Added).
Proof.
  intros Hnin. unfold Cart.addToCart.
  destruct (Z.eqb_spec (Cart.findIndex (fun item => CartLineItem.id item =? Product.id product) cart) (-1)) as [E|E];
    [reflexivity|].
  exfalso. apply E. apply findIndex_none. apply forallb_forall.
  intros item Hitem. apply negb_true_iff. apply Z.eqb_neq. intros Hid.
  apply Hnin. apply list_elem_of_fmap. exists item. split; [congruence|].
  now apply list_elem_of_In.
Qed.


(** ** Removing *)

(** C7. [removeItemFromCart] on an index outside [0 .. length - 1]
    changes nothing and reports [IndexOutOfRange]; on a valid index it
    removes the item at that position, keeps the others in order, and
    reports [Removed] with the removed item's name. *)
Theorem removeItemFromCart_outcome (cart : list CartLineItem.t) (index : Z) :
  (index < 0 \/ Z.of_nat (length cart) <= index ->
   Cart.removeItemFromCart cart index = (cart, Cart.IndexOutOfRange))
  /\ (0 <= index < Z.of_nat (length cart) ->
      exists before item after,
        cart = before ++ item :: after
        /\ Z.of_nat (length before) = index
        /\ Cart.removeItemFromCart cart index
           = (before ++ after, Cart.Removed (CartLineItem.name item))).
Proof.
  unfold Cart.removeItemFromCart. split.
  - intros H.
    destruct (Z.ltb_spec index 0), (Z.leb_spec (Z.of_nat (length cart)) index);
      simpl; try reflexivity; lia.
  - intros H.
    destruct (Z.ltb_spec index 0); [lia|].
    destruct (Z.leb_spec (Z.of_nat (length cart)) index); [lia|]. simpl.
    destruct (cart !! Z.to_nat index) as [item|] eqn:E.
    + exists (take (Z.to_nat index) cart), item, (drop (S (Z.to_nat index)) cart).
      split; [|split].
      * rewrite <- (take_drop_middle cart (Z.to_nat index) item E) at 1. reflexivity.
      * rewrite length_take. lia.
      * now rewrite delete_take_drop.
    + apply lookup_ge_None in E. lia.
Qed.

Lemma removeItemFromCart_outcome_witness :
  let cart := [priced_item (PStr "$10"); Cart.cartProduct lens_50mm] in
  Cart.removeItemFromCart cart 2 = (cart, Cart.IndexOutOfRange)
  /\ exists before item after,
       cart = before ++ item :: after
       /\ Z.of_nat (length before) = 1
       /\ Cart.removeItemFromCart cart 1
          = (before ++ after, Cart.Removed (CartLineItem.name item)).
Proof.
  intros cart. split.
  - apply (proj1 (removeItemFromCart_outcome cart 2)). right. cbn. lia.
  - apply (proj2 (removeItemFromCart_outcome cart 1)). cbn. lia.
Defined.

(** ** One line item per id *)

Lemma addToCart_unique_ids cart product :
  NoDup (fmap CartLineItem.id cart) ->
  NoDup (fmap CartLineItem.id (fst (Cart.addToCart cart product))).
Proof.
  intros Hnd.
  destruct (decide (Product.id product ∈ fmap CartLineItem.id cart)) as [Hin|Hnin].
  - now rewrite addToCart_present.
  - rewrite addToCart_absent by assumption. cbn [fst].
    rewrite fmap_app. apply NoDup_app. split; [assumption|]. split.
    + intros x Hx Hx'. cbn in Hx'. apply list_elem_of_singleton in Hx'. subst x.
      contradiction.
    + cbn. apply NoDup_singleton.
Qed.

Lemma removeItemFromCart_sublist cart index :
  sublist (fst (Cart.removeItemFromCart cart index)) cart.
Proof.
  unfold Cart.removeItemFromCart.
  destruct (_ || _); [reflexivity|].
  destruct (cart !! Z.to_nat index); [|reflexivity].
  apply sublist_delete.
Qed.

Lemma removeItemFromCart_unique_ids cart index :
  NoDup (fmap CartLineItem.id cart) ->
  NoDup (fmap CartLineItem.id (fst (Cart.removeItemFromCart cart index))).
Proof.
  intros Hnd. eapply sublist_NoDup; [exact Hnd | apply fmap_sublist, removeItemFromCart_sublist].
Qed.

(** C8. Pairwise distinct line-item ids is an invariant of the cart: it
    holds of the empty cart, [addToCart] and [removeItemFromCart]
    preserve it, hence every reachable cart has at most one line item per
    id. *)
Theorem unique_ids_invariant :
  NoDup (fmap CartLineItem.id [])
  /\ (forall cart product,
        NoDup (fmap CartLineItem.id cart) ->
        NoDup (fmap CartLineItem.id (fst (Cart.addToCart cart product))))
  /\ (forall cart index,
        NoDup (fmap CartLineItem.id cart) ->
        NoDup (fmap CartLineItem.id (fst (Cart.removeItemFromCart cart index))))
  /\ (forall cart,
        Cart.reachable cart ->
        NoDup (fmap CartLineItem.id cart)
        /\ forall i j x y,
             cart !! i = Some x -> cart !! j = Some y ->
             CartLineItem.id x = CartLineItem.id y -> i = j).
Proof.
  split; [constructor|].
  split; [exact addToCart_unique_ids|].
  split; [exact removeItemFromCart_unique_ids|].
  intros cart Hreach.
  assert (Hnd : NoDup (fmap CartLineItem.id cart)).
  { induction Hreach.
    - constructor.
    - now apply addToCart_unique_ids.
    - now apply removeItemFromCart_unique_ids. }
  split; [exact Hnd|].
  intros i j x y Hi Hj Hid.
  eapply NoDup_lookup; [exact Hnd| |].
  - rewrite list_lookup_fmap, Hi. reflexivity.
  - rewrite list_lookup_fmap, Hj. cbn. now rewrite Hid.
Qed.

Lemma unique_ids_invariant_witness :
  let cart := fst (Cart.addToCart (fst (Cart.addToCart [] lens_50mm)) canon_r5) in
  cart = [Cart.cartProduct lens_50mm; Cart.cartProduct canon_r5]
  /\ NoDup (CartLineItem.id <$> cart)
  /\ NoDup (CartLineItem.id <$> fst (Cart.addToCart cart lens_50mm))
  /\ NoDup (CartLineItem.id <$> fst (Cart.removeItemFromCart cart 0)).
Proof.
  intros cart.
  destruct unique_ids_invariant as (_ & Hadd & Hremove & Hreach).
  assert (Hcart : Cart.reachable cart).
  { apply Cart.reachable_add, Cart.reachable_add, Cart.reachable_empty. }
  destruct (Hreach cart Hcart) as [Hnd _].
  split; [reflexivity|]. split; [exact Hnd|]. split.
  - apply Hadd. exact Hnd.
  - apply Hremove. exact Hnd.
Defined.
(** ** Totals *)

Lemma replace_dollar (s : string) :
  replace s "$" EmptyString = Spec.strip_first_dollar s.
Proof.
  induction s as [|c s IH]; [reflexivity|].
  cbn [replace startsWith Spec.strip_first_dollar].
  rewrite Ascii.eqb_sym. destruct (Ascii.eqb c "$"); simpl.
  - now destruct s.
  - now rewrite IH.
Qed.

Lemma or_else_zero (x : number) : or_else x zero = Spec.parsed_or_zero x.
Proof.
  unfold or_else, Spec.parsed_or_zero. destruct x as [| | |d]; try reflexivity.
  simpl. now destruct (mant d =? 0).
Qed.

Lemma price_of_spec (item : CartLineItem.t) :
  Cart.price_of item = Spec.coerce_price_first (CartLineItem.price item).
Proof.
  unfold Cart.price_of, Spec.coerce_price_first.
  destruct (CartLineItem.price item) as [d|s|]; try reflexivity.
  rewrite or_else_zero, replace_dollar. now destruct s.
Qed.


(** The two readings of the coercion agree on the prices that hold no
    [$] after their first character. *)
Lemma coerce_price_agree (s : string) :
  Spec.dollar_free (str_drop 1 s) = true ->
  Spec.coerce_price_first (PStr s) = Spec.coerce_price (PStr s).
Proof.
  intros H. unfold Spec.coerce_price_first, Spec.coerce_price. do 2 f_equal.
  destruct s as [|c r]; [reflexivity|]. cbn [str_drop] in H.
  assert (Hfree : forall t, Spec.dollar_free t = true -> Spec.strip_first_dollar t = t).
  { induction t as [|a t IH]; [reflexivity|]. cbn.
    intros Ht. apply andb_true_iff in Ht as [Ha Ht]. apply negb_true_iff in Ha.
    now rewrite Ha, IH. }
  cbn [Spec.strip_first_dollar Spec.strip_leading_dollar].
  destruct (Ascii.eqb_spec c "$") as [->|Hc]; [reflexivity|].
  rewrite (Hfree r H).
  destruct c as [[] [] [] [] [] [] [] []]; try reflexivity. contradiction.
Qed.

(** A price written as [$] followed by the text of a number is coerced to
    that number. *)
Lemma price_of_currency_text (item : CartLineItem.t) (d : decimal) :
  CartLineItem.price item = PStr (String "$" (print_decimal d)) ->
  Cart.price_of item = Spec.parsed_or_zero (Num (normalize (mant d) (fdigits d))).
Proof.
  intros H. rewrite price_of_spec, H. unfold Spec.coerce_price_first.
  cbn [Spec.strip_first_dollar]. change (Ascii.eqb "$" "$") with true. cbv iota.
  now rewrite parseFloat_print_decimal.
Qed.



Example totals_scenario :
  Cart.calculateCart [priced_item (PNum (Dec 389900 2))]
  = Cart.mkTotals (Num (of_Z 3899)) 170 (Num (of_Z 4069)).
Proof. reflexivity. Qed.

Example totals_mixed :
  Cart.calculateCart [priced_item (PNum (Dec 12999 2)); priced_item (PStr "$70.01");
                      priced_item (PStr "free"); priced_item PMissing]
  = Cart.mkTotals (Num (of_Z 200)) 270 (Num (of_Z 470)).
Proof. reflexivity. Qed.
(** ** The stored cart *)

Lemma strings_well_formed (l : list string) : well_formed (JArr (map JStr l)).
Proof. induction l as [|s l IH]; cbn; [exact I | split; [exact I | exact IH]]. Qed.

Lemma line_item_well_formed (i : CartLineItem.t) :
  well_formed (CartLineItem.to_json i).
Proof.
  pose proof (strings_well_formed (CartLineItem.images i)) as Himg.
  unfold CartLineItem.to_json.
  destruct (CartLineItem.summary i) as [s|], (CartLineItem.price i) as [d|p|];
    (split; [reflexivity|]);
    cbn [CartLineItem.opt_member CartLineItem.price_json option_map app];
    repeat split; try exact Himg; try apply normalize_is_canonical.
Qed.

Lemma cart_to_json_well_formed (cart : list CartLineItem.t) :
  well_formed (cart_to_json cart).
Proof.
  unfold cart_to_json. induction cart as [|i cart IH]; [exact I|].
  split; [apply line_item_well_formed | exact IH].
Qed.

Lemma loadCartFromStorage_persist (v : json) :
  well_formed v -> Cart.loadCartFromStorage (Cart.persist v) = v.
Proof.
  intros Hwf. unfold Cart.loadCartFromStorage, Cart.persist.
  now rewrite stringify_truthy, parse_stringify.
Qed.



Example persist_text :
  Cart.persist (cart_to_json [priced_item (PNum (Dec 389900 2))])
  = Some (stringify (JArr [JObj [("id", JNum (of_Z 1)); ("name", JStr "Canon EOS R5");
                                 ("brand", JStr "Canon"); ("price", JNum (of_Z 3899));
                                 ("displayPrice", JStr "$1"); ("images", JArr []);
                                 ("category", JStr "Cameras")]])).
Proof. reflexivity. Qed.

(** ** Reading a missing or malformed value *)

Lemma loadCartFromStorage_recovers (st : Cart.storage) :
  st = None \/ (exists s, st = Some s /\ parse s = None) ->
  Cart.loadCartFromStorage st = JArr [].
Proof.
  intros [-> | (s & -> & Hs)]; [reflexivity|].
  unfold Cart.loadCartFromStorage. rewrite Hs. now destruct (JsString.truthy s).
Qed.

Lemma getCart_throws (s : string) :
  parse s = None -> Cart.getCart (Some s) = Cart.ThrowSyntaxError.
Proof. intros H. unfold Cart.getCart, Cart.parse_or_empty. now rewrite H. Qed.

(** C4, at a malformed stored value: the text [not json] is not JSON;
    [loadCartFromStorage] recovers with the empty cart, [getCart] throws
    the [SyntaxError] of [JSON.parse] to its caller.  Both yield the empty
    cart when the key is missing. *)
Theorem getCart_throws_on_malformed :
  parse "not json" = None
  /\ Cart.loadCartFromStorage (Some "not json"%string) = JArr []
  /\ Cart.getCart (Some "not json"%string) = Cart.ThrowSyntaxError
  /\ Cart.loadCartFromStorage None = JArr []
  /\ Cart.getCart None = Cart.Return (JArr []).
Proof. repeat split; reflexivity. Qed.

(** A stored text that is JSON but not an array is handed on as it is. *)
Example loadCartFromStorage_null :
  Cart.loadCartFromStorage (Some "null"%string) = JNull
  /\ Cart.getCart (Some "null"%string) = Cart.Return (JArr [])
  /\ Cart.loadCartFromStorage (Some "{}"%string) = JObj [].
Proof. repeat split; reflexivity. Qed.
(** ** Category filter *)

(** C5. For a category other than ["All"], [filterByCategory] returns the
    products of that category (compared exactly, case included), in their
    original order: a sublist of the input, made of the products of the
    category, and containing every such sublist.  For ["All"] it returns
    the input itself. *)
Theorem filterByCategory_exact (P : list Product.t) (c : string) (Hc : c <> "All"%string) :
  Catalog.filterByCategory P "All" = P
  /\ sublist (Catalog.filterByCategory P c) P
  /\ (forall p, p ∈ Catalog.filterByCategory P c <-> p ∈ P /\ Product.category p = c)
  /\ (forall l, sublist l P -> Forall (fun p => Product.category p = c) l ->
                sublist l (Catalog.filterByCategory P c)).
Proof.
  unfold Catalog.filterByCategory.
  apply String.eqb_neq in Hc. rewrite Hc. cbn [String.eqb Ascii.eqb Bool.eqb].
  split; [reflexivity|]. split; [apply filter_is_sublist|]. split.
  - intros p. rewrite filter_elem_of. now rewrite String.eqb_eq.
  - intros l Hl Hall. apply filter_greatest; [exact Hl|].
    apply forallb_forall. intros p Hp. apply String.eqb_eq.
    rewrite Forall_forall in Hall. apply Hall. now apply list_elem_of_In.
Qed.

Lemma filterByCategory_exact_witness :
  let P := [scenario_product 1 "Cameras"; scenario_product 2 "Lenses";
            scenario_product 3 "Cameras"] in
  Catalog.filterByCategory P "Cameras"
  = [scenario_product 1 "Cameras"; scenario_product 3 "Cameras"]
  /\ Catalog.filterByCategory P "All" = P
  /\ sublist (Catalog.filterByCategory P "Cameras") P.
Proof.
  intros P. split; [reflexivity|].
  assert (Hc : "Cameras"%string <> "All"%string) by discriminate.
  destruct (filterByCategory_exact P "Cameras" Hc) as (H1 & H2 & _).
  split; assumption.
Defined.

(** ** Search *)




(** ** Detail page *)

Lemma non_digit_radix10 (c : ascii) :
  is_digit c = false ->
  radix_digit 10 c = None /\ Ascii.eqb "0" c = false.
Proof.
  destruct c as [[] [] [] [] [] [] [] []]; intros H; try discriminate H;
    repeat split; reflexivity.
Qed.

Lemma no_digit_trimStart (s : string) : no_digit s = true -> no_digit (trimStart s) = true.
Proof.
  induction s as [|c s IH]; [reflexivity|]. intros H. cbn [trimStart].
  destruct (is_ws c); [|exact H].
  apply IH. cbn in H. now apply andb_true_iff in H.
Qed.

Lemma no_digit_take_sign (s : string) :
  no_digit s = true -> no_digit (snd (take_sign s)) = true.
Proof.
  intros H. unfold take_sign. destruct s as [|c r]; [reflexivity|].
  cbn [next_is].
  assert (Hr : no_digit r = true) by (cbn in H; now apply andb_true_iff in H).
  destruct (Ascii.eqb c "-"); [exact Hr|].
  destruct (Ascii.eqb c "+"); [exact Hr | exact H].
Qed.

Lemma parse_radix_no_digit (s : string) :
  no_digit s = true -> parse_radix 10 s None = None.
Proof.
  destruct s as [|c r]; [reflexivity|]. cbn. intros H.
  apply andb_true_iff in H as [Hc _]. apply negb_true_iff in Hc.
  now destruct (non_digit_radix10 c Hc) as [-> _].
Qed.

Lemma parseInt_no_digit (s : string) : no_digit s = true -> parseInt s = None.
Proof.
  intros H. unfold parseInt.
  pose proof (no_digit_take_sign _ (no_digit_trimStart _ H)) as Hs.
  destruct (take_sign (trimStart s)) as [neg s1]. cbn [snd] in Hs.
  assert (Hx : startsWith s1 "0x" || startsWith s1 "0X" = false).
  { destruct s1 as [|c r]; [reflexivity|]. cbn in Hs.
    apply andb_true_iff in Hs as [Hc _]. apply negb_true_iff in Hc.
    destruct (non_digit_radix10 c Hc) as [_ H0].
    cbn [startsWith]. now rewrite H0. }
  rewrite Hx. now rewrite parse_radix_no_digit.
Qed.




(* ================================================================== *)
(** * Part III: the pages around the cart *)
(* ================================================================== *)

(** ** Shipping tiers *)

Lemma calculateShipping_cases (n : Z) :
  (n <= 0 /\ Cart.calculateShipping n = 0)
  \/ (n = 1 /\ Cart.calculateShipping n = 170)
  \/ (n = 2 /\ Cart.calculateShipping n = 220)
  \/ (3 <= n <= 5 /\ Cart.calculateShipping n = 270)
  \/ (6 <= n /\ Cart.calculateShipping n = 350).
Proof.
  unfold Cart.calculateShipping, Cart.SHIPPING_RATES.BASE, Cart.SHIPPING_RATES.ONE_ITEM,
    Cart.SHIPPING_RATES.TWO_ITEMS, Cart.SHIPPING_RATES.THREE_TO_FIVE,
    Cart.SHIPPING_RATES.SIX_PLUS.
  destruct (Z.eqb_spec n 0); [left; lia|].
  destruct (Z.eqb_spec n 1); [right; left; lia|].
  destruct (Z.eqb_spec n 2); [right; right; left; lia|].
  destruct (Z.leb_spec 3 n), (Z.leb_spec n 5); cbn [andb];
    try (right; right; right; left; lia);
    destruct (Z.leb_spec 6 n); try lia;
    try (right; right; right; right; lia); left; lia.
Qed.

(** X1. The shipping charge never decreases when the number of items grows,
    it stays between 0 and 350, and it is 0 for the empty cart only. *)
Theorem shipping_monotone :
  (forall n m : Z, n <= m -> Cart.calculateShipping n <= Cart.calculateShipping m)
  /\ (forall n : Z, 0 <= Cart.calculateShipping n <= 350)
  /\ (forall cart, Cart.shipping (Cart.calculateCart cart) = 0 <-> cart = [])
  /\ (forall cart product,
        Cart.shipping (Cart.calculateCart cart)
        <= Cart.shipping (Cart.calculateCart (fst (Cart.addToCart cart product))))
  /\ (forall cart index,
        Cart.shipping (Cart.calculateCart (fst (Cart.removeItemFromCart cart index)))
        <= Cart.shipping (Cart.calculateCart cart)).
Proof.
  assert (Hmono : forall n m : Z, n <= m -> Cart.calculateShipping n <= Cart.calculateShipping m).
  { intros n m Hnm.
    destruct (calculateShipping_cases n) as [[? ->]|[[? ->]|[[? ->]|[[? ->]|[? ->]]]]],
             (calculateShipping_cases m) as [[? ->]|[[? ->]|[[? ->]|[[? ->]|[? ->]]]]]; lia. }
  split; [exact Hmono|]. split; [|split; [|split]].
  - intros n. destruct (calculateShipping_cases n) as [[? ->]|[[? ->]|[[? ->]|[[? ->]|[? ->]]]]]; lia.
  - intros cart. cbn [Cart.calculateCart Cart.shipping]. split.
    + intros H. destruct cart as [|x cart]; [reflexivity|].
      destruct (calculateShipping_cases (Z.of_nat (length (x :: cart))))
        as [[? E]|[[? E]|[[? E]|[[? E]|[? E]]]]]; rewrite E in H; cbn [length] in *; lia.
    + intros ->. reflexivity.
  - intros cart product. cbn [Cart.calculateCart Cart.shipping]. apply Hmono.
    unfold Cart.addToCart.
    destruct (negb _); cbn [fst]; [lia|]. rewrite length_app. cbn [length]. lia.
  - intros cart index. cbn [Cart.calculateCart Cart.shipping]. apply Hmono.
    unfold Cart.removeItemFromCart.
    destruct (_ || _); cbn [fst]; [lia|].
    destruct (cart !! Z.to_nat index) eqn:E; cbn [fst]; [|lia].
    rewrite length_delete by (eexists; exact E). apply lookup_lt_Some in E. lia.
Qed.

(** ** Adding to the stored cart *)

Lemma parse_or_empty_persist (v : json) :
  well_formed v ->
  Cart.parse_or_empty (Cart.persist v) = Cart.Return (if Json.truthy v then v else JArr []).
Proof.
  intros Hwf. unfold Cart.parse_or_empty, Cart.persist. now rewrite parse_stringify.
Qed.

Lemma parse_or_empty_well_formed (st : Cart.storage) (v : json) :
  Cart.parse_or_empty st = Cart.Return v -> well_formed v.
Proof.
  unfold Cart.parse_or_empty.
  destruct (parse _) as [w|] eqn:E; [|discriminate]. intros [= <-].
  destruct (Json.truthy w); [exact (parse_well_formed _ _ E) | exact I].
Qed.

Lemma get_id_line_item (item : CartLineItem.t) :
  Store.get_id (CartLineItem.to_json item) = Ok (Some (JNum (of_Z (CartLineItem.id item)))).
Proof. reflexivity. Qed.

Lemma id_is_integer (pid id : Z) :
  Store.id_is pid (Some (JNum (of_Z id))) = (id =? pid).
Proof.
  unfold Store.id_is, Store.dec_eqb, of_Z. cbn [mant fdigits Z.of_nat].
  now rewrite !Z.mul_1_r.
Qed.

Lemma findIndex_id_cart (pid : Z) (cart : list CartLineItem.t) :
  Store.findIndex_id pid (map CartLineItem.to_json cart)
  = Ok (Cart.findIndex (fun item => CartLineItem.id item =? pid) cart).
Proof.
  induction cart as [|item cart IH]; [reflexivity|].
  cbn [map Store.findIndex_id Cart.findIndex].
  rewrite get_id_line_item, id_is_integer, IH.
  now destruct (CartLineItem.id item =? pid).
Qed.

Lemma findIndex_id_range (pid : Z) (items : list json) (i : Z) :
  Store.findIndex_id pid items = Ok i -> i = -1 \/ 0 <= i.
Proof.
  revert i. induction items as [|x items IH]; intros i; cbn [Store.findIndex_id].
  - intros [= <-]. now left.
  - destruct (Store.get_id x) as [v|e]; [|discriminate].
    destruct (Store.id_is pid v); [intros [= <-]; right; lia|].
    destruct (Store.findIndex_id pid items) as [j|e]; [|discriminate].
    intros [= <-]. destruct (IH j eq_refl) as [->|Hj]; [now left|].
    destruct (Z.eqb_spec j (-1)); [now left | right; lia].
Qed.


(** X2. On a storage that holds a cart of line items, [addToCart] of
    [detail.js] stores what [Cart.addToCart] computes and tells the user
    its outcome; on an empty storage it stores the product alone. *)
Theorem addToCart_on_stored_cart (cart : list CartLineItem.t) (product : Product.t) :
  Store.addToCart (Cart.persist (cart_to_json cart)) product
  = (Cart.persist (cart_to_json (fst (Cart.addToCart cart product))),
     match snd (Cart.addToCart cart product) with
     | Cart.Added => Store.added product
     | Cart.AlreadyPresent => Store.already product
     end)
  /\ Store.addToCart None product
     = (Cart.persist (cart_to_json [Cart.cartProduct product]), Store.added product).
Proof.
  split; [|reflexivity].
  unfold Store.addToCart.
  rewrite parse_or_empty_persist by apply cart_to_json_well_formed.
  cbn [Json.truthy cart_to_json]. rewrite findIndex_id_cart.
  unfold Cart.addToCart.
  destruct (negb _); cbn [fst snd]; [reflexivity|].
  unfold cart_to_json. now rewrite map_app.
Qed.

Lemma addToCart_cases (st : Cart.storage) (product : Product.t) :
  (exists items,
     Cart.parse_or_empty st = Cart.Return (JArr items)
     /\ Store.findIndex_id (Product.id product) items = Ok (-1)
     /\ Store.addToCart st product
        = (Cart.persist (JArr (items ++ [CartLineItem.to_json (Cart.cartProduct product)])),
           Store.added product))
  \/ (Store.addToCart st product = (st, Store.already product)
      /\ exists items i,
           Cart.parse_or_empty st = Cart.Return (JArr items)
           /\ Store.findIndex_id (Product.id product) items = Ok i /\ 0 <= i)
  \/ (Store.addToCart st product = (st, Store.failed)
      /\ (Cart.parse_or_empty st = Cart.ThrowSyntaxError
          \/ (exists v, Cart.parse_or_empty st = Cart.Return v
                        /\ forall items, v <> JArr items)
          \/ (exists items e,
                Cart.parse_or_empty st = Cart.Return (JArr items)
                /\ Store.findIndex_id (Product.id product) items = Throw e))).
Proof.
  unfold Store.addToCart.
  destruct (Cart.parse_or_empty st) as [v|] eqn:Ev.
  2:{ right; right. split; [reflexivity | now left]. }
  destruct v as [| | | |items|];
    try (right; right; split; [reflexivity|]; right; left; eexists; split;
         [reflexivity | discriminate]).
  destruct (Store.findIndex_id (Product.id product) items) as [i|e] eqn:Ei.
  2:{ right; right. split; [reflexivity|]. right; right. now exists items, e. }
  destruct (Z.eqb_spec i (-1)) as [->|Hi]; cbn [negb].
  - left. now exists items.
  - right; left. split; [reflexivity|]. exists items, i. split; [reflexivity|].
    split; [exact Ei|]. destruct (findIndex_id_range _ _ _ Ei); lia.
Qed.

Lemma added_not_already (product : Product.t) : Store.added product <> Store.already product.
Proof. discriminate. Qed.

Lemma added_not_failed (product : Product.t) : Store.added product <> Store.failed.
Proof. discriminate. Qed.

Lemma appended_well_formed (st : Cart.storage) (items : list json) (product : Product.t) :
  Cart.parse_or_empty st = Cart.Return (JArr items) ->
  well_formed (JArr (items ++ [CartLineItem.to_json (Cart.cartProduct product)])).
Proof.
  intros Ev. apply parse_or_empty_well_formed in Ev.
  apply well_formed_array, Forall_app. split; [now apply well_formed_array|].
  constructor; [apply line_item_well_formed | constructor].
Qed.



(** ** The cart badge *)

(** X5. [updateCartCount] returns the number of items of a stored cart and
    hides the badges exactly when there is none; it counts a missing key
    as an empty cart; on a text that is not JSON it returns 0 and leaves
    the badges as they were.  After [clearCart] the count is 0, the
    badges are hidden and [getCart] yields the empty cart. *)
Theorem updateCartCount_of_cart (cart : list CartLineItem.t) (st : Cart.storage) :
  let n := Z.of_nat (length cart) in
  Store.updateCartCount (Cart.persist (cart_to_json cart))
  = (Some (JNum (of_Z n)), Store.BadgesSet (Some (JNum (of_Z n))) (n =? 0))
  /\ ((n =? 0) = true <-> cart = [])
  /\ Store.updateCartCount None
     = (Some (JNum (of_Z 0)), Store.BadgesSet (Some (JNum (of_Z 0))) true)
  /\ (Cart.getCart st = Cart.ThrowSyntaxError ->
      Store.updateCartCount st = (Some (JNum (of_Z 0)), Store.BadgesUntouched))
  /\ Store.clearCart st = (None, Store.BadgesSet (Some (JNum (of_Z 0))) true)
  /\ Cart.getCart (fst (Store.clearCart st)) = Cart.Return (JArr [])
  /\ Cart.loadCartFromStorage (fst (Store.clearCart st)) = JArr [].
Proof.
  intros n. split; [|split; [|split; [|split; [|split; [|split]]]]]; try reflexivity.
  - unfold Store.updateCartCount.
    rewrite parse_or_empty_persist by apply cart_to_json_well_formed.
    cbn [Json.truthy cart_to_json Store.length_of Store.is_zero of_Z mant].
    rewrite length_map. reflexivity.
  - subst n. destruct cart; cbn [length]; [split; reflexivity|].
    split; [intros H; apply Z.eqb_eq in H; lia | discriminate].
  - unfold Cart.getCart, Store.updateCartCount. now intros ->.
Qed.

(** X6. When [addToCart] reports a product as added, the count that
    [updateCartCount] returns afterwards is the count before plus one. *)
Theorem updateCartCount_after_add (st : Cart.storage) (product : Product.t) :
  snd (Store.addToCart st product) = Store.added product ->
  exists n : Z,
    0 <= n
    /\ fst (Store.updateCartCount st) = Some (JNum (of_Z n))
    /\ fst (Store.updateCartCount (fst (Store.addToCart st product)))
       = Some (JNum (of_Z (n + 1))).
Proof.
  intros Hadded.
  destruct (addToCart_cases st product)
    as [(items & Ev & Ei & E)|[(E & _)|(E & _)]]; rewrite E in *; cbn [fst snd] in *.
  - exists (Z.of_nat (length items)). split; [lia|].
    unfold Store.updateCartCount. rewrite Ev.
    rewrite parse_or_empty_persist by (eapply appended_well_formed; eassumption).
    cbn [Json.truthy Store.length_of fst]. split; [reflexivity|].
    rewrite length_app. cbn [length]. do 3 f_equal. lia.
  - symmetry in Hadded. now apply added_not_already in Hadded.
  - symmetry in Hadded. now apply added_not_failed in Hadded.
Qed.

Lemma updateCartCount_after_add_witness :
  exists n : Z,
    0 <= n
    /\ fst (Store.updateCartCount None) = Some (JNum (of_Z n))
    /\ fst (Store.updateCartCount (fst (Store.addToCart None lens_50mm)))
       = Some (JNum (of_Z (n + 1))).
Proof. apply (updateCartCount_after_add None lens_50mm). reflexivity. Defined.

(** ** What the cart page displays *)

Lemma refresh_keeps (dom : CartView.Elements) (s : CartView.t) :
  CartView.cart
    (CartView.toggleEmptyCartMessage dom
       (CartView.updateSummary dom
          (CartView.displayCartItems dom (CartView.calculateCart s))))
  = CartView.cart s
  /\ CartView.storage
       (CartView.toggleEmptyCartMessage dom
          (CartView.updateSummary dom
             (CartView.displayCartItems dom (CartView.calculateCart s))))
     = CartView.storage s.
Proof.
  destruct s as [cart totals st items summary disabled], dom as [[|] [|] [|]].
  all: unfold CartView.toggleEmptyCartMessage, CartView.updateSummary,
         CartView.displayCartItems, CartView.calculateCart.
  all: destruct cart as [|item cart]; cbn; split; reflexivity.
Qed.

Lemma refresh_shows_cart (s : CartView.t) :
  let dom := CartView.mkElements true true true in
  CartView.shows_cart
    (CartView.toggleEmptyCartMessage dom
       (CartView.updateSummary dom
          (CartView.displayCartItems dom (CartView.calculateCart s))))
  /\ CartView.cart
       (CartView.toggleEmptyCartMessage dom
          (CartView.updateSummary dom
             (CartView.displayCartItems dom (CartView.calculateCart s))))
     = CartView.cart s
  /\ CartView.storage
       (CartView.toggleEmptyCartMessage dom
          (CartView.updateSummary dom
             (CartView.displayCartItems dom (CartView.calculateCart s))))
     = CartView.storage s.
Proof.
  destruct s as [cart totals st items summary disabled].
  unfold CartView.shows_cart, CartView.toggleEmptyCartMessage, CartView.updateSummary,
    CartView.displayCartItems, CartView.calculateCart.
  destruct cart as [|item cart]; cbn; repeat split; reflexivity.
Qed.

Lemma removeItemFromCart_shows_cart (s : CartView.t) (index : Z) :
  let dom := CartView.mkElements true true true in
  let s' := CartView.removeItemFromCart dom s index in
  (CartView.shows_cart s -> CartView.shows_cart s')
  /\ sublist (CartView.cart s') (CartView.cart s)
  /\ ((length (CartView.cart s') < length (CartView.cart s))%nat
      /\ CartView.storage s' = Cart.persist (cart_to_json (CartView.cart s'))
      \/ s' = s).
Proof.
  intros dom s'. subst s'. unfold CartView.removeItemFromCart.
  pose proof (removeItemFromCart_sublist (CartView.cart s) index) as Hsub.
  destruct (Cart.removeItemFromCart (CartView.cart s) index) as [cart' [|name]] eqn:E;
    cbn [fst] in Hsub.
  - split; [auto|]. split; [reflexivity | now right].
  - match goal with |- context [CartView.calculateCart ?x] =>
      destruct (refresh_shows_cart x) as (Hshow & Hcart & Hst) end.
    cbv zeta in Hshow, Hcart, Hst. fold dom in Hshow, Hcart, Hst.
    split; [intros _; exact Hshow|]. rewrite Hcart, Hst. cbn [CartView.cart CartView.storage].
    split; [exact Hsub|]. left. split; [|reflexivity].
    unfold Cart.removeItemFromCart in E.
    destruct (_ || _); [discriminate E|].
    destruct (CartView.cart s !! Z.to_nat index) eqn:El; [|discriminate E].
    injection E as <- _. rewrite length_delete by (eexists; exact El).
    apply lookup_lt_Some in El. lia.
Qed.

Lemma removals_show_cart (loaded : list CartLineItem.t) (st : Cart.storage) (indices : list Z) :
  let dom := CartView.mkElements true true true in
  let s := fold_left (CartView.removeItemFromCart dom) indices
             (CartView.initializeCart dom loaded st) in
  CartView.shows_cart s
  /\ sublist (CartView.cart s) loaded
  /\ (CartView.cart s = loaded /\ CartView.storage s = st
      \/ (length (CartView.cart s) < length loaded)%nat
         /\ CartView.storage s = Cart.persist (cart_to_json (CartView.cart s))).
Proof.
  intros dom. induction indices as [|index indices IH] using rev_ind; intros s; subst s.
  - cbn [fold_left]. unfold CartView.initializeCart.
    match goal with |- context [CartView.calculateCart ?x] =>
      destruct (refresh_shows_cart x) as (Hshow & Hcart & Hst) end.
    cbv zeta in Hshow, Hcart, Hst. fold dom in Hshow, Hcart, Hst.
    rewrite Hcart, Hst. cbn [CartView.cart CartView.storage].
    split; [exact Hshow|]. split; [reflexivity | now left].
  - rewrite fold_left_app. cbn [fold_left]. cbv zeta in IH.
    set (s := fold_left (CartView.removeItemFromCart dom) indices
                (CartView.initializeCart dom loaded st)) in *.
    destruct IH as (Hshow & Hsub & Hst).
    destruct (removeItemFromCart_shows_cart s index) as (Hshow' & Hsub' & Hst').
    cbv zeta in Hshow', Hsub', Hst'. fold dom in Hshow', Hsub', Hst'.
    split; [exact (Hshow' Hshow)|]. split; [etransitivity; eassumption|].
    destruct Hst' as [[Hlen Hstore]| ->]; [|exact Hst].
    right. split; [|exact Hstore].
    apply sublist_length in Hsub. lia.
Qed.

(** X7. On a page that has the elements of the cart, after any sequence of
    removals the page shows the cart it holds, which is a sublist of the
    cart it loaded: one card per item in order and never a stale one, the
    totals of these items in the summary, the checkout button disabled
    exactly when no item is left.  So the checkout of an enabled button
    always asks for confirmation, and once an item has been removed the
    storage holds the cart of the page. *)
Theorem cart_page_shows_its_cart
  (loaded : list CartLineItem.t) (st : Cart.storage) (indices : list Z) :
  let dom := CartView.mkElements true true true in
  let s := fold_left (CartView.removeItemFromCart dom) indices
             (CartView.initializeCart dom loaded st) in
  CartView.shows_cart s
  /\ sublist (CartView.cart s) loaded
  /\ (CartView.checkoutDisabled s = Some false ->
      CartView.handleCheckout s
      = CartView.Confirm ("Proceed to checkout? Total: $"
                          +:+ toFixed2 (Cart.total (Cart.calculateCart (CartView.cart s)))))
  /\ (CartView.cart s = loaded /\ CartView.storage s = st
      \/ (length (CartView.cart s) < length loaded)%nat
         /\ CartView.storage s = Cart.persist (cart_to_json (CartView.cart s))).
Proof.
  intros dom s.
  destruct (removals_show_cart loaded st indices) as (Hshow & Hsub & Hst).
  fold dom in Hshow, Hsub, Hst. fold s in Hshow, Hsub, Hst.
  split; [exact Hshow|]. split; [exact Hsub|]. split; [|exact Hst].
  intros Hen. destruct Hshow as (Htot & _ & _ & Hdis).
  unfold CartView.handleCheckout. rewrite Htot.
  rewrite Hdis in Hen.
  destruct (CartView.cart s) as [|item rest]; [discriminate Hen | reflexivity].
Qed.

(** ** Adding and removing *)

Lemma findIndex_absent (pid : Z) (cart : list CartLineItem.t) :
  pid ∉ (CartLineItem.id <$> cart) ->
  Cart.findIndex (fun item => CartLineItem.id item =? pid) cart = -1.
Proof.
  induction cart as [|x cart IH]; [reflexivity|]. cbn [fmap list_fmap Cart.findIndex].
  rewrite not_elem_of_cons. intros [Hx Hr].
  destruct (Z.eqb_spec (CartLineItem.id x) pid) as [E|E]; [now contradiction Hx|].
  now rewrite (IH Hr).
Qed.

(** X8. Removing the item that [addToCart] has just appended gives back the
    cart as it was, with the name of the product in the message. *)
Theorem add_then_remove_restores (cart : list CartLineItem.t) (product : Product.t) :
  snd (Cart.addToCart cart product) = Cart.Added ->
  Cart.removeItemFromCart (fst (Cart.addToCart cart product)) (Z.of_nat (length cart))
  = (cart, Cart.Removed (Product.name product)).
Proof.
  unfold Cart.addToCart. destruct (negb _); cbn [fst snd]; [discriminate|]. intros _.
  unfold Cart.removeItemFromCart. rewrite length_app. cbn [length].
  destruct (Z.ltb_spec (Z.of_nat (length cart)) 0); [lia|].
  destruct (Z.leb_spec (Z.of_nat (length cart + 1)) (Z.of_nat (length cart))); [lia|].
  cbn [orb]. rewrite Nat2Z.id.
  rewrite lookup_app_r by lia. rewrite Nat.sub_diag. cbn [lookup list_lookup].
  f_equal. rewrite delete_take_drop, take_app_length.
  rewrite drop_app_ge by lia. replace (S (length cart) - length cart)%nat with 1%nat by lia.
  cbn. apply app_nil_r.
Qed.

Lemma add_then_remove_restores_witness :
  Cart.removeItemFromCart (fst (Cart.addToCart [priced_item PMissing] lens_50mm)) 1
  = ([priced_item PMissing], Cart.Removed "RF 50mm F1.8").
Proof. apply (add_then_remove_restores [priced_item PMissing] lens_50mm). reflexivity. Defined.

(** X9. A removal on the cart page overwrites what another page has stored
    since the cart page opened: a product added from its detail page in
    the meantime is no longer in the stored cart, which holds the cart of
    the page without the removed item. *)
Theorem removal_overwrites_later_addition (dom : CartView.Elements)
  (cart : list CartLineItem.t) (product : Product.t) (index : nat) :
  (index < length cart)%nat ->
  Product.id product ∉ (CartLineItem.id <$> cart) ->
  let opened := Cart.persist (cart_to_json cart) in
  let page := CartView.initializeCart dom cart opened in
  let meanwhile := Store.addToCart opened product in
  let after := CartView.removeItemFromCart dom
                 (CartView.written_elsewhere page (fst meanwhile)) (Z.of_nat index) in
  meanwhile
  = (Cart.persist (cart_to_json (cart ++ [Cart.cartProduct product])), Store.added product)
  /\ CartView.storage after = Cart.persist (cart_to_json (delete index cart))
  /\ Cart.loadCartFromStorage (CartView.storage after) = cart_to_json (delete index cart)
  /\ Product.id product ∉ (CartLineItem.id <$> delete index cart).
Proof.
  intros Hi Hid opened page meanwhile after.
  assert (Hafter : CartView.storage after = Cart.persist (cart_to_json (delete index cart))).
  { subst after. unfold CartView.removeItemFromCart, CartView.written_elsewhere.
    cbn [CartView.cart]. subst page. unfold CartView.initializeCart.
    match goal with |- context [CartView.calculateCart ?x] =>
      destruct (refresh_keeps dom x) as (-> & _) end.
    cbn [CartView.cart]. unfold Cart.removeItemFromCart.
    destruct (Z.ltb_spec (Z.of_nat index) 0); [lia|].
    destruct (Z.leb_spec (Z.of_nat (length cart)) (Z.of_nat index)); [lia|].
    cbn [orb]. rewrite Nat2Z.id.
    destruct (lookup_lt_is_Some_2 cart index Hi) as [item ->].
    match goal with |- context [CartView.calculateCart ?x] =>
      destruct (refresh_keeps dom x) as (_ & ->) end.
    reflexivity. }
  split; [|split; [exact Hafter|split]].
  - subst meanwhile opened. unfold Store.addToCart.
    rewrite parse_or_empty_persist by apply cart_to_json_well_formed.
    cbn [Json.truthy cart_to_json]. rewrite findIndex_id_cart, findIndex_absent by assumption.
    cbn [Z.eqb negb]. unfold cart_to_json. now rewrite map_app.
  - rewrite Hafter. apply loadCartFromStorage_persist, cart_to_json_well_formed.
  - intros Hin. apply Hid.
    eapply elem_of_sublist; [exact Hin|]. apply fmap_sublist, sublist_delete.
Qed.

Lemma removal_overwrites_later_addition_witness :
  let dom := CartView.mkElements true true true in
  let cart := [priced_item (PNum (of_Z 10))] in
  let opened := Cart.persist (cart_to_json cart) in
  Cart.loadCartFromStorage
    (CartView.storage
       (CartView.removeItemFromCart dom
          (CartView.written_elsewhere (CartView.initializeCart dom cart opened)
             (fst (Store.addToCart opened lens_50mm))) 0))
  = cart_to_json [].
Proof.
  intros dom cart opened.
  refine (proj1 (proj2 (proj2 (removal_overwrites_later_addition dom cart lens_50mm 0 _ _)))).
  - cbn. lia.
  - cbn. rewrite not_elem_of_cons. split; [discriminate | apply not_elem_of_nil].
Defined.

(** ** The price text as a price *)

Lemma normalize_idem (m : Z) (k : nat) :
  normalize (mant (normalize m k)) (fdigits (normalize m k)) = normalize m k.
Proof.
  pose proof (normalize_is_canonical m k) as H.
  apply canonical_spec in H. rewrite normalize_canonical by exact H.
  now destruct (normalize m k).
Qed.

Lemma normalize_zero (m : Z) (k : nat) :
  mant (normalize m k) = 0 -> normalize m k = Dec 0 0.
Proof.
  revert m. induction k as [|k IH]; intros m; cbn [normalize].
  - cbn. now intros ->.
  - destruct (Z.eqb_spec (m mod 10) 0) as [E|E]; [apply IH|].
    cbn. intros ->. now contradiction E.
Qed.

Lemma add_zero_l (m : Z) (k : nat) :
  add zero (Num (Dec m k)) = Num (normalize m k).
Proof.
  unfold add, zero, of_Z, dec_add. cbn [mant fdigits Nat.max].
  rewrite Nat.sub_diag. f_equal. f_equal. cbn. lia.
Qed.

(** X10. The price text shown for a product with a numeric price and no
    [displayPrice] is charged as that price when a cart holds it in place
    of the number. *)
Theorem priceLabel_reads_back (product : Product.t) (d : decimal) (item : CartLineItem.t) :
  Product.price product = PNum d ->
  Product.displayPrice product = None ->
  CartLineItem.price item = PStr (Listing.priceLabel product) ->
  Cart.calculateCart [item] = Cart.calculateCart [Cart.cartProduct product].
Proof.
  intros Hp Hd Hi. unfold Cart.calculateCart. cbn [fold_left length].
  assert (H : add zero (Cart.price_of item) = add zero (Cart.price_of (Cart.cartProduct product))).
  { unfold Listing.priceLabel in Hi. rewrite Hd, Hp in Hi. cbn [Cart.price_text] in Hi.
    rewrite (price_of_currency_text item d Hi).
    unfold Cart.price_of, Cart.cartProduct. cbn [CartLineItem.price]. rewrite Hp.
    destruct d as [m k]. cbn [mant fdigits]. rewrite add_zero_l.
    unfold Spec.parsed_or_zero.
    destruct (Z.eqb_spec (mant (normalize m k)) 0) as [E|E].
    - rewrite (normalize_zero _ _ E). reflexivity.
    - destruct (normalize m k) as [m' k'] eqn:En. rewrite add_zero_l.
      rewrite <- En. f_equal. rewrite <- (normalize_idem m k). now rewrite En. }
  now rewrite H.
Qed.

Lemma priceLabel_reads_back_witness :
  Cart.calculateCart [priced_item (PStr "$2499")]
  = Cart.calculateCart [Cart.cartProduct sony_a7].
Proof.
  apply (priceLabel_reads_back sony_a7 (of_Z 2499) (priced_item (PStr "$2499")));
    reflexivity.
Defined.

(** ** Totals of the stored cart *)

Lemma normalize_scaled (m : Z) (k j : nat) :
  normalize (m * 10 ^ Z.of_nat j) (k + j) = normalize m k.
Proof.
  induction j as [|j IH].
  - rewrite Nat.add_0_r. cbn. now rewrite Z.mul_1_r.
  - rewrite Nat.add_succ_r. cbn [normalize].
    rewrite Nat2Z.inj_succ, Z.pow_succ_r by lia.
    replace (m * (10 * 10 ^ Z.of_nat j)) with (m * 10 ^ Z.of_nat j * 10) by lia.
    rewrite Z.mod_mul by lia. cbn [Z.eqb]. rewrite Z.div_mul by lia. exact IH.
Qed.

Lemma normalize_value (m : Z) (k : nat) :
  exists j : nat,
    (fdigits (normalize m k) + j = k)%nat
    /\ m = mant (normalize m k) * 10 ^ Z.of_nat j.
Proof.
  revert m. induction k as [|k IH]; intros m; cbn [normalize].
  - exists 0%nat. cbn. split; [reflexivity | lia].
  - destruct (Z.eqb_spec (m mod 10) 0) as [E|E].
    + destruct (IH (m / 10)) as (j & Hj & Hm). exists (S j). split; [lia|].
      rewrite Nat2Z.inj_succ, Z.pow_succ_r by lia.
      pose proof (Z.div_mod m 10 ltac:(lia)) as Hdm. rewrite E in Hdm.
      rewrite Hdm at 1. rewrite Hm at 1. lia.
    + exists 0%nat. cbn. split; [lia | lia].
Qed.

Lemma dec_add_normalize (a : decimal) (m : Z) (k : nat) :
  dec_add a (normalize m k) = dec_add a (Dec m k).
Proof.
  destruct (normalize_value m k) as (j & Hj & Hm).
  destruct (normalize m k) as [m' k']. cbn [mant fdigits] in *.
  unfold dec_add. cbn [mant fdigits].
  set (K' := Nat.max (fdigits a) k'). set (K := Nat.max (fdigits a) k).
  assert (Hd : exists i : nat, (K' + i = K)%nat) by (exists (K - K')%nat; lia).
  destruct Hd as [i Hi]. rewrite <- Hi, <- (normalize_scaled _ K' i). f_equal.
  rewrite Z.mul_add_distr_r, <- !Z.mul_assoc, <- !Z.pow_add_r by lia.
  rewrite Hm, <- Z.mul_assoc, <- Z.pow_add_r by lia.
  f_equal; f_equal; f_equal; lia.
Qed.

Lemma add_normalize (x : number) (m : Z) (k : nat) :
  add x (Num (normalize m k)) = add x (Num (Dec m k)).
Proof. destruct x as [| | |a]; try reflexivity. cbn [add]. now rewrite dec_add_normalize. Qed.

Lemma price_of_line_item (item : CartLineItem.t) (x : number) :
  exists price,
    CartJson.price_of (CartLineItem.to_json item) = Ok price
    /\ add x price = add x (Cart.price_of item).
Proof.
  unfold CartJson.price_of, CartJson.get_price, CartLineItem.to_json, Cart.price_of.
  destruct (CartLineItem.summary item) as [sm|], (CartLineItem.price item) as [[m k]|s|];
    cbn [CartLineItem.opt_member option_map CartLineItem.price_json app obj_get String.eqb
         Ascii.eqb Bool.eqb mant fdigits];
    try (eexists; split; [reflexivity | apply add_normalize]);
    try (eexists; split; [reflexivity | reflexivity]);
    destruct s; eexists; split; reflexivity.
Qed.

Lemma sum_prices_cart (cart : list CartLineItem.t) (x : number) :
  CartJson.sum_prices (map CartLineItem.to_json cart) x
  = Ok (fold_left (fun acc item => add acc (Cart.price_of item)) cart x).
Proof.
  revert x. induction cart as [|item cart IH]; intros x; [reflexivity|].
  cbn [map CartJson.sum_prices fold_left].
  destruct (price_of_line_item item x) as (price & -> & <-). apply IH.
Qed.

(** X11. On a cart stored by the program, the cart page computes the totals
    of [Cart.calculateCart]. *)
Theorem totals_of_stored_cart (cart : list CartLineItem.t) :
  CartJson.loadAndCalculate (Cart.persist (cart_to_json cart)) = Ok (Cart.calculateCart cart).
Proof.
  unfold CartJson.loadAndCalculate.
  rewrite loadCartFromStorage_persist by apply cart_to_json_well_formed.
  unfold CartJson.calculateCart, cart_to_json, Cart.calculateCart.
  now rewrite sum_prices_cart, length_map.
Qed.

(** X12. The cart page recovers from a missing key, an empty text and a text
    that is not JSON, which it takes for an empty cart; a text that is
    JSON but no array makes [calculateCart] throw, even [null], which
    [getCart] takes for an empty cart. *)
Theorem cart_page_needs_an_array (s : string) :
  CartJson.loadAndCalculate None = Ok (Cart.calculateCart [])
  /\ (parse s = None -> CartJson.loadAndCalculate (Some s) = Ok (Cart.calculateCart []))
  /\ (forall v, parse s = Some v -> (forall items, v <> JArr items) ->
        CartJson.loadAndCalculate (Some s) = Throw TypeError)
  /\ CartJson.loadAndCalculate (Some "null"%string) = Throw TypeError
  /\ Cart.getCart (Some "null"%string) = Cart.Return (JArr []).
Proof.
  split; [reflexivity|]. split; [|split; [|split; reflexivity]].
  - intros Hp. unfold CartJson.loadAndCalculate, Cart.loadCartFromStorage. rewrite Hp.
    now destruct (JsString.truthy s).
  - intros v Hp Hv. unfold CartJson.loadAndCalculate, Cart.loadCartFromStorage. rewrite Hp.
    destruct s as [|c s]; [discriminate Hp|]. cbn [JsString.truthy].
    destruct v; try reflexivity. now contradiction (Hv items).
Qed.

(** ** The texts of the summary *)










(** ** Integers as text, and back through [parseInt] *)

Lemma length_digits (k : nat) (n : N) :
  (n < 10 ^ N.of_nat (S k))%N -> (String.length (digits n) <= S k)%nat.
Proof.
  revert n. induction k as [|k IH]; intros n Hn.
  - rewrite digits_small by (change (10 ^ N.of_nat 1)%N with 10%N in Hn; lia).
    cbn. lia.
  - destruct (N.ltb_spec n 10) as [Hs|Hl].
    + rewrite digits_small by assumption. cbn. lia.
    + rewrite digits_step, length_append by assumption. cbn [String.length].
      assert (n / 10 < 10 ^ N.of_nat (S k))%N.
      { apply N.Div0.div_lt_upper_bound.
        rewrite <- N.pow_succ_r', <- Nat2N.inj_succ. exact Hn. }
      specialize (IH _ H). lia.
Qed.

Lemma print_decimal_integer (z : Z) :
  0 <= z < 10 ^ 21 -> print_decimal (of_Z z) = digits (Z.to_N z).
Proof.
  intros Hz. unfold print_decimal, of_Z. cbn [mant fdigits normalize].
  unfold print_canonical. cbn [mant fdigits].
  destruct (Z.ltb_spec z 0); [lia|].
  replace (Z.abs_N z) with (Z.to_N z) by lia.
  unfold print_unsigned.
  assert (Hlen : (String.length (digits (Z.to_N z)) <= 21)%nat).
  { apply (length_digits 20). change (10 ^ N.of_nat 21)%N with (Z.to_N (10 ^ 21)). lia. }
  destruct (Z.leb_spec (Z.of_nat (String.length (digits (Z.to_N z))) - Z.of_nat 0) (-6)); [lia|].
  destruct (Z.ltb_spec 21 (Z.of_nat (String.length (digits (Z.to_N z))) - Z.of_nat 0)); [lia|].
  reflexivity.
Qed.

Lemma digit_radix10 (c : ascii) :
  is_digit c = true ->
  radix_digit 10 c = Some (digit_val c) /\ is_ws c = false
  /\ Ascii.eqb c "-" = false /\ Ascii.eqb c "+" = false.
Proof.
  destruct c as [[] [] [] [] [] [] [] []]; intros H; try discriminate H;
    repeat split; reflexivity.
Qed.

Lemma parse_radix_digits (s : string) (a : N) :
  all_digits s = true -> parse_radix 10 s (Some a) = Some (digits_value a s).
Proof.
  revert a. induction s as [|c s IH]; intros a H; [reflexivity|].
  cbn in H. apply andb_true_iff in H as [Hc Hs].
  cbn [parse_radix digits_value]. destruct (digit_radix10 c Hc) as (-> & _).
  now apply IH.
Qed.

Lemma parseInt_all_digits (c : ascii) (r : string) :
  all_digits (String c r) = true ->
  (c = "0"%char -> r = EmptyString) ->
  parseInt (String c r) = Some (Z.of_N (digits_value 0 (String c r))).
Proof.
  intros H Hz. cbn in H. apply andb_true_iff in H as [Hc Hr].
  destruct (digit_radix10 c Hc) as (Hd & Hw & Hm & Hp).
  unfold parseInt. cbn [trimStart]. rewrite Hw. unfold take_sign. cbn [next_is].
  rewrite Hm, Hp.
  assert (Hx : startsWith (String c r) "0x" || startsWith (String c r) "0X" = false).
  { cbn [startsWith]. destruct (Ascii.eqb_spec "0" c) as [<-|]; [|reflexivity].
    rewrite (Hz eq_refl). reflexivity. }
  rewrite Hx. cbn [parse_radix]. rewrite Hd.
  rewrite parse_radix_digits by assumption. cbn [digits_value].
  now rewrite N.mul_0_l, N.add_0_l.
Qed.

Lemma parseInt_digits (n : N) : parseInt (digits n) = Some (Z.of_N n).
Proof.
  pose proof (digits_all_digits n) as Hall.
  pose proof (digits_value_digits n) as Hval.
  destruct (digits_head n) as (c & r & E & _ & Hz). rewrite E in *.
  rewrite parseInt_all_digits; [now rewrite Hval | assumption | apply Hz].
Qed.

Lemma parseInt_integer_text (z : Z) :
  0 <= z < 10 ^ 21 -> parseInt (print_decimal (of_Z z)) = Some z.
Proof.
  intros Hz. rewrite print_decimal_integer, parseInt_digits by assumption.
  f_equal. lia.
Qed.

Lemma parseInt_negative_text (z : Z) :
  z < 0 ->
  match parseInt (print_decimal (of_Z z)) with
  | Some v => v <= 0
  | None => True
  end.
Proof.
  intros Hz. unfold print_decimal, of_Z. cbn [mant fdigits normalize].
  unfold print_canonical. cbn [mant fdigits].
  destruct (Z.ltb_spec z 0); [|lia].
  unfold parseInt. cbn [trimStart]. change (is_ws "-") with false. cbv iota.
  unfold take_sign. cbn [next_is]. change (Ascii.eqb "-" "-") with true. cbv iota.
  destruct (_ || _); destruct (parse_radix _ _ None); try exact I; lia.
Qed.

(** ** From a product card to the detail page *)

Lemma find_first_id (products : list Product.t) (p : Product.t) :
  p ∈ products -> NoDup (Product.id <$> products) ->
  List.find (fun q => Product.id q =? Product.id p) products = Some p.
Proof.
  induction products as [|x l IH]; intros Hin Hnd; [inversion Hin|].
  cbn [List.find]. cbn [fmap list_fmap] in Hnd. apply NoDup_cons in Hnd as [Hx Hnd].
  destruct (Z.eqb_spec (Product.id x) (Product.id p)) as [E|E].
  - apply elem_of_cons in Hin as [->|Hin]; [reflexivity|].
    exfalso. apply Hx. rewrite E. apply list_elem_of_fmap. now exists p.
  - apply elem_of_cons in Hin as [->|Hin]; [contradiction|]. now apply IH.
Qed.

(** X14. The id that a card writes into its link is read back by the detail
    page when it is a positive integer below [10^21]: the page then shows
    the first product of the catalog with that id, which is the product of
    the card when ids are unique.  A product whose id is zero or negative
    cannot be opened from its card. *)
Theorem card_link_opens_product (products : list Product.t) (p : Product.t) :
  (0 < Product.id p < 10 ^ 21 ->
   Detail.getProductIdFromURL (Some (Listing.id_text p)) = Some (Product.id p)
   /\ Detail.detailPage (Some (Listing.id_text p)) (Some products)
      = match List.find (fun q => Product.id q =? Product.id p) products with
        | Some q => Detail.DetailView q
        | None => Detail.NotFound
        end
   /\ (p ∈ products -> NoDup (Product.id <$> products) ->
       Detail.detailPage (Some (Listing.id_text p)) (Some products) = Detail.DetailView p))
  /\ (Product.id p <= 0 ->
      Detail.detailPage (Some (Listing.id_text p)) (Some products) = Detail.NotFound).
Proof.
  split.
  - intros Hid.
    assert (Hget : Detail.getProductIdFromURL (Some (Listing.id_text p)) = Some (Product.id p)).
    { unfold Detail.getProductIdFromURL, Listing.id_text.
      rewrite parseInt_integer_text by lia.
      rewrite print_decimal_integer by lia.
      destruct (digits_head (Z.to_N (Product.id p))) as (c & r & -> & _). cbn [JsString.truthy negb].
      destruct (Z.leb_spec (Product.id p) 0); [lia | reflexivity]. }
    split; [exact Hget|].
    assert (Hpage : Detail.detailPage (Some (Listing.id_text p)) (Some products)
                    = match List.find (fun q => Product.id q =? Product.id p) products with
                      | Some q => Detail.DetailView q
                      | None => Detail.NotFound
                      end).
    { unfold Detail.detailPage. rewrite Hget. reflexivity. }
    split; [exact Hpage|].
    intros Hin Hnd. rewrite Hpage, find_first_id by assumption. reflexivity.
  - intros Hid. unfold Detail.detailPage, Detail.getProductIdFromURL, Listing.id_text.
    destruct (JsString.truthy _); cbn [negb]; [|reflexivity].
    destruct (Z.eq_dec (Product.id p) 0) as [E|E].
    + rewrite E. reflexivity.
    + pose proof (parseInt_negative_text (Product.id p) ltac:(lia)) as H.
      destruct (parseInt _) as [v|]; [|reflexivity].
      destruct (Z.leb_spec v 0); [reflexivity | lia].
Qed.

Lemma card_link_opens_product_witness :
  Detail.detailPage (Some (Listing.id_text lens_50mm)) (Some [canon_r5; sony_a7; lens_50mm])
  = Detail.DetailView lens_50mm.
Proof.
  apply (proj1 (card_link_opens_product [canon_r5; sony_a7; lens_50mm] lens_50mm)).
  - cbn. lia.
  - repeat constructor.
  - cbn. repeat (constructor; [rewrite ?not_elem_of_cons; repeat split; try discriminate; apply not_elem_of_nil|]).
    constructor.
Defined.

(** ** The remove buttons of the cart page *)

(** X15. The remove button rendered for the item at a position removes that
    item and no other, in a cart of fewer than [2^32] items; a button
    whose [data-index] is missing or holds no number makes the listener
    throw a [TypeError]. *)
Theorem remove_button_removes_its_item (cart : list CartLineItem.t) :
  (Z.of_nat (length cart) < 2 ^ 32 ->
   forall (i : nat) (item : CartLineItem.t),
     cart !! i = Some item ->
     CartPage.removeClick cart (Some (CartPage.data_index i))
     = Ok (delete i cart, Cart.Removed (CartLineItem.name item)))
  /\ CartPage.removeClick cart None = Throw TypeError
  /\ (forall s, no_digit s = true -> CartPage.removeClick cart (Some s) = Throw TypeError).
Proof.
  split; [|split].
  - intros Hlen i item Hi. unfold CartPage.removeClick, CartPage.data_index.
    pose proof (lookup_lt_Some _ _ _ Hi) as Hlt.
    rewrite parseInt_integer_text by lia. f_equal.
    unfold Cart.removeItemFromCart.
    destruct (Z.ltb_spec (Z.of_nat i) 0); [lia|].
    destruct (Z.leb_spec (Z.of_nat (length cart)) (Z.of_nat i)); [lia|]. cbn [orb].
    rewrite Nat2Z.id, Hi. reflexivity.
  - reflexivity.
  - intros s Hs. unfold CartPage.removeClick. now rewrite parseInt_no_digit.
Qed.

Lemma remove_button_removes_its_item_witness :
  let cart := [priced_item (PStr "$10"); Cart.cartProduct lens_50mm] in
  CartPage.removeClick cart (Some (CartPage.data_index 1))
  = Ok ([priced_item (PStr "$10")], Cart.Removed "RF 50mm F1.8").
Proof.
  intros cart.
  apply (proj1 (remove_button_removes_its_item cart) ltac:(cbn; lia) 1%nat
           (Cart.cartProduct lens_50mm)).
  reflexivity.
Defined.

(** ** Related products *)

Lemma related_spec (products : list Product.t) (category : string) (current : Z) (p : Product.t) :
  p ∈ List.filter (fun p => String.eqb (Product.category p) category
                            && negb (Product.id p =? current)) products
  <-> p ∈ products /\ Product.category p = category /\ Product.id p <> current.
Proof.
  rewrite filter_elem_of, andb_true_iff, negb_true_iff, String.eqb_eq, Z.eqb_neq. tauto.
Qed.

Lemma related_first_four (products : list Product.t) (category : string) (current : Z) :
  let others := List.filter (fun p => String.eqb (Product.category p) category
                                      && negb (Product.id p =? current)) products in
  let r := Related.related products category current in
  (length r <= 4)%nat
  /\ sublist r products
  /\ (forall p, p ∈ r ->
        p ∈ products /\ Product.category p = category /\ Product.id p <> current)
  /\ (forall p, p ∈ products -> Product.category p = category -> Product.id p <> current ->
        p ∈ r \/ length r = 4%nat)
  /\ (exists rest, others = r ++ rest /\ (rest <> [] -> length r = 4%nat)).
Proof.
  intros others r. subst r. unfold Related.related. fold others.
  split; [rewrite length_take; lia|].
  split; [transitivity others; [apply sublist_take | apply filter_is_sublist]|].
  split; [intros p Hp; apply related_spec; exact (elem_of_sublist _ _ _ Hp (sublist_take _ _))|].
  assert (Hrest : take 4 others ++ drop 4 others = others) by apply take_drop.
  assert (Hfull : drop 4 others <> [] -> length (take 4 others) = 4%nat).
  { intros Hd. rewrite length_take. destruct (decide (4 <= length others)%nat); [lia|].
    exfalso. apply Hd. apply drop_ge. lia. }
  split.
  - intros p Hp Hc Hi.
    assert (Hin : p ∈ others) by (apply related_spec; auto).
    rewrite <- Hrest in Hin. apply elem_of_app in Hin as [Hin|Hin]; [now left|right].
    apply Hfull. intros E. rewrite E in Hin. inversion Hin.
  - exists (drop 4 others). split; [now symmetry | exact Hfull].
Qed.

(** X16. The related products are the first four, in catalog order, of the
    products of the category other than the current one. *)
Theorem related_selection (products : list Product.t) (category : string) (current : Z) :
  let others := List.filter (fun p => String.eqb (Product.category p) category
                                      && negb (Product.id p =? current)) products in
  let r := Related.related products category current in
  (length r <= 4)%nat
  /\ sublist r products
  /\ (forall p, p ∈ r ->
        p ∈ products /\ Product.category p = category /\ Product.id p <> current)
  /\ (forall p, p ∈ products -> Product.category p = category -> Product.id p <> current ->
        p ∈ r \/ length r = 4%nat)
  /\ (exists rest, others = r ++ rest /\ (rest <> [] -> length r = 4%nat)).
Proof. exact (related_first_four products category current). Qed.

(** X17. On the detail page of [product], with the three containers in place:
    the notice is shown exactly when the catalog has no other product of
    its category; the cards never show a product with its id. *)
Theorem related_view (dom : Related.Containers) (products : list Product.t) (product : Product.t) :
  Related.relatedProducts dom = true ->
  Related.relatedProductsLoading dom = true ->
  Related.noRelatedProducts dom = true ->
  (Related.ofProduct dom (Some products) product = Related.NoRelatedNotice
   <-> forall p, p ∈ products -> Product.category p = Product.category product ->
                 Product.id p = Product.id product)
  /\ (forall cards, Related.ofProduct dom (Some products) product = Related.Cards cards ->
        cards <> [] /\ (length cards <= 4)%nat /\ sublist cards products
        /\ forall p, p ∈ cards ->
             Product.category p = Product.category product
             /\ Product.id p <> Product.id product)
  /\ Related.ofProduct dom None product = Related.LoadingHidden.
Proof.
  intros H1 H2 H3. unfold Related.ofProduct, Related.loadRelatedProducts.
  rewrite H1, H2, H3. cbn [negb orb].
  destruct (related_first_four products (Product.category product) (Product.id product))
    as (Hlen & Hsub & Hin & Hall & _).
  destruct (Related.related products (Product.category product) (Product.id product))
    as [|x r] eqn:E.
  - split; [|split; [discriminate | reflexivity]].
    split; [|reflexivity]. intros _ p Hp Hc.
    destruct (decide (Product.id p = Product.id product)) as [|Hne]; [assumption|].
    destruct (Hall p Hp Hc Hne) as [Hx|Hx]; [inversion Hx | discriminate Hx].
  - split; [|split; [|reflexivity]].
    + split; [discriminate|]. intros Hno. exfalso.
      destruct (Hin x) as (Hp & Hc & Hi); [left|]. apply Hi. now apply Hno.
    + intros cards [= <-]. split; [discriminate|]. split; [exact Hlen|]. split; [exact Hsub|].
      intros p Hp. destruct (Hin p Hp) as (_ & Hc & Hi). now split.
Qed.

Lemma related_view_witness :
  let dom := Related.mkContainers true true true in
  let products := [canon_r5; sony_a7; lens_50mm] in
  Related.ofProduct dom (Some products) lens_50mm = Related.NoRelatedNotice
  /\ Related.ofProduct dom None lens_50mm = Related.LoadingHidden.
Proof.
  intros dom products.
  destruct (related_view dom products lens_50mm eq_refl eq_refl eq_refl) as (H1 & _ & H3).
  split; [|exact H3]. apply H1. intros p Hp Hc.
  repeat (apply elem_of_cons in Hp as [->|Hp]; [first [discriminate Hc | reflexivity]|]).
  inversion Hp.
Defined.

(** ** Category counts *)

Lemma countOf_filterByCategory (P : list Product.t) (c : string) :
  c <> "All"%string ->
  Listing.countOf P c = Z.of_nat (length (Catalog.filterByCategory P c)).
Proof.
  intros Hc. unfold Listing.countOf, Catalog.filterByCategory.
  destruct (String.eqb_spec c "All"); [contradiction | reflexivity].
Qed.

Lemma counts_agree (P : list Product.t) (c : string) (n : Z) :
  (c, n) ∈ Listing.counts P -> n = Z.of_nat (length (Catalog.filterByCategory P c)).
Proof.
  unfold Listing.counts. intros H.
  repeat (apply elem_of_cons in H as [[= -> ->]|H];
          [first [reflexivity | apply countOf_filterByCategory; discriminate]|]).
  inversion H.
Qed.

(** X18. Every element that [updateCategoryCounts] writes is on the page, is
    written once, and gets the number of products that selecting its
    category displays; every category of the table whose element is on
    the page is written. *)
Theorem updateCategoryCounts_writes (present : string -> bool) (P : list Product.t) :
  let writes := Listing.updateCategoryCounts present P in
  NoDup (fst <$> writes)
  /\ (forall id n, (id, n) ∈ writes ->
        present id = true
        /\ exists c, id = Listing.elementId c
                     /\ n = Z.of_nat (length (Catalog.filterByCategory P c)))
  /\ (forall c n, (c, n) ∈ Listing.counts P -> present (Listing.elementId c) = true ->
        (Listing.elementId c, Z.of_nat (length (Catalog.filterByCategory P c))) ∈ writes).
Proof.
  intros writes. subst writes. unfold Listing.updateCategoryCounts.
  split; [|split].
  - eapply sublist_NoDup; [|apply fmap_sublist, filter_is_sublist].
    cbn. repeat (constructor; [rewrite ?not_elem_of_cons; repeat split; try discriminate; apply not_elem_of_nil|]).
    constructor.
  - intros id n H. apply filter_elem_of in H as [H Hp]. split; [exact Hp|].
    apply list_elem_of_In, in_map_iff in H as ([c m] & [= <- <-] & H).
    apply list_elem_of_In in H. exists c. split; [reflexivity | now apply counts_agree].
  - intros c n H Hp. apply filter_elem_of. split; [|exact Hp].
    rewrite <- (counts_agree P c n H).
    apply list_elem_of_In, in_map_iff. exists (c, n). split; [reflexivity | now apply list_elem_of_In].
Qed.

Lemma countOf_cons (p : Product.t) (P : list Product.t) (c : string) :
  Listing.countOf (p :: P) c = (if String.eqb (Product.category p) c then 1 else 0) + Listing.countOf P c.
Proof.
  unfold Listing.countOf. cbn [List.filter].
  destruct (String.eqb _ _); cbn [length]; lia.
Qed.

Lemma category_indicator (c : string) :
  let hit (name : string) : Z := if String.eqb c name then 1 else 0 in
  let hits := hit "Cameras" + (hit "Camera Lenses" + (hit "Lighting & Studio"
              + (hit "Tripods & Supports" + (hit "Accessories" + 0)))) in
  0 <= hits <= 1
  /\ (hits = 1 <-> c ∈ ["Cameras"; "Camera Lenses"; "Lighting & Studio";
                        "Tripods & Supports"; "Accessories"]%string).
Proof.
  cbv zeta. rewrite !elem_of_cons, elem_of_nil.
  destruct (String.eqb_spec c "Cameras") as [->|?]; [cbn; split; [lia | tauto]|].
  destruct (String.eqb_spec c "Camera Lenses") as [->|?]; [cbn; split; [lia | tauto]|].
  destruct (String.eqb_spec c "Lighting & Studio") as [->|?]; [cbn; split; [lia | tauto]|].
  destruct (String.eqb_spec c "Tripods & Supports") as [->|?]; [cbn; split; [lia | tauto]|].
  destruct (String.eqb_spec c "Accessories") as [->|?]; [cbn; split; [lia | tauto]|].
  cbn. split; [lia|]. split; [discriminate | tauto].
Qed.

(** X19. The five named categories never count a product twice: their counts
    add up to at most the count of [All], and to exactly that count when
    every product is of a named category. *)
Theorem category_counts_partition (P : list Product.t) :
  let named := tail (Listing.counts P) in
  fst <$> named = ["Cameras"; "Camera Lenses"; "Lighting & Studio";
                   "Tripods & Supports"; "Accessories"]%string
  /\ foldr Z.add 0 (snd <$> named) <= Z.of_nat (length P)
  /\ (foldr Z.add 0 (snd <$> named) = Z.of_nat (length P)
      <-> Forall (fun p => Product.category p ∈ (fst <$> named)) P).
Proof.
  cbn. split; [reflexivity|].
  induction P as [|p P [IH1 IH2]].
  - unfold Listing.countOf. cbn. split; [lia|]. split; [constructor | reflexivity].
  - rewrite !countOf_cons, Forall_cons.
    destruct (category_indicator (Product.category p)) as [Hc1 Hc2]. cbv zeta in Hc1, Hc2.
    cbn [length]. split; [lia|]. rewrite <- Hc2, <- IH2. lia.
Qed.

(** ** Price labels *)

(** X20. The cart shows for an item the price text of the card of the product
    it was added from, and that text is never empty. *)
Theorem priceLabel_consistent (product : Product.t) :
  CartPage.priceLabel (Cart.cartProduct product) = Listing.priceLabel product
  /\ Listing.priceLabel product <> EmptyString
  /\ exists members,
       CartLineItem.to_json (Cart.cartProduct product) = JObj members
       /\ obj_get "displayPrice" members = Some (JStr (Listing.priceLabel product)).
Proof.
  unfold CartPage.priceLabel, Listing.priceLabel, Cart.cartProduct. cbn [CartLineItem.displayPrice CartLineItem.price].
  split; [|split].
  - destruct (Product.displayPrice product) as [[|c s]|]; reflexivity.
  - destruct (Product.displayPrice product) as [[|c s]|]; discriminate.
  - eexists. split; [reflexivity|].
    cbn [CartLineItem.displayPrice CartLineItem.summary CartLineItem.price].
    destruct (Product.summary product), (Product.price product); reflexivity.
Qed.

(** ** Trimming *)


Lemma occurs_refl (s : string) : Spec.occurs s s.
Proof. exists EmptyString, EmptyString. cbn. now rewrite append_empty_r. Qed.



Lemma trimStart_suffix (s : string) : exists a, s = a +:+ trimStart s.
Proof.
  induction s as [|c s [a IH]]; [now exists EmptyString|]. cbn [trimStart].
  destruct (is_ws c).
  - exists (String c a). cbn. now rewrite <- IH.
  - now exists EmptyString.
Qed.

Lemma trimEnd_prefix (s : string) : exists b, s = trimEnd s +:+ b.
Proof.
  induction s as [|c s [b IH]]; [now exists EmptyString|]. cbn [trimEnd].
  destruct (trimEnd s) as [|d t] eqn:E.
  - destruct (is_ws c).
    + exists (String c s). reflexivity.
    + exists s. reflexivity.
  - exists b. cbn. now rewrite IH at 1.
Qed.

Lemma trim_occurs (s : string) : Spec.occurs (trim s) s.
Proof.
  unfold trim. destruct (trimStart_suffix s) as [a Ha].
  destruct (trimEnd_prefix (trimStart s)) as [b Hb].
  exists a, b. now rewrite <- Hb.
Qed.









(** ** What a search finds *)



Lemma filter_sublist_impl {A} (f g : A -> bool) (l : list A) :
  (forall x, f x = true -> g x = true) -> sublist (List.filter f l) (List.filter g l).
Proof.
  intros H. induction l as [|x l IH]; [constructor|]. cbn [List.filter].
  destruct (f x) eqn:Ef.
  - rewrite (H x Ef). now constructor.
  - destruct (g x); [now constructor | exact IH].
Qed.



(** X22. Searching for the text of a field of a product of the catalog, as
    the catalog writes it, finds that product: lower-casing and trimming
    the query never lose the match. *)
Theorem handleSearch_finds_own_fields (P : list Product.t) (p : Product.t) :
  p ∈ P ->
  p ∈ Catalog.handleSearch P (Product.name p)
  /\ p ∈ Catalog.handleSearch P (Product.brand p)
  /\ p ∈ Catalog.handleSearch P (Product.category p)
  /\ forall s, Product.summary p = Some s -> p ∈ Catalog.handleSearch P s.
Proof.
  intros Hp.
  assert (H : forall v, Catalog.matches (trim (toLowerCase v)) p = true ->
                        p ∈ Catalog.handleSearch P v).
  { intros v Hv. unfold Catalog.handleSearch, Catalog.filterProducts.
    destruct (negb _); [exact Hp|]. apply filter_elem_of. now split. }
  assert (Hself : forall v, includes (toLowerCase v) (trim (toLowerCase v)) = true).
  { intros v. apply includes_spec, trim_occurs. }
  split; [|split; [|split]].
  - apply H. unfold Catalog.matches. now rewrite Hself.
  - apply H. unfold Catalog.matches. now rewrite Hself, orb_true_r.
  - apply H. unfold Catalog.matches. now rewrite Hself, !orb_true_r.
  - intros s Hs. destruct s as [|c s].
    + unfold Catalog.handleSearch, Catalog.filterProducts. exact Hp.
    + apply H. unfold Catalog.matches. rewrite Hs. cbn [JsString.truthy andb].
      now rewrite Hself, !orb_true_r.
Qed.

Lemma handleSearch_finds_own_fields_witness :
  canon_r5 ∈ Catalog.handleSearch [sony_a7; canon_r5] "Canon EOS R5".
Proof.
  assert (H : canon_r5 ∈ [sony_a7; canon_r5])
    by (apply list_elem_of_In; right; left; reflexivity).
  exact (proj1 (handleSearch_finds_own_fields [sony_a7; canon_r5] canon_r5 H)).
Defined.

(** ** The views of a category *)

(** X23. The related products of a category are among the products that the
    category filter shows for it, and these are among the products that a
    search for the name of the category finds (for a category other than
    the sentinel [All]). *)
Theorem category_views_agree (P : list Product.t) (c : string) (current : Z) :
  sublist (Related.related P c current) (Catalog.filterByCategory P c)
  /\ (c <> "All"%string ->
      sublist (Catalog.filterByCategory P c) (Catalog.handleSearch P c)).
Proof.
  split.
  - unfold Related.related, Catalog.filterByCategory.
    etransitivity; [apply sublist_take|].
    destruct (String.eqb c "All"); [apply filter_is_sublist|].
    apply filter_sublist_impl. intros p Hp. now apply andb_true_iff in Hp as [Hp _].
  - intros Hc. unfold Catalog.filterByCategory.
    destruct (String.eqb_spec c "All") as [|_]; [contradiction|].
    unfold Catalog.handleSearch, Catalog.filterProducts.
    destruct (negb _); [apply filter_is_sublist|].
    apply filter_sublist_impl. intros p Hp. apply String.eqb_eq in Hp.
    unfold Catalog.matches. rewrite Hp.
    assert (H : includes (toLowerCase c) (trim (toLowerCase c)) = true)
      by apply includes_spec, trim_occurs.
    now rewrite H, !orb_true_r.
Qed.

(** ** Adding to a cart that the cart page can load *)




(** ** The product grid *)

Lemma showProducts_fields (s : Storefront.t) (l : list Product.t) :
  Storefront.allProducts (Storefront.showProducts s l) = Storefront.allProducts s
  /\ Storefront.currentProducts (Storefront.showProducts s l) = Storefront.currentProducts s
  /\ Storefront.productsContainer (Storefront.showProducts s l)
     = Storefront.productsContainer s
  /\ Storefront.view (Storefront.showProducts s l)
     = if Storefront.productsContainer s then Storefront.grid l else Storefront.view s.
Proof.
  unfold Storefront.showProducts. destruct (Storefront.productsContainer s) eqn:E;
    cbn; auto.
Qed.

Lemma step_fields (s : Storefront.t) (e : Storefront.Event) :
  Storefront.allProducts (Storefront.step s e) = Storefront.allProducts s
  /\ Storefront.productsContainer (Storefront.step s e) = Storefront.productsContainer s
  /\ Storefront.view (Storefront.step s e)
     = match Storefront.selection (Storefront.allProducts s) e with
       | Some l =>
           if Storefront.productsContainer s then Storefront.grid l else Storefront.view s
       | None => Storefront.view s
       end
  /\ (sublist (Storefront.currentProducts s) (Storefront.allProducts s) ->
      sublist (Storefront.currentProducts (Storefront.step s e)) (Storefront.allProducts s)).
Proof.
  destruct e as [value|category [|]|[category|]|]; cbn [Storefront.step Storefront.selection].
  - unfold Storefront.handleSearch, Storefront.filterProducts, Catalog.handleSearch,
      Catalog.filterProducts.
    destruct (negb _);
      match goal with |- context [Storefront.showProducts ?s ?l] =>
        destruct (showProducts_fields s l) as (-> & -> & -> & ->) end;
      cbn; repeat split; auto; intros _; apply filter_is_sublist.
  - unfold Storefront.handleCategoryFilter. cbn [negb].
    match goal with |- context [Storefront.showProducts ?s ?l] =>
      destruct (showProducts_fields s l) as (-> & -> & -> & ->) end.
    cbn. repeat split; auto. intros _. unfold Catalog.filterByCategory.
    destruct (String.eqb _ _); [reflexivity | apply filter_is_sublist].
  - unfold Storefront.handleCategoryFilter. cbn [negb]. auto.
  - unfold Storefront.categoryDropdown.
    match goal with |- context [Storefront.showProducts ?s ?l] =>
      destruct (showProducts_fields s l) as (-> & -> & -> & ->) end. auto.
  - unfold Storefront.categoryDropdown.
    match goal with |- context [Storefront.showProducts ?s ?l] =>
      destruct (showProducts_fields s l) as (-> & -> & -> & ->) end. auto.
  - match goal with |- context [Storefront.showProducts ?s ?l] =>
      destruct (showProducts_fields s l) as (-> & -> & -> & ->) end. auto.
Qed.

Lemma run_snoc (s : Storefront.t) (events : list Storefront.Event) (e : Storefront.Event) :
  Storefront.run s (events ++ [e]) = Storefront.step (Storefront.run s events) e.
Proof. unfold Storefront.run. now rewrite fold_left_app. Qed.

Lemma run_fields (s : Storefront.t) (events : list Storefront.Event) :
  Storefront.allProducts (Storefront.run s events) = Storefront.allProducts s
  /\ Storefront.productsContainer (Storefront.run s events) = Storefront.productsContainer s
  /\ (sublist (Storefront.currentProducts s) (Storefront.allProducts s) ->
      sublist (Storefront.currentProducts (Storefront.run s events))
              (Storefront.allProducts s)).
Proof.
  induction events as [|e events IH] using rev_ind; [cbn; auto|].
  rewrite run_snoc. destruct IH as (Ha & Hc & Hs).
  destruct (step_fields (Storefront.run s events) e) as (-> & -> & _ & Hs').
  rewrite Ha in *. auto.
Qed.

Lemma grid_sublist (l all : list Product.t) :
  sublist l all ->
  match Storefront.grid l with
  | Storefront.Cards shown => shown <> [] /\ sublist shown all
  | _ => True
  end.
Proof. intros H. destruct l; cbn; [exact I|]. split; [discriminate | exact H]. Qed.

Lemma selection_sublist (all : list Product.t) (e : Storefront.Event) (l : list Product.t) :
  Storefront.selection all e = Some l -> sublist l all.
Proof.
  destruct e as [value|category [|]|[category|]|]; cbn; intros [= <-]; try reflexivity.
  - unfold Catalog.handleSearch, Catalog.filterProducts.
    destruct (negb _); [reflexivity | apply filter_is_sublist].
  - unfold Catalog.filterByCategory.
    destruct (String.eqb _ _); [reflexivity | apply filter_is_sublist].
  - unfold Catalog.filterByCategory.
    destruct (String.eqb _ _); [reflexivity | apply filter_is_sublist].
  - apply sublist_nil_l.
Qed.

Lemma initializeApp_fields (page : Storefront.Page) :
  let s := Storefront.initializeApp page in
  Storefront.productsContainer s
  = Storefront.navbarLoaded page && Storefront.productsElement page
  /\ Storefront.currentProducts s = Storefront.allProducts s
  /\ Storefront.allProducts s
     = (if Storefront.productsElement page
        then match Storefront.data page with Some products => products | None => [] end
        else [])
  /\ Storefront.view s
     = if Storefront.productsElement page then
         if Storefront.navbarLoaded page then
           match Storefront.data page with
           | Some products => Storefront.grid products
           | None => Storefront.LoadFailed
           end
         else Storefront.Spinner
       else Storefront.Blank.
Proof.
  destruct page as [[|] [|] [products|]]; cbn; auto.
Qed.

(** X25. Whatever the page is made of and whatever the user does, the grid
    shows cards only for a non-empty sublist of the fetched catalog, in
    catalog order, and the catalog itself never changes. *)
Theorem grid_shows_catalog_products (page : Storefront.Page) (events : list Storefront.Event) :
  let s := Storefront.run (Storefront.initializeApp page) events in
  Storefront.allProducts s = Storefront.allProducts (Storefront.initializeApp page)
  /\ sublist (Storefront.currentProducts s) (Storefront.allProducts s)
  /\ match Storefront.view s with
     | Storefront.Cards shown =>
         shown <> [] /\ sublist shown (Storefront.allProducts s)
         /\ Storefront.data page = Some (Storefront.allProducts s)
     | _ => True
     end.
Proof.
  intros s. subst s.
  destruct (initializeApp_fields page) as (Hc0 & Hcur0 & Hall0 & Hv0).
  induction events as [|e events IH] using rev_ind.
  - cbn [Storefront.run fold_left]. split; [reflexivity|].
    split; [rewrite Hcur0; reflexivity|]. rewrite Hv0, Hall0.
    destruct (Storefront.productsElement page); [|exact I].
    destruct (Storefront.navbarLoaded page); [|exact I].
    destruct (Storefront.data page) as [[|p l]|]; cbn; try exact I.
    split; [discriminate|]. split; reflexivity.
  - rewrite run_snoc. destruct IH as (Ha & Hs & Hv).
    destruct (step_fields (Storefront.run (Storefront.initializeApp page) events) e)
      as (Ha' & _ & Hv' & Hs').
    rewrite Ha'. split; [exact Ha|]. split; [apply Hs', Hs|].
    rewrite Hv'.
    destruct (Storefront.selection _ e) as [l|] eqn:El; [|exact Hv].
    destruct (run_fields (Storefront.initializeApp page) events) as (_ & Hc & _).
    rewrite Hc, Hc0.
    destruct (Storefront.navbarLoaded page); cbn [andb]; [|exact Hv].
    destruct (Storefront.productsElement page) eqn:Ep; [|exact Hv].
    pose proof (grid_sublist _ _ (selection_sublist _ _ _ El)) as Hg.
    destruct (Storefront.grid l); try exact I. destruct Hg as [Hne Hsub].
    split; [exact Hne|]. split; [exact Hsub|].
    rewrite Ha, Hall0. rewrite Ha, Hall0 in Hsub.
    destruct (Storefront.data page) as [fetched|]; [reflexivity|].
    apply sublist_nil_r in Hsub. contradiction.
Qed.

(** X26. Once the catalog is loaded, the grid after any sequence of searches
    and category selections is what the last of them selects from the
    whole catalog: an earlier search or category does not restrict a later
    one. *)
Theorem grid_shows_last_selection (products : list Product.t)
  (events : list Storefront.Event) (e : Storefront.Event) :
  let page := Storefront.mkPage true true (Some products) in
  Storefront.view (Storefront.run (Storefront.initializeApp page) (events ++ [e]))
  = match Storefront.selection products e with
    | Some l => Storefront.grid l
    | None => Storefront.view (Storefront.run (Storefront.initializeApp page) events)
    end.
Proof.
  intros page. rewrite run_snoc.
  destruct (step_fields (Storefront.run (Storefront.initializeApp page) events) e)
    as (_ & _ & -> & _).
  destruct (run_fields (Storefront.initializeApp page) events) as (-> & -> & _).
  reflexivity.
Qed.

(** X27. When the navbar fails to load, the container of the grid is never
    cached: the spinner written by [loadProducts] stays, whatever the
    fetch of the catalog yields and whatever the user does.  With the
    navbar loaded, the fetched catalog is shown, or the failure of the
    fetch. *)
Theorem grid_needs_navbar (page : Storefront.Page) (events : list Storefront.Event) :
  Storefront.productsElement page = true ->
  (Storefront.navbarLoaded page = false ->
   Storefront.view (Storefront.run (Storefront.initializeApp page) events)
   = Storefront.Spinner)
  /\ (Storefront.navbarLoaded page = true ->
      Storefront.view (Storefront.initializeApp page)
      = match Storefront.data page with
        | Some products => Storefront.grid products
        | None => Storefront.LoadFailed
        end).
Proof.
  intros Hel.
  destruct (initializeApp_fields page) as (Hc0 & _ & _ & Hv0). rewrite Hel in *.
  split; intros Hnav; rewrite Hnav in *; [|exact Hv0].
  induction events as [|e events IH] using rev_ind; [exact Hv0|].
  rewrite run_snoc.
  destruct (step_fields (Storefront.run (Storefront.initializeApp page) events) e)
    as (_ & _ & -> & _).
  destruct (run_fields (Storefront.initializeApp page) events) as (_ & -> & _).
  rewrite Hc0. cbn [andb]. now destruct (Storefront.selection _ e).
Qed.

Lemma grid_needs_navbar_witness :
  let page := Storefront.mkPage false true (Some [canon_r5]) in
  Storefront.view (Storefront.run (Storefront.initializeApp page)
                     [Storefront.ShowAll; Storefront.DropdownCategory (Some "All"%string)])
  = Storefront.Spinner.
Proof.
  intros page.
  exact (proj1 (grid_needs_navbar page
                  [Storefront.ShowAll; Storefront.DropdownCategory (Some "All"%string)]
                  eq_refl) eq_refl).
Defined.
